(** * The elastic driver of horovod.run.elastic (driver.py)

    A shallow embedding of [WorkerStateRegistry], [Results] and
    [ElasticDriver], and of the threads that call into them.

    The Python objects live in one [Process]: the driver (which owns the
    registry, the results and the discovered hosts), the heap of
    [threading.Barrier] objects the registry has created, and the records
    written through [logging].  A method is a computation in the monad [M]:
    it reads and writes the process, and it returns, raises, or blocks.
    A thread inside [_record_state] is a program counter over the lines of
    that method; [step] runs one atomic block of one thread. *)

From Stdlib Require Import ZArith Lia Ascii.
From stdpp Require Import base option list gmap sets strings pretty.

Local Open Scope Z_scope.

(** ** Constants (driver.py, lines 32-37) *)

Definition READY : string := "READY".
Definition SUCCESS : string := "SUCCESS".
Definition FAILURE : string := "FAILURE".

Definition START_TIMEOUT_SECS : Z := 600.

(** ** Exceptions and logging *)

Inductive Exn : Type :=
| BrokenBarrierError
    (* threading.BrokenBarrierError *)
| StateOverridden (state saved_state : string)
    (* RuntimeError('State {} overridden by {}') *)
| StartTimeout (activity : string)
    (* raised by Timeout.check_time_out_for *)
| NoBarrier
    (* AttributeError: self._barrier is still None *)
| AssignmentError
    (* raised by hosts.get_host_assignments *)
| IntValueError (text : string).
    (* ValueError of int() on the environment variable *)

(** One constructor per [logging] call of driver.py, with the values the
    call formats into its message. *)
Inductive LogRecord : Type :=
| info_reset_workers (size : Z)
| info_driver_finished (host : string) (slot : Z) (state : string)
| info_key_exists (host : string) (slot : Z) (state : string)
| info_record_state (host : string) (slot : Z) (state : string)
| info_all_recorded (size : Z)
| info_success_stop (count : Z)
| error_failure_stop (world_size : Z)
| error_blacklisted_stop (world_size : Z)
| exception_activate_failed
| info_wait_for_hosts (min_np : Z)
| info_start_workers (host : string)
| debug_ignoring_exit (host : string) (local_rank : Z)
| debug_adding_results (host : string) (local_rank exit_code timestamp : Z).

(** ** threading.Barrier

    The barrier of the Python standard library, as CPython implements it:
    [_state] is 0 while the barrier fills, 1 while the released threads
    drain, -1 while the threads woken by [reset] leave, -2 once broken.
    The registry creates its barriers without a timeout, and the
    constructor takes any [parties]. *)

Inductive BarrierState : Type := Filling | Draining | Resetting | Broken.

Record Barrier : Type := mkBarrier {
  _parties : Z;
  _state : BarrierState;
  _count : Z;
}.

Definition new_Barrier (parties : Z) : Barrier := mkBarrier parties Filling 0.

Definition set_state (st : BarrierState) (b : Barrier) : Barrier :=
  mkBarrier (_parties b) st (_count b).

Definition set_count (c : Z) (b : Barrier) : Barrier :=
  mkBarrier (_parties b) (_state b) c.

(** [Barrier.reset]: with threads inside, a filling or broken barrier
    starts resetting, which wakes them with [BrokenBarrierError]. *)
Definition Barrier_reset (b : Barrier) : Barrier :=
  if 0 <? _count b then
    match _state b with
    | Filling => set_state Resetting b
    | Broken => set_state Resetting b
    | Draining | Resetting => b
    end
  else set_state Filling b.

(** [Barrier.broken] *)
Definition Barrier_broken (b : Barrier) : bool :=
  match _state b with Broken => true | _ => false end.

(** [Barrier._exit]: the last thread out of a draining or resetting barrier
    makes it fill again. *)
Definition Barrier_exit (b : Barrier) : Barrier :=
  if _count b =? 0 then
    match _state b with
    | Resetting | Draining => set_state Filling b
    | Filling | Broken => b
    end
  else b.

(** The [finally] clause of [Barrier.wait]. *)
Definition Barrier_leave (b : Barrier) : Barrier :=
  Barrier_exit (set_count (_count b - 1) b).

(** ** WorkerStateRegistry: the data (driver.py, lines 44-53)

    [_barrier] names a barrier object in the heap of the process, [None]
    before the first [reset].  A key missing from the [defaultdict]
    [_workers] stands for the empty set.  [_verbose] is never read and
    [_driver] is the driver of the same process. *)

Record WorkerStateRegistry : Type := mkRegistry {
  _states : gmap (string * Z) string;
  _workers : gmap string (gset (string * Z));
  _barrier : option nat;
  _rendezvous_id : Z;
  _size : Z;
}.

(** [WorkerStateRegistry.__init__] *)
Definition new_WorkerStateRegistry : WorkerStateRegistry :=
  mkRegistry ∅ ∅ None 0 0.

(** ** Hosts and slots (horovod.run.common.util.hosts) *)

(** Modelled from the spec: [HostInfo] and [SlotInfo] of
    horovod/run/common/util/hosts.py are not among the sources.  Section 3
    gives a slot as (hostname, local_rank, local_size, cross_rank,
    cross_size, rank, size) and a host as an identifier with a slot count. *)
Record HostInfo : Type := mkHostInfo {
  hi_hostname : string;
  hi_slots : Z;
}.

Record SlotInfo : Type := mkSlotInfo {
  hostname : string;
  local_rank : Z;
  local_size : Z;
  cross_rank : Z;
  cross_size : Z;
  rank : Z;
  size_ : Z;
}.

(** [hosts.get_host_assignments(host_list, min_np, max_np)] is not among
    the sources either; the driver is embedded over any such function,
    which returns the ordered slot list or raises. *)
Class Assigner : Type :=
  get_host_assignments : list HostInfo → Z → option Z → Exn + list SlotInfo.

(** ** DiscoveredHosts (horovod.run.elastic.discovery) *)

(** Modelled from the spec: class [DiscoveredHosts] of
    horovod/run/elastic/discovery.py is not among the sources.  Section 4.1
    describes it: the hosts last reported by discovery with their slots,
    in discovery order, and a sticky blacklist.  [count_available_slots] is
    the sum of slots(h) over the non-blacklisted available hosts,
    [blacklist] is idempotent, [filter_available_hosts] keeps the entries
    still available and not blacklisted, in order.  The spec does not
    describe [count_blacklisted_slots]; it is taken as the counterpart of
    [count_available_slots], the sum of slots(h) over the blacklisted
    available hosts. *)
Record DiscoveredHosts : Type := mkDiscoveredHosts {
  _available_slots : list (string * Z);
  _blacklisted : gset string;
}.

Definition new_DiscoveredHosts : DiscoveredHosts := mkDiscoveredHosts [] ∅.

Definition is_blacklisted (dh : DiscoveredHosts) (host : string) : bool :=
  bool_decide (host ∈ _blacklisted dh).

Definition blacklist (host : string) (dh : DiscoveredHosts) : DiscoveredHosts :=
  mkDiscoveredHosts (_available_slots dh) ({[ host ]} ∪ _blacklisted dh).

Definition sum_slots (l : list (string * Z)) : Z :=
  foldr (λ hs acc, hs.2 + acc) 0 l.

Definition count_available_slots (dh : DiscoveredHosts) : Z :=
  sum_slots (filter (λ hs, hs.1 ∉ _blacklisted dh) (_available_slots dh)).

Definition count_blacklisted_slots (dh : DiscoveredHosts) : Z :=
  sum_slots (filter (λ hs, hs.1 ∈ _blacklisted dh) (_available_slots dh)).

Definition get_available_hosts (dh : DiscoveredHosts) : list string :=
  (filter (λ hs, hs.1 ∉ _blacklisted dh) (_available_slots dh)).*1.

Definition filter_available_hosts (dh : DiscoveredHosts) (hosts : list string)
  : list string :=
  filter (λ h, h ∈ get_available_hosts dh) hosts.

Definition get_slots (dh : DiscoveredHosts) (host : string) : Z :=
  match list_find (λ hs : string * Z, hs.1 = host) (_available_slots dh) with
  | Some (_, (_, slots)) => slots
  | None => 0
  end.

(** [update_available_hosts]: store what discovery found; the result tells
    whether the effective available hosts changed. *)
Definition update_available_hosts (found : list (string * Z))
    (dh : DiscoveredHosts) : bool * DiscoveredHosts :=
  let dh' := mkDiscoveredHosts found (_blacklisted dh) in
  (bool_decide (get_available_hosts dh' ≠ get_available_hosts dh), dh').

(** ** Timeout (horovod.run.common.util.timeout) *)

(** Modelled from the spec: class [Timeout] of
    horovod/run/common/util/timeout.py is not among the sources.  Section 7
    raises [StartTimeout] when the wait exceeds [start_timeout]: the
    deadline is fixed when the object is built, and the check raises once
    the clock has passed it.  The clock counts whole seconds. *)
Record Timeout : Type := mkTimeout {
  _timeout_at : Z;
}.

Definition new_Timeout (now timeout : Z) : Timeout := mkTimeout (now + timeout).

Definition remaining (now : Z) (t : Timeout) : Z := Z.max 0 (_timeout_at t - now).

Definition timed_out (now : Z) (t : Timeout) : bool := _timeout_at t <? now.

(** ** Results: the data (driver.py, lines 123-126)

    [_results_map] is the dictionary [_results]; a worker thread in the
    queue is known by the slot it supervises. *)

Record Results : Type := mkResults {
  _results_map : gmap string (Z * Z);
  _worker_threads : list SlotInfo;
}.

Definition new_Results : Results := mkResults ∅ [].

(** ** ElasticDriver: the data (driver.py, lines 144-163)

    [_rendezvous] holds the slot list last handed to [httpd.init];
    [_create_worker_fn] is the handle of the injected factory.  The
    notification clients of [register_worker_server] and the host events
    carry no state the driver reads back and are left out. *)

Record ElasticDriver : Type := mkDriver {
  _rendezvous : list SlotInfo;
  _discovered_hosts : DiscoveredHosts;
  _min_np : Z;
  _max_np : option Z;
  _assigned_hosts : list string;
  _host_assignments : gmap string (list SlotInfo);
  _world_size : Z;
  _start_timeout : Z;
  _create_worker_fn : option nat;
  _worker_registry : WorkerStateRegistry;
  _results : Results;
  _shutdown : bool;
}.

(** ** The process: the driver, the barrier objects and the log *)

Record Process : Type := mkProcess {
  driver : ElasticDriver;
  barriers : list Barrier;
  logging : list LogRecord;
}.

(** What a thread blocked on [_wait_hosts_cond] sees when it wakes: the
    clock, and the hosts the discovery thread published meanwhile, if it
    published any. *)
Record Wakeup : Type := mkWakeup {
  now : Z;
  found : option (list (string * Z));
}.

(** The surroundings of one activation: the clock when it starts, and the
    wake-ups of its wait, in order. *)
Record Env : Type := mkEnv {
  clock : Z;
  wakeups : list Wakeup;
}.

(** ** The monad of methods *)

Inductive Outcome (A : Type) : Type :=
| Return (a : A)
| Raise (e : Exn)
| Blocked.
Arguments Return {A} a.
Arguments Raise {A} e.
Arguments Blocked {A}.

Definition M (A : Type) : Type := Process → Outcome A * Process.

Definition ret {A} (a : A) : M A := λ p, (Return a, p).

Definition bind {A B} (m : M A) (k : A → M B) : M B :=
  λ p, match m p with
       | (Return a, p') => k a p'
       | (Raise e, p') => (Raise e, p')
       | (Blocked, p') => (Blocked, p')
       end.

Definition raise {A} (e : Exn) : M A := λ p, (Raise e, p).

(** [try: m except Exception: h] *)
Definition try_except {A} (m : M A) (h : Exn → M A) : M A :=
  λ p, match m p with
       | (Raise e, p') => h e p'
       | r => r
       end.

Definition gets {A} (f : Process → A) : M A := λ p, (Return (f p), p).

Definition modify (f : Process → Process) : M unit := λ p, (Return tt, f p).

#[global] Instance M_ret : MRet M := @ret.
#[global] Instance M_bind : MBind M := λ A B k m, bind m k.

(** Field updates. *)

Definition with_driver (f : ElasticDriver → ElasticDriver) (p : Process) : Process :=
  mkProcess (f (driver p)) (barriers p) (logging p).

Definition with_barriers (f : list Barrier → list Barrier) (p : Process) : Process :=
  mkProcess (driver p) (f (barriers p)) (logging p).

Definition set_registry (r : WorkerStateRegistry) (d : ElasticDriver) : ElasticDriver :=
  mkDriver (_rendezvous d) (_discovered_hosts d) (_min_np d) (_max_np d)
    (_assigned_hosts d) (_host_assignments d) (_world_size d) (_start_timeout d)
    (_create_worker_fn d) r (_results d) (_shutdown d).

Definition set_discovered_hosts (dh : DiscoveredHosts) (d : ElasticDriver) : ElasticDriver :=
  mkDriver (_rendezvous d) dh (_min_np d) (_max_np d)
    (_assigned_hosts d) (_host_assignments d) (_world_size d) (_start_timeout d)
    (_create_worker_fn d) (_worker_registry d) (_results d) (_shutdown d).

Definition set_results (rs : Results) (d : ElasticDriver) : ElasticDriver :=
  mkDriver (_rendezvous d) (_discovered_hosts d) (_min_np d) (_max_np d)
    (_assigned_hosts d) (_host_assignments d) (_world_size d) (_start_timeout d)
    (_create_worker_fn d) (_worker_registry d) rs (_shutdown d).

Definition set_shutdown (b : bool) (d : ElasticDriver) : ElasticDriver :=
  mkDriver (_rendezvous d) (_discovered_hosts d) (_min_np d) (_max_np d)
    (_assigned_hosts d) (_host_assignments d) (_world_size d) (_start_timeout d)
    (_create_worker_fn d) (_worker_registry d) (_results d) b.

Definition set_create_worker_fn (fn : nat) (d : ElasticDriver) : ElasticDriver :=
  mkDriver (_rendezvous d) (_discovered_hosts d) (_min_np d) (_max_np d)
    (_assigned_hosts d) (_host_assignments d) (_world_size d) (_start_timeout d)
    (Some fn) (_worker_registry d) (_results d) (_shutdown d).

Definition set_assigned_hosts (hosts : list string) (d : ElasticDriver) : ElasticDriver :=
  mkDriver (_rendezvous d) (_discovered_hosts d) (_min_np d) (_max_np d)
    hosts (_host_assignments d) (_world_size d) (_start_timeout d)
    (_create_worker_fn d) (_worker_registry d) (_results d) (_shutdown d).

Definition set_assignments (published : list SlotInfo)
    (assignments : gmap string (list SlotInfo)) (world : Z)
    (d : ElasticDriver) : ElasticDriver :=
  mkDriver published (_discovered_hosts d) (_min_np d) (_max_np d)
    (_assigned_hosts d) assignments world (_start_timeout d)
    (_create_worker_fn d) (_worker_registry d) (_results d) (_shutdown d).

Definition registry (p : Process) : WorkerStateRegistry := _worker_registry (driver p).

Definition with_registry (f : WorkerStateRegistry → WorkerStateRegistry)
    (p : Process) : Process :=
  with_driver (λ d, set_registry (f (_worker_registry d)) d) p.

Definition log (r : LogRecord) : M unit :=
  modify (λ p, mkProcess (driver p) (barriers p) (logging p ++ [r])).

Definition blocked {A} : M A := λ p, (Blocked, p).

(** Python's [int] applied to a string: the number, or a [ValueError]. *)
Class Builtins : Type :=
  int_of_str : string → Exn + Z.

(** ** WorkerStateRegistry: the methods that do not wait
    (driver.py, lines 55-74) *)

Module Registry.

Definition get (state : string) : M (gset (string * Z)) :=
  gets (λ p, default ∅ (_workers (registry p) !! state)).

Definition count (state : string) : M Z :=
  ws ← get state; mret (Z.of_nat (size ws)).

(** [reset(size)]: the whole body runs under the registry's lock. *)
Definition reset (size : Z) : M unit :=
  log (info_reset_workers size);;
  modify (λ p,
    let b := length (barriers p) in
    with_registry (λ r, mkRegistry ∅ ∅ (Some b) (_rendezvous_id r + 1) size)
      (with_barriers (λ bs, bs ++ [new_Barrier size]) p)).

Definition size : M Z := gets (λ p, _size (registry p)).

Definition last_rendezvous : M Z := gets (λ p, _rendezvous_id (registry p)).

End Registry.

(** ** Results (driver.py, lines 128-134) *)

Module Res.

Definition expect (worker_thread : SlotInfo) : M unit :=
  modify (with_driver (λ d,
    set_results (mkResults (_results_map (_results d))
                   (_worker_threads (_results d) ++ [worker_thread])) d)).

Definition add_result (key : string) (value : Z * Z) : M unit :=
  modify (with_driver (λ d,
    match _results_map (_results d) !! key with
    | Some _ => d
    | None => set_results (mkResults (<[key := value]> (_results_map (_results d)))
                             (_worker_threads (_results d))) d
    end)).

End Res.

(** ** ElasticDriver (driver.py, lines 144-344) *)

Module Driver.

Section WithCollaborators.

Context `{Assigner} `{Builtins}.

(** [__init__]: [start_timeout or int(os.getenv(name, START_TIMEOUT_SECS))].
    [None] and 0 are the falsy values of the argument; [getenv] is the
    variable HOROVOD_ELASTIC_START_TIMEOUT of the environment, [None] when
    it is not set. *)
Definition effective_start_timeout (start_timeout : option Z)
    (getenv : option string) : Exn + Z :=
  match start_timeout with
  | Some t => if t =? 0 then
                match getenv with
                | Some text => int_of_str text
                | None => inr START_TIMEOUT_SECS
                end
              else inr t
  | None => match getenv with
            | Some text => int_of_str text
            | None => inr START_TIMEOUT_SECS
            end
  end.

Definition init (min_np : Z) (max_np : option Z) (start_timeout : option Z)
    (getenv : option string) : Exn + ElasticDriver :=
  match effective_start_timeout start_timeout getenv with
  | inl e => inl e
  | inr t => inr (mkDriver [] new_DiscoveredHosts min_np max_np [] ∅ 0 t None
                    new_WorkerStateRegistry new_Results false)
  end.

Definition _has_available_slots (slots min_np : Z) (max_np : option Z) : bool :=
  (min_np <=? slots) &&
  match max_np with
  | None => true
  | Some max_np => slots <=? max_np
  end.

(** One round of [_discover_hosts], seen from a thread that waits on
    [_wait_hosts_cond]: the discovery thread stored what it found. *)
Definition discovered (w : Wakeup) : M unit :=
  match found w with
  | Some hosts =>
      modify (with_driver (λ d,
        set_discovered_hosts (update_available_hosts hosts (_discovered_hosts d)).2 d))
  | None => mret tt
  end.

Definition check_time_out_for (activity : string) (now : Z) (tmout : Timeout) : M unit :=
  if timed_out now tmout then raise (StartTimeout activity) else mret tt.

(** The [while] loop of [wait_for_available_hosts]; each turn takes one
    wake-up of [_wait_hosts_cond.wait], and with none left the thread
    stays blocked. *)
Fixpoint wait_loop (tmout : Timeout) (min_np : Z) (max_np : option Z)
    (ws : list Wakeup) : M unit :=
  slots ← gets (λ p, count_available_slots (_discovered_hosts (driver p)));
  if _has_available_slots slots min_np max_np then mret tt
  else match ws with
       | [] => blocked
       | w :: ws' =>
           discovered w;;
           check_time_out_for "minimum number of hosts to become available"
             (now w) tmout;;
           wait_loop tmout min_np max_np ws'
       end.

Definition wait_for_available_hosts (env : Env) (min_np : Z) (max_np : option Z)
  : M unit :=
  start_timeout ← gets (λ p, _start_timeout (driver p));
  wait_loop (new_Timeout (clock env) start_timeout) min_np max_np (wakeups env).

(** [stop]: the join returns once the discovery loop has seen the event. *)
Definition stop : M unit := modify (with_driver (set_shutdown true)).

Definition finished : M bool := gets (λ p, _shutdown (driver p)).

Definition world_size : M Z := gets (λ p, _world_size (driver p)).

Definition has_rank_assignment (host : string) (slot : Z) : M bool :=
  gets (λ p,
    if is_blacklisted (_discovered_hosts (driver p)) host then false
    else match _host_assignments (driver p) !! host with
         | Some slots => slot <? Z.of_nat (length slots)
         | None => false
         end).

(** The grouping loop of [_update_host_assignments]. *)
Definition group_by_hostname (l : list SlotInfo) : gmap string (list SlotInfo) :=
  foldl (λ m slot_info,
           <[hostname slot_info := default [] (m !! hostname slot_info) ++ [slot_info]]> m)
        ∅ l.

Definition _update_host_assignments : M unit :=
  d ← gets driver;
  let host_list :=
    (λ host, mkHostInfo host (get_slots (_discovered_hosts d) host)) <$> _assigned_hosts d in
  match get_host_assignments host_list (_min_np d) (_max_np d) with
  | inl e => raise e
  | inr host_assignments_list =>
      modify (with_driver (set_assignments host_assignments_list
                (group_by_hostname host_assignments_list)
                (Z.of_nat (length host_assignments_list))))
  end.

Definition _update_assigned_hosts : M (list string) :=
  d ← gets driver;
  let current_hosts := filter_available_hosts (_discovered_hosts d) (_assigned_hosts d) in
  let new_assigned_hosts :=
    filter (λ host, host ∉ current_hosts) (get_available_hosts (_discovered_hosts d)) in
  modify (with_driver (set_assigned_hosts (current_hosts ++ new_assigned_hosts)));;
  _update_host_assignments;;
  mret new_assigned_hosts.

(** [_start_worker_process]: the new thread is handed to [Results]. *)
Definition _start_worker_process (slot_info : SlotInfo) : M unit :=
  Res.expect slot_info.

Definition _start_worker_processes (host : string) : M unit :=
  slots ← gets (λ p, default [] (_host_assignments (driver p) !! host));
  foldr (λ slot_info rest, _start_worker_process slot_info;; rest) (mret tt) slots.

Definition _activate_hosts (env : Env) (min_np : Z) : M unit :=
  log (info_wait_for_hosts min_np);;
  wait_for_available_hosts env min_np None;;
  new_assigned_hosts ← _update_assigned_hosts;
  n ← world_size;
  Registry.reset n;;
  foldr (λ host rest,
           log (info_start_workers host);; _start_worker_processes host;; rest)
        (mret tt) new_assigned_hosts.

Definition start (env : Env) (np : Z) (create_worker_fn : nat) : M unit :=
  modify (with_driver (set_create_worker_fn create_worker_fn));;
  _activate_hosts env np.

(** The [for host, slot in failures] loop of [on_workers_recorded]. *)
Definition blacklist_failures (failures : gset (string * Z)) : M unit :=
  modify (with_driver (λ d,
    set_discovered_hosts
      (foldr (λ key dh, blacklist key.1 dh) (_discovered_hosts d) (elements failures)) d)).

Definition on_workers_recorded (env : Env) : M unit :=
  n ← Registry.size;
  log (info_all_recorded n);;
  successes ← Registry.count SUCCESS;
  if 0 <? successes then
    log (info_success_stop successes);; stop
  else
    failed ← Registry.count FAILURE;
    world ← world_size;
    if failed =? world then
      log (error_failure_stop world);; stop
    else
      failures ← Registry.get FAILURE;
      blacklist_failures failures;;
      blacklisted_slots ← gets (λ p, count_blacklisted_slots (_discovered_hosts (driver p)));
      if blacklisted_slots =? world then
        log (error_blacklisted_stop world);; stop
      else
        min_np ← gets (λ p, _min_np (driver p));
        try_except (_activate_hosts env min_np)
                   (λ _, log exception_activate_failed;; stop).

End WithCollaborators.

End Driver.

(** ** WorkerStateRegistry: recording a state (driver.py, lines 76-120)

    [_record_state] and [_wait] are run by many threads at once.  A thread
    is the call's arguments and a program counter; between two program
    counters lies one atomic block: the test of [finished], a [with
    self._lock] body, or one entry into or exit from [Barrier.wait], which
    runs under the barrier's own lock. *)

Module Recording.

Inductive Pc : Type :=
| at_finished_check
    (* line 86: about to test self._driver.finished() *)
| at_lock
    (* line 91: about to take the lock and record *)
| at_barrier_wait (rendezvous_id : Z)
    (* line 106: about to call self._barrier.wait() *)
| in_barrier (rendezvous_id : Z) (b : nat)
    (* inside wait() of the barrier object b, counted in its _count *)
| at_except
    (* line 109: caught BrokenBarrierError *)
| at_relock
    (* line 113: about to take the lock and look at the saved state *)
| returned (rendezvous_id : Z)
| raised (e : Exn).

Record Thread : Type := mkThread {
  t_host : string;
  t_slot : Z;
  t_state : string;
  t_pc : Pc;
}.

Definition key (t : Thread) : string * Z := (t_host t, t_slot t).

Definition set_pc (pc : Pc) (t : Thread) : Thread :=
  mkThread (t_host t) (t_slot t) (t_state t) pc.

(** The barrier object [self._barrier] refers to. *)
Definition the_barrier : M (nat * Barrier) :=
  r ← gets registry;
  match _barrier r with
  | None => raise NoBarrier
  | Some b =>
      bs ← gets barriers;
      match bs !! b with
      | None => raise NoBarrier
      | Some bar => mret (b, bar)
      end
  end.

Definition store_barrier (b : nat) (bar : Barrier) : M unit :=
  modify (with_barriers (λ bs, <[b := bar]> bs)).

(** [self._barrier.reset()] *)
Definition reset_barrier : M unit :=
  the_barrier ≫= λ '(b, bar), store_barrier b (Barrier_reset bar).

Section WithCollaborators.

Context `{Assigner}.

(** [_action] *)
Definition _action (env : Env) : M unit := Driver.on_workers_recorded env.

(** Lines 86-88. *)
Definition _record_state_finished (host : string) (slot : Z) (state : string) : M Pc :=
  stopped ← Driver.finished;
  if stopped : bool then
    log (info_driver_finished host slot state);;
    rendezvous_id ← gets (λ p, _rendezvous_id (registry p));
    mret (returned rendezvous_id)
  else mret at_lock.

(** Lines 90-98, the body of [with self._lock]. *)
Definition _record_state_locked (host : string) (slot : Z) (state : string) : M Pc :=
  r ← gets registry;
  (if bool_decide (is_Some (_states r !! (host, slot))) then
     log (info_key_exists host slot state);; reset_barrier
   else mret tt);;
  log (info_record_state host slot state);;
  modify (with_registry (λ r,
    mkRegistry (<[(host, slot) := state]> (_states r))
               (<[state := {[ (host, slot) ]} ∪ default ∅ (_workers r !! state)]> (_workers r))
               (_barrier r) (_rendezvous_id r) (_size r)));;
  rendezvous_id ← gets (λ p, _rendezvous_id (registry p));
  mret (at_barrier_wait rendezvous_id).

(** Line 106, entering [Barrier.wait]: [_enter] blocks while the barrier
    drains or resets and raises when it is broken; the thread that makes
    the count reach [parties] runs the action and releases the others,
    any other thread stays inside.  An exception of the action breaks the
    barrier and goes on. *)
Definition _wait_enter (env : Env) (rendezvous_id : Z) : M Pc :=
  the_barrier ≫= λ '(b, bar),
  match _state bar with
  | Draining | Resetting => blocked
  | Broken => raise BrokenBarrierError
  | Filling =>
      let index := _count bar in
      store_barrier b (set_count (index + 1) bar);;
      if index + 1 =? _parties bar then
        try_except (_action env)
          (λ e, store_barrier b (Barrier_leave (set_state Broken (set_count (index + 1) bar)));;
                raise e);;
        store_barrier b (Barrier_leave (set_state Draining (set_count (index + 1) bar)));;
        mret (returned rendezvous_id)
      else mret (in_barrier rendezvous_id b)
  end.

(** Leaving [Barrier.wait]: a thread inside stays until the barrier stops
    filling; released, it returns; woken by a reset or a break, it gets
    [BrokenBarrierError]. *)
Definition _wait_leave (rendezvous_id : Z) (b : nat) : M Pc :=
  bs ← gets barriers;
  match bs !! b with
  | None => blocked
  | Some bar =>
      match _state bar with
      | Filling => blocked
      | Draining =>
          store_barrier b (Barrier_leave bar);; mret (returned rendezvous_id)
      | Resetting | Broken =>
          store_barrier b (Barrier_leave bar);; raise BrokenBarrierError
      end
  end.

(** Lines 105-108: the [try] around the wait catches
    [BrokenBarrierError] and nothing else. *)
Definition except_BrokenBarrierError (m : M Pc) : M Pc :=
  try_except m (λ e, match e with
                     | BrokenBarrierError => mret at_except
                     | _ => raise e
                     end).

(** Lines 109-111. *)
Definition _wait_except : M Pc :=
  the_barrier ≫= λ '(b, bar),
  if Barrier_broken bar then raise BrokenBarrierError else mret at_relock.

(** Lines 113-117, the body of [with self._lock]. *)
Definition _wait_locked (host : string) (slot : Z) (state : string) : M Pc :=
  r ← gets registry;
  let rendezvous_id := _rendezvous_id r in
  let saved_state := default state (_states r !! (host, slot)) in
  if bool_decide (saved_state ≠ state) then raise (StateOverridden state saved_state)
  else mret (at_barrier_wait rendezvous_id).

(** The block a thread runs next. *)
Definition block (env : Env) (t : Thread) : M Pc :=
  match t_pc t with
  | at_finished_check => _record_state_finished (t_host t) (t_slot t) (t_state t)
  | at_lock => _record_state_locked (t_host t) (t_slot t) (t_state t)
  | at_barrier_wait rendezvous_id =>
      except_BrokenBarrierError (_wait_enter env rendezvous_id)
  | in_barrier rendezvous_id b =>
      except_BrokenBarrierError (_wait_leave rendezvous_id b)
  | at_except => _wait_except
  | at_relock => _wait_locked (t_host t) (t_slot t) (t_state t)
  | returned _ | raised _ => blocked
  end.

Record System : Type := mkSystem {
  process : Process;
  threads : list Thread;
}.

(** One step of thread [i]; there is none while the thread is blocked,
    and none after it has returned or raised. *)
Definition step (env : Env) (i : nat) (s : System) : option System :=
  match threads s !! i with
  | None => None
  | Some t =>
      match block env t (process s) with
      | (Return pc, p') => Some (mkSystem p' (<[i := set_pc pc t]> (threads s)))
      | (Raise e, p') => Some (mkSystem p' (<[i := set_pc (raised e) t]> (threads s)))
      | (Blocked, _) => None
      end
  end.

(** The executions of a schedule: which thread moves, and the surroundings
    it meets should it run the action. *)
Inductive exec : System → list (nat * Env) → System → Prop :=
| exec_nil s : exec s [] s
| exec_cons s i env s1 sched s2 :
    step env i s = Some s1 → exec s1 sched s2 → exec s ((i, env) :: sched) s2.

(** The number of runs of the completion action so far: each run of
    [on_workers_recorded] starts with its 'all {} workers recorded'. *)
Definition is_all_recorded (r : LogRecord) : bool :=
  match r with info_all_recorded _ => true | _ => false end.

Definition actions_run (p : Process) : nat :=
  length (filter (λ r, is_all_recorded r = true) (logging p)).

(** The threads that ran the action along a schedule, in order. *)
Fixpoint runners (sched : list (nat * Env)) (s : System) : list nat :=
  match sched with
  | [] => []
  | (i, env) :: sched' =>
      match step env i s with
      | None => []
      | Some s' =>
          (if bool_decide (actions_run (process s) = actions_run (process s'))
           then [] else [i]) ++ runners sched' s'
      end
  end.

(** [record_ready], [record_success], [record_failure]: a call starts at
    the test of [finished]. *)
Definition record_ready (host : string) (slot : Z) : Thread :=
  mkThread host slot READY at_finished_check.

Definition record_success (host : string) (slot : Z) : Thread :=
  mkThread host slot SUCCESS at_finished_check.

Definition record_failure (host : string) (slot : Z) : Thread :=
  mkThread host slot FAILURE at_finished_check.

End WithCollaborators.

End Recording.

(** ** ElasticDriver._handle_worker_exit (driver.py, lines 328-344)

    The two registry calls wait on the barrier while other threads run;
    what they return, and what has become of the process when they do, is
    for the surroundings to say.  They are the method's first arguments. *)

Module Supervisor.

(** ['{}[{}]'.format(hostname, local_rank)] *)
Definition result_name (host : string) (slot : Z) : string :=
  host +:+ "[" +:+ pretty slot +:+ "]".

Definition _handle_worker_exit (record_success record_failure : string → Z → M Z)
    (slot_info : SlotInfo) (exit_code timestamp : Z) : M unit :=
  assigned ← Driver.has_rank_assignment (hostname slot_info) (local_rank slot_info);
  if assigned : bool then
    rendezvous_id ←
      (if exit_code =? 0
       then record_success (hostname slot_info) (local_rank slot_info)
       else record_failure (hostname slot_info) (local_rank slot_info));
    stopped ← Driver.finished;
    last ← Registry.last_rendezvous;
    if stopped && (last =? rendezvous_id) then
      log (debug_adding_results (hostname slot_info) (local_rank slot_info)
             exit_code timestamp);;
      Res.add_result (result_name (hostname slot_info) (local_rank slot_info))
        (exit_code, timestamp)
    else mret tt
  else
    log (debug_ignoring_exit (hostname slot_info) (local_rank slot_info)).

End Supervisor.

(** ** An assigner for the examples *)

(** Modelled from the spec: [get_host_assignments] of
    horovod/run/common/util/hosts.py is not among the sources.  Section 4.2:
    a deterministic function of the ordered hosts, [min_np] and [max_np]
    that ranks the slots densely in host order, fails when the slot total
    is below [min_np], and fails when it exceeds [max_np], if that is set. *)
Definition slots_of_host (size cross_rank first_rank : Z) (h : HostInfo) : list SlotInfo :=
  (λ i : nat, mkSlotInfo (hi_hostname h) (Z.of_nat i) (hi_slots h) cross_rank 0
                (first_rank + Z.of_nat i) size)
  <$> seq 0 (Z.to_nat (hi_slots h)).

Fixpoint rank_hosts (size cross_rank first_rank : Z) (hosts : list HostInfo)
  : list SlotInfo :=
  match hosts with
  | [] => []
  | h :: hosts' =>
      slots_of_host size cross_rank first_rank h ++
      rank_hosts size (cross_rank + 1) (first_rank + Z.max 0 (hi_slots h)) hosts'
  end.

Definition count_hosts_with (local_rank : Z) (hosts : list HostInfo) : Z :=
  Z.of_nat (length (filter (λ h, local_rank < hi_slots h) hosts)).

Definition dense_assignments : Assigner := λ hosts min_np max_np,
  let total := foldr (λ h acc, Z.max 0 (hi_slots h) + acc) 0 hosts in
  if total <? min_np then inl AssignmentError
  else if match max_np with Some m => m <? total | None => false end
       then inl AssignmentError
       else inr ((λ s, mkSlotInfo (hostname s) (local_rank s) (local_size s)
                         (count_hosts_with (local_rank s)
                            (take (Z.to_nat (cross_rank s)) hosts))
                         (count_hosts_with (local_rank s) hosts) (rank s) (size_ s))
                 <$> rank_hosts total 0 0 hosts).

(** ** Sequences of registry operations

    The registry is used through its reading methods, through [reset], and
    through the threads inside [record_ready], [record_success] and
    [record_failure], the last of which to arrive runs [_action]. *)

Module Ops.

Import Recording.

Inductive Op : Type :=
| call_get (state : string)
| call_count (state : string)
| call_size
| call_last_rendezvous
| call_reset (size : Z)
| thread_step (env : Env) (i : nat).

Section WithCollaborators.

Context `{Assigner}.

Definition run_op (op : Op) (s : System) : System :=
  match op with
  | call_get state => mkSystem (Registry.get state (process s)).2 (threads s)
  | call_count state => mkSystem (Registry.count state (process s)).2 (threads s)
  | call_size => mkSystem (Registry.size (process s)).2 (threads s)
  | call_last_rendezvous => mkSystem (Registry.last_rendezvous (process s)).2 (threads s)
  | call_reset size => mkSystem (Registry.reset size (process s)).2 (threads s)
  | thread_step env i => default s (step env i s)
  end.

Definition run_ops (ops : list Op) (s : System) : System :=
  foldl (λ s op, run_op op s) s ops.

End WithCollaborators.

(** The number of calls of [reset] so far: each logs its 'reset workers'. *)
Definition is_reset_workers (r : LogRecord) : bool :=
  match r with info_reset_workers _ => true | _ => false end.

Definition resets (p : Process) : Z :=
  Z.of_nat (length (filter (λ r, is_reset_workers r = true) (logging p))).

End Ops.

(** ** What a method leaves in place *)

Section Frames.

Context {A : Type}.

(** [m] takes every process to one related to it by [R]. *)
Definition keeps (R : Process → Process → Prop) (m : M A) : Prop :=
  ∀ p, R p (m p).2.

(** [m] never raises. *)
Definition never_raises (m : M A) : Prop :=
  ∀ p e, (m p).1 ≠ Raise e.

End Frames.

(** The relations the methods are shown to keep: the rendezvous id moves
    only with the calls of [reset]; the log and the heap of barriers only
    grow at the end. *)
Definition same_generation (p p' : Process) : Prop :=
  _rendezvous_id (registry p') - Ops.resets p' = _rendezvous_id (registry p) - Ops.resets p.

Definition logs_on (p p' : Process) : Prop :=
  logging p `prefix_of` logging p'.

Definition allocates (p p' : Process) : Prop :=
  barriers p `prefix_of` barriers p'.

(** ** What the log tells *)

(** The number of calls of [_activate_hosts] so far: each starts with its
    'wait for available hosts'. *)
Definition is_wait_for_hosts (r : LogRecord) : bool :=
  match r with info_wait_for_hosts _ => true | _ => false end.

Definition activations (p : Process) : nat :=
  length (filter (λ r, is_wait_for_hosts r = true) (logging p)).

(** The driver went from [p] to [p'] by setting the shutdown event, with
    no call of [_activate_hosts] on the way. *)
Definition shut_down_directly (p p' : Process) : Prop :=
  _shutdown (driver p') = true ∧ activations p' = activations p.


(** The deadline of an activation that starts in [env]. *)
Definition deadline (env : Env) (p : Process) : Z :=
  clock env + _start_timeout (driver p).

(** The discovered hosts of [p] once [on_workers_recorded] has blacklisted
    the hosts of the workers that recorded FAILURE. *)
Definition hosts_with_failures_blacklisted (p : Process) : DiscoveredHosts :=
  _discovered_hosts
    (driver (Driver.blacklist_failures
               (default ∅ (_workers (registry p) !! FAILURE)) p).2).

(** The blacklist is the same in [p] and [p']. *)
Definition same_blacklist (p p' : Process) : Prop :=
  _blacklisted (_discovered_hosts (driver p')) = _blacklisted (_discovered_hosts (driver p)).

(** ** Example runs *)

Module Examples.

(** The process as [__init__] leaves it, with the default start timeout. *)
Definition fresh (min_np : Z) (max_np : option Z) : Process :=
  mkProcess
    (mkDriver [] new_DiscoveredHosts min_np max_np [] ∅ 0 START_TIMEOUT_SECS None
       new_WorkerStateRegistry new_Results false)
    [] [].

(** Nothing happens around the driver: the clock reads 0 and no wake-up
    comes. *)
Definition quiet : Env := mkEnv 0 [].

(** The discovery thread publishes [hosts]. *)
Definition discover (hosts : list (string * Z)) (p : Process) : Process :=
  (Driver.discovered (mkWakeup 0 (Some hosts)) p).2.

(** A worker gets as far as recording its state under the lock. *)
Definition record (host : string) (slot : Z) (state : string) (p : Process) : Process :=
  (@Recording._record_state_locked host slot state p).2.

Definition start (np : Z) (p : Process) : Process :=
  (@Driver.start dense_assignments quiet np 0%nat p).2.

Definition on_workers_recorded (p : Process) : Outcome unit * Process :=
  @Driver.on_workers_recorded dense_assignments quiet p.

(** h1 is discovered and started with its two slots. *)
Definition started : Process := start 2 (discover [("h1"%string, 2)] (fresh 2 None)).

(** One worker of h1 reports success and the other fails. *)
Definition mixed : Process := record "h1" 1 FAILURE (record "h1" 0 SUCCESS started).


(** h1 and h2 are started with four slots; h1[0] fails and the driver
    activates h2 alone; then h2[0] fails and h2[1] reports ready. *)
Definition last_host_fails : Process :=
  record "h2" 1 READY
    (record "h2" 0 FAILURE
       (on_workers_recorded
          (record "h2" 1 READY
             (record "h2" 0 READY
                (record "h1" 1 READY
                   (record "h1" 0 FAILURE
                      (start 4 (discover [("h1"%string, 2); ("h2"%string, 2)]
                                  (fresh 2 None)))))))).2).



(** The waiting thread wakes once, after 601 s. *)
Definition late : Env := mkEnv 0 [mkWakeup 601 None].

(** Two slots of h1 are started.  The worker h1[0] reports ready and
    waits in the barrier; then a second report for h1[0], a failure, comes
    in and passes the test of [finished]. *)
Definition one_waits : Recording.System :=
  @Ops.run_ops dense_assignments
    [Ops.thread_step quiet 0; Ops.thread_step quiet 0; Ops.thread_step quiet 0]
    (Recording.mkSystem started
       [Recording.record_ready "h1" 0; Recording.record_failure "h1" 0]).

Definition duplicate_report : Recording.System :=
  @Ops.run_ops dense_assignments [Ops.thread_step quiet 1] one_waits.

(** The same, but the launcher calls [stop] before the second report. *)
Definition stopped_while_waiting : Recording.System :=
  Recording.mkSystem (Driver.stop (Recording.process one_waits)).2
    (Recording.threads one_waits).

(** After the second report the waiting worker has left the barrier with
    [BrokenBarrierError]; one step later it is about to take the lock. *)
Definition signalled : Recording.System :=
  @Ops.run_ops dense_assignments [Ops.thread_step quiet 1; Ops.thread_step quiet 0]
    duplicate_report.

Definition relocking : Recording.System :=
  @Ops.run_ops dense_assignments [Ops.thread_step quiet 0] signalled.

(** The same worker, had the barrier been broken for good. *)
Definition broken_for_good : Recording.System :=
  Recording.mkSystem
    (with_barriers (λ _, [mkBarrier 2 Broken 0]) (Recording.process signalled))
    (Recording.threads signalled).

(** h1[0] reports ready twice.  The first reporter waits; the second
    report resets the barrier; the first reporter leaves the barrier, finds
    it not broken, and is about to take the lock. *)
Definition same_report_twice : Recording.System :=
  @Ops.run_ops dense_assignments
    [Ops.thread_step quiet 0; Ops.thread_step quiet 0; Ops.thread_step quiet 0;
     Ops.thread_step quiet 1; Ops.thread_step quiet 1;
     Ops.thread_step quiet 0; Ops.thread_step quiet 0]
    (Recording.mkSystem started
       [Recording.record_ready "h1" 0; Recording.record_ready "h1" 0]).

(** Both workers of h1 have reported success and the driver has shut
    down. *)
Definition all_succeeded : Process :=
  (on_workers_recorded
     (record "h1" 1 SUCCESS
        (record "h1" 0 SUCCESS started))).2.


(** A generation of two: on the started h1, the worker h1[0] reports
    ready and h1[1] reports success, step by step in turn; h1[1] is the
    last to reach the barrier. *)
Definition two_workers : list Recording.Thread :=
  [Recording.record_ready "h1" 0; Recording.record_success "h1" 1].

Definition in_turn : list (nat * Env) :=
  [(0%nat, quiet); (1%nat, quiet); (0%nat, quiet); (1%nat, quiet);
   (0%nat, quiet); (1%nat, quiet); (0%nat, quiet)].

End Examples.

(** The discovered hosts are the same in [p] and [p']. *)
Definition same_hosts (p p' : Process) : Prop :=
  _discovered_hosts (driver p') = _discovered_hosts (driver p).

(** The activity named by the timeout of [wait_for_available_hosts]. *)
Definition waiting_for_hosts : string :=
  "minimum number of hosts to become available".

(** [m] never blocks. *)
Definition never_blocks {A} (m : M A) : Prop :=
  ∀ p, (m p).1 ≠ Blocked.

(** The state map holds another state for the key of [t] than the one
    [t] recorded. *)
Definition overridden (p : Process) (t : Recording.Thread) : Prop :=
  ∃ saved_state,
    _states (registry p) !! Recording.key t = Some saved_state ∧
    saved_state ≠ Recording.t_state t.

(** Thread [i] of [s] moves to [pc]; the process stays as it is. *)
Definition moves_to (pc : Recording.Pc) (i : nat) (s : Recording.System)
  : option Recording.System :=
  (λ t, Recording.mkSystem (Recording.process s)
          (<[i := Recording.set_pc pc t]> (Recording.threads s)))
  <$> Recording.threads s !! i.

(** ** One cycle of the barrier

    A generation starts when [reset(n)] has run and [n] threads are about
    to call [record_ready], [record_success] or [record_failure]. *)

Module Cycle.

Import Recording.

(** The barrier object and the rendezvous id of the generation that
    starts in [p]. *)
Definition barrier_of (p : Process) : nat := default 0%nat (_barrier (registry p)).

Definition id_of (p : Process) : Z := _rendezvous_id (registry p).

(** [p] is as [reset(n)] leaves it, for the [n] threads [ts], in a driver
    that has not finished: nothing is recorded, and the registry's barrier
    is new. *)
Record fresh_generation (p : Process) (ts : list Thread) : Prop := mkFresh {
  fresh_running : _shutdown (driver p) = false;
  fresh_states : _states (registry p) = ∅;
  fresh_barrier : _barrier (registry p) = Some (barrier_of p);
  fresh_count : barriers p !! barrier_of p = Some (new_Barrier (Z.of_nat (length ts)));
}.

(** The generation that [reset(n)] starts from [p0]. *)
Definition generation (p0 : Process) (ts : list Thread) : Process :=
  (Registry.reset (Z.of_nat (length ts)) p0).2.

Definition is_in_barrier (pc : Pc) : bool :=
  match pc with in_barrier _ _ => true | _ => false end.

(** The number of threads inside [Barrier.wait]. *)
Definition waiting (ts : list Thread) : nat :=
  length (filter (λ t, is_in_barrier (t_pc t) = true) ts).

Definition all_returned (rendezvous_id : Z) (s : System) : Prop :=
  Forall (λ t, t_pc t = returned rendezvous_id) (threads s).

(** The blocks a thread has yet to run when all goes well. *)
Definition blocks_left (t : Thread) : nat :=
  match t_pc t with
  | at_finished_check => 4
  | at_lock => 3
  | at_barrier_wait _ => 2
  | in_barrier _ _ => 1
  | _ => 0
  end.

Definition work_left (ts : list Thread) : nat :=
  foldr (λ t acc, (blocks_left t + acc)%nat) 0%nat ts.

(** Where a thread can be while the barrier fills, and where once the
    action has run. *)
Definition filling_pc (p0 : Process) (pc : Pc) : Prop :=
  pc = at_finished_check ∨ pc = at_lock ∨
  pc = at_barrier_wait (id_of p0) ∨
  pc = in_barrier (id_of p0) (barrier_of p0).

Definition draining_pc (p0 : Process) (pc : Pc) : Prop :=
  pc = in_barrier (id_of p0) (barrier_of p0) ∨ pc = returned (id_of p0).

(** While the barrier of the generation fills: the action has not run;
    the threads that have not recorded yet have no entry in the state map;
    the barrier counts the threads inside it, which are not yet all. *)
Record filling (p0 : Process) (ts : list Thread) (s : System) : Prop := mkFilling {
  filling_running : _shutdown (driver (process s)) = false;
  filling_barrier : _barrier (registry (process s)) = Some (barrier_of p0);
  filling_id : _rendezvous_id (registry (process s)) = id_of p0;
  filling_count :
    barriers (process s) !! barrier_of p0 =
    Some (mkBarrier (Z.of_nat (length ts)) Filling (Z.of_nat (waiting (threads s))));
  filling_room : (waiting (threads s) < length ts)%nat;
  filling_pcs : ∀ t, t ∈ threads s → filling_pc p0 (t_pc t);
  filling_fresh :
    ∀ j t, threads s !! j = Some t →
           t_pc t = at_finished_check ∨ t_pc t = at_lock →
           _states (registry (process s)) !! key t = None;
  filling_keys : key <$> threads s = key <$> ts;
  filling_actions : actions_run (process s) = actions_run p0;
}.

(** Once the action has run: every thread is still inside the barrier of
    the generation or has returned the id of the generation; the barrier
    drains while threads are inside and fills again when the last has
    left. *)
Record draining (p0 : Process) (ts : list Thread) (s : System) : Prop := mkDraining {
  draining_count :
    barriers (process s) !! barrier_of p0 =
    Some (mkBarrier (Z.of_nat (length ts))
            (if decide (waiting (threads s) = 0%nat) then Filling else Draining)
            (Z.of_nat (waiting (threads s))));
  draining_pcs : ∀ t, t ∈ threads s → draining_pc p0 (t_pc t);
  draining_keys : key <$> threads s = key <$> ts;
  draining_actions : actions_run (process s) = S (actions_run p0);
}.

End Cycle.

(** The completion action has run as often in [p'] as in [p]. *)
Definition same_actions (p p' : Process) : Prop :=
  Recording.actions_run p' = Recording.actions_run p.

(** ** ElasticDriver: the slot of a worker (driver.py, lines 246-253) *)

(** [hosts.INVALID_SLOT_INFO] is a constant of hosts.py, which is not among
    the sources; the driver is embedded over any value of it. *)
Class InvalidSlot : Type :=
  INVALID_SLOT_INFO : SlotInfo.

(** What a subscript gives: the element, or Python's [LookupError] (the
    [IndexError] of a list, the [KeyError] of a dict). *)
Inductive Item (A : Type) : Type :=
| Found (a : A)
| LookupError.
Arguments Found {A} a.
Arguments LookupError {A}.

(** [l[i]] on a list: a negative index counts from the end. *)
Definition list_getitem {A} (l : list A) (i : Z) : Item A :=
  let j := if i <? 0 then i + Z.of_nat (length l) else i in
  if (j <? 0) || (Z.of_nat (length l) <=? j) then LookupError
  else match l !! Z.to_nat j with
       | Some a => Found a
       | None => LookupError
       end.

Module Slots.

(** [get_slot_info]: the subscripts are evaluated only when
    [has_rank_assignment] holds, and then the host is in the table. *)
Definition get_slot_info `{InvalidSlot} (host : string) (slot : Z) (p : Process)
  : Item SlotInfo :=
  match (Driver.has_rank_assignment host slot p).1 with
  | Return true =>
      match _host_assignments (driver p) !! host with
      | Some slots => list_getitem slots slot
      | None => LookupError
      end
  | _ => Found INVALID_SLOT_INFO
  end.

End Slots.

(** ** Results: a sequence of calls of [add_result] *)

Definition add_results (calls : list (string * (Z * Z))) : M unit :=
  foldr (λ call rest, Res.add_result call.1 call.2;; rest) (mret tt) calls.

(** The value of the first call for [key], if there is one. *)
Definition first_added (key : string) (calls : list (string * (Z * Z))) : option (Z * Z) :=
  (λ found, found.2.2) <$> list_find (λ call : string * (Z * Z), call.1 = key) calls.

(** ** The decisions of [on_workers_recorded] *)

(** The process when [on_workers_recorded] has blacklisted the hosts of the
    failed workers (driver.py, line 228). *)
Definition after_blacklisting (p : Process) : Process :=
  mkProcess (set_discovered_hosts (hosts_with_failures_blacklisted p) (driver p))
    (barriers p) (logging p ++ [info_all_recorded (_size (registry p))]).

(** ** The table of host assignments *)

(** The sum of [local_size(host)], that is of [len(_host_assignments[host])],
    over the hosts of the table. *)
Definition slots_in_table (table : gmap string (list SlotInfo)) : Z :=
  map_fold (λ _ slots acc, Z.of_nat (length slots) + acc) 0 table.

(** The list of [HostInfo] that [_update_host_assignments] hands to the
    assigner. *)
Definition host_list (d : ElasticDriver) : list HostInfo :=
  (λ host, mkHostInfo host (get_slots (_discovered_hosts d) host)) <$> _assigned_hosts d.

(** ** The job as a whole

    The threads of the job are the launcher, which calls [start] and
    [stop]; the discovery thread; the supervisors of the workers, each of
    which calls [_handle_worker_exit] when its worker has ended.  Inside
    [_handle_worker_exit] a supervisor tests the rank assignment, then
    makes its call of [record_success] or [record_failure], and when that
    has returned it runs lines 340-344.

    An event may come at any moment, also where the code would not let it
    come (a round of discovery after [stop], a release with a rendezvous
    id that no call returned): what holds of all these runs holds of the
    runs of the job. *)

Module Released.

(** Lines 340-344 of [_handle_worker_exit], for the rendezvous id that the
    registry returned. *)
Definition _handle_worker_exit (slot_info : SlotInfo)
    (exit_code timestamp rendezvous_id : Z) : M unit :=
  stopped ← Driver.finished;
  last ← Registry.last_rendezvous;
  if stopped && (last =? rendezvous_id) then
    log (debug_adding_results (hostname slot_info) (local_rank slot_info)
           exit_code timestamp);;
    Res.add_result (Supervisor.result_name (hostname slot_info) (local_rank slot_info))
      (exit_code, timestamp)
  else mret tt.

End Released.

Module Ignored.

(** Lines 329-333 of [_handle_worker_exit]: the test of the rank
    assignment; [true] sends the supervisor on to the registry. *)
Definition _handle_worker_exit (slot_info : SlotInfo) : M bool :=
  assigned ← Driver.has_rank_assignment (hostname slot_info) (local_rank slot_info);
  if assigned : bool then mret true
  else log (debug_ignoring_exit (hostname slot_info) (local_rank slot_info));; mret false.

End Ignored.

Module Job.

Import Recording.

Inductive Event : Type :=
| launcher_starts (env : Env) (np : Z) (create_worker_fn : nat)
    (* start(np, create_worker_fn) *)
| launcher_stops
    (* stop() *)
| hosts_discovered (w : Wakeup)
    (* a round of _discover_hosts *)
| worker_exits (slot_info : SlotInfo)
    (* lines 329-333 of _handle_worker_exit *)
| thread_steps (env : Env) (i : nat)
    (* a block of thread i, which is inside record_ready, record_success or
       record_failure *)
| worker_released (slot_info : SlotInfo) (exit_code timestamp rendezvous_id : Z).
    (* lines 340-344 of _handle_worker_exit *)

Section WithCollaborators.

Context `{Assigner}.

Definition run (ev : Event) (s : System) : System :=
  match ev with
  | launcher_starts env np create_worker_fn =>
      mkSystem (Driver.start env np create_worker_fn (process s)).2 (threads s)
  | launcher_stops => mkSystem (Driver.stop (process s)).2 (threads s)
  | hosts_discovered w => mkSystem (Driver.discovered w (process s)).2 (threads s)
  | worker_exits slot_info =>
      mkSystem (Ignored._handle_worker_exit slot_info (process s)).2 (threads s)
  | thread_steps env i => default s (step env i s)
  | worker_released slot_info exit_code timestamp rendezvous_id =>
      mkSystem (Released._handle_worker_exit slot_info exit_code timestamp rendezvous_id
                  (process s)).2 (threads s)
  end.

Definition runs (evs : list Event) (s : System) : System :=
  foldl (λ s ev, run ev s) s evs.

End WithCollaborators.

(** The job when [__init__] has made the driver [d] and the calls [calls]
    of [record_ready], [record_success] and [record_failure] are yet to be
    made. *)
Definition boot (d : ElasticDriver) (calls : list Thread) : System :=
  mkSystem (mkProcess d [] []) calls.

End Job.

(** [I] holds after when it held before. *)
Definition preserves (I : Process → Prop) (p p' : Process) : Prop := I p → I p'.

(** From [p] to [p'] the results have only grown, the shutdown event has
    not been cleared, and it is set if a result was added. *)
Definition publishes (p p' : Process) : Prop :=
  _results_map (_results (driver p)) ⊆ _results_map (_results (driver p')) ∧
  (_shutdown (driver p) = true → _shutdown (driver p') = true) ∧
  (_results_map (_results (driver p')) ≠ _results_map (_results (driver p)) →
   _shutdown (driver p') = true).

(** The state map and the index of workers by state agree on the keys:
    a key is filed under the state the map gives it, and every key filed
    under some state is in the map. *)
Definition indexed (p : Process) : Prop :=
  (∀ key state, _states (registry p) !! key = Some state →
                key ∈ default ∅ (_workers (registry p) !! state)) ∧
  (∀ key state, key ∈ default ∅ (_workers (registry p) !! state) →
                is_Some (_states (registry p) !! key)).

(** No barrier of the process is broken. *)
Definition unbroken (p : Process) : Prop :=
  Forall (λ bar, Barrier_broken bar = false) (barriers p).

(** The table of host assignments groups the slots last published to the
    rendezvous server by host, and the world size is their number. *)
Definition grouped (p : Process) : Prop :=
  (∀ host, default [] (_host_assignments (driver p) !! host) =
           filter (λ slot_info, hostname slot_info = host) (_rendezvous (driver p))) ∧
  _world_size (driver p) = Z.of_nat (length (_rendezvous (driver p))).




(** ** The hosts of an activation *)

(** The assigned hosts that [_update_assigned_hosts] keeps, and the
    available hosts that it adds (driver.py, lines 290-295). *)
Definition kept_hosts (d : ElasticDriver) : list string :=
  filter_available_hosts (_discovered_hosts d) (_assigned_hosts d).

Definition new_hosts (d : ElasticDriver) : list string :=
  filter (λ host, host ∉ kept_hosts d) (get_available_hosts (_discovered_hosts d)).

(** The slots of the hosts [hosts] in the table, host after host. *)
Definition slots_of (table : gmap string (list SlotInfo)) (hosts : list string)
  : list SlotInfo :=
  hosts ≫= λ host, default [] (table !! host).

(** From [p] to [p'] the registry, the barriers and the shutdown event are
    the same. *)
Definition same_registry (p p' : Process) : Prop :=
  registry p' = registry p ∧ barriers p' = barriers p ∧
  _shutdown (driver p') = _shutdown (driver p).

(** The process when the worker threads of [slots] have been handed to
    [Results.expect], one after the other. *)
Definition expect_all (slots : list SlotInfo) (p : Process) : Process :=
  with_driver (λ d,
    set_results (mkResults (_results_map (_results d))
                   (_worker_threads (_results d) ++ slots)) d) p.

(** From [p] to [p'] only the log and the discovered hosts have changed. *)
Definition discovers (p p' : Process) : Prop :=
  driver p' = set_discovered_hosts (_discovered_hosts (driver p')) (driver p) ∧
  barriers p' = barriers p.

(** ** ElasticDriver: notifying the workers of a change of hosts
    (driver.py, lines 200-202 and 278-286) *)

Module Notify.

Section WithClients.

(** Modelled from the spec: class [WorkerNotificationClient] of
    horovod/run/elastic/worker.py is not among the sources.  Section 6
    gives it as a factory [WorkerNotificationClient(addresses, secret_key,
    verbose)] with one method [notify_hosts_updated(timestamp)], which can
    fail.  A client is known by the arguments it was made from. *)
Context {Addresses SecretKey : Type}.

Record WorkerNotificationClient : Type := mkClient {
  addresses : Addresses;
  secret_key : SecretKey;
  verbose : Z;
}.

(** The fields of the driver that these methods use: [_worker_clients], a
    dict, which keeps its keys in the order of their first assignment, and
    [_verbose]. *)
Record Notifier : Type := mkNotifier {
  _worker_clients : list ((string * Z) * WorkerNotificationClient);
  _verbose : Z;
}.

(** [d[key] = value] on a dict. *)
Fixpoint dict_setitem {V : Type} (key : string * Z) (value : V)
    (d : list ((string * Z) * V)) : list ((string * Z) * V) :=
  match d with
  | [] => [(key, value)]
  | (key', value') :: d' =>
      if decide (key' = key) then (key, value) :: d'
      else (key', value') :: dict_setitem key value d'
  end.

(** [d.get(key)] *)
Definition dict_get {V : Type} (key : string * Z) (d : list ((string * Z) * V))
  : option V :=
  (λ found, found.2.2) <$> list_find (λ entry : (string * Z) * V, entry.1 = key) d.

(** [register_worker_server] *)
Definition register_worker_server (host : string) (slot : Z) (addrs : Addresses)
    (key : SecretKey) (n : Notifier) : Notifier :=
  mkNotifier (dict_setitem (host, slot) (mkClient addrs key (_verbose n)) (_worker_clients n))
    (_verbose n).

(** What [_notify_workers_host_changes] does to the world around it: it
    calls [notify_hosts_updated] of a client, and it prints a warning. *)
Inductive Effect : Type :=
| call_notify_hosts_updated (client : WorkerNotificationClient) (timestamp : Z)
| print_warning (host : string) (slot : Z).

(** [_notify_workers_host_changes]; [timestamp] is what [_epoch_time_s()]
    gave, and [delivered] tells for which clients the call returns rather
    than raises. *)
Definition _notify_workers_host_changes
    (delivered : WorkerNotificationClient → Z → bool) (timestamp : Z) (n : Notifier)
  : list Effect :=
  _worker_clients n ≫= λ '((host, slot), client),
    call_notify_hosts_updated client timestamp ::
    (if delivered client timestamp then []
     else if 2 <=? _verbose n then [print_warning host slot] else []).

(** The calls made and the warnings printed, in order. *)
Definition calls_of (effects : list Effect) : list (WorkerNotificationClient * Z) :=
  omap (λ effect, match effect with
                  | call_notify_hosts_updated client timestamp => Some (client, timestamp)
                  | print_warning _ _ => None
                  end) effects.

Definition warnings_of (effects : list Effect) : list (string * Z) :=
  omap (λ effect, match effect with
                  | call_notify_hosts_updated _ _ => None
                  | print_warning host slot => Some (host, slot)
                  end) effects.

(** A sequence of registrations, from the driver as [__init__] leaves it. *)
Definition registered (verbosity : Z)
    (servers : list ((string * Z) * (Addresses * SecretKey))) : Notifier :=
  foldl (λ n server, register_worker_server server.1.1 server.1.2 server.2.1 server.2.2 n)
        (mkNotifier [] verbosity) servers.

(** The arguments of the last registration of [key]. *)
Definition last_registered (key : string * Z)
    (servers : list ((string * Z) * (Addresses * SecretKey)))
  : option (Addresses * SecretKey) :=
  (λ found, found.2.2) <$>
  list_find (λ server : (string * Z) * (Addresses * SecretKey), server.1 = key)
    (reverse servers).

End WithClients.

Arguments WorkerNotificationClient : clear implicits.
Arguments Notifier : clear implicits.

End Notify.

(** The character [c] occurs in the string [s]. *)
Fixpoint occurs (c : Ascii.ascii) (s : string) : Prop :=
  match s with
  | EmptyString => False
  | String c' s' => c' = c ∨ occurs c s'
  end.

(** Where a thread is that does not come to the barrier [b] any more once
    the driver has finished: it has not begun, or it has returned or
    raised, or it waits inside [b]. *)
Definition idle (b : nat) (pc : Recording.Pc) : Prop :=
  match pc with
  | Recording.at_finished_check | Recording.returned _ | Recording.raised _ => True
  | Recording.in_barrier _ b' => b' = b
  | _ => False
  end.

(** From [p] to [p'] the rendezvous id has not gone down. *)
Definition not_before (p p' : Process) : Prop :=
  _rendezvous_id (registry p) ≤ _rendezvous_id (registry p').

(** ** More example runs *)

Module Scenarios.

(** An invalid slot for the examples. *)
Definition invalid : SlotInfo := mkSlotInfo "" (-1) (-1) (-1) (-1) (-1) (-1).

(** Both workers of h1 have failed. *)
Definition all_failed : Process :=
  Examples.record "h1" 1 FAILURE (Examples.record "h1" 0 FAILURE Examples.started).

(** Four slots are on offer. *)
Definition four_slots : Process :=
  Examples.discover [("h1"%string, 4)] (Examples.fresh 2 None).

(** The driver is new, and discovery has found h1 with two slots. *)
Definition discovered_h1 : Process :=
  Examples.discover [("h1"%string, 2)] (Examples.fresh 2 None).

(** The first activation, for two slots. *)
Definition activated : Process :=
  (@Driver._activate_hosts dense_assignments Examples.quiet 2 discovered_h1).2.

(** The driver is new; two workers of h1 are going to report. *)
Definition booted : Recording.System :=
  Job.boot (driver (Examples.fresh 2 None)) Examples.two_workers.

(** Discovery finds h1, the launcher starts two workers, h1[0] reports
    ready and waits, and h1[1] reports success and fills the barrier. *)
Definition two_report : list Job.Event :=
  [Job.hosts_discovered (mkWakeup 0 (Some [("h1"%string, 2)]));
   Job.launcher_starts Examples.quiet 2 0;
   Job.thread_steps Examples.quiet 0; Job.thread_steps Examples.quiet 0;
   Job.thread_steps Examples.quiet 0;
   Job.thread_steps Examples.quiet 1; Job.thread_steps Examples.quiet 1;
   Job.thread_steps Examples.quiet 1;
   Job.thread_steps Examples.quiet 0;
   Job.worker_released (mkSlotInfo "h1" 1 2 0 1 1 2) 0 17 1].

(** After the shutdown on success a report of failure is still to come;
    discovery finds h2 and the launcher calls [start] again. *)
Definition after_the_end : Recording.System :=
  Recording.mkSystem Examples.all_succeeded [Recording.record_failure "h1" 1].

Definition restart : list Job.Event :=
  [Job.hosts_discovered (mkWakeup 5 (Some [("h1"%string, 2); ("h2"%string, 2)]));
   Job.launcher_starts Examples.quiet 2 1].

(** The second report for h1[0] comes in, discovery finds h2, the
    launcher calls [start] again, and h1[0] is given the turn. *)
Definition goes_on : list Job.Event :=
  [Job.thread_steps Examples.quiet 1;
   Job.hosts_discovered (mkWakeup 5 (Some [("h1"%string, 2); ("h2"%string, 2)]));
   Job.launcher_starts Examples.quiet 2 1;
   Job.thread_steps Examples.quiet 0].

(** Both workers of h1 have recorded READY. *)
Definition all_ready : Process :=
  Examples.record "h1" 1 READY (Examples.record "h1" 0 READY Examples.started).

(** The workers of h1 have both reported ready, and the action of the
    barrier has started the next generation. *)
Definition both_ready : Recording.System :=
  @Job.runs dense_assignments
    [Job.thread_steps Examples.quiet 0; Job.thread_steps Examples.quiet 0;
     Job.thread_steps Examples.quiet 0;
     Job.thread_steps Examples.quiet 1; Job.thread_steps Examples.quiet 1;
     Job.thread_steps Examples.quiet 1;
     Job.thread_steps Examples.quiet 0]
    (Recording.mkSystem Examples.started
       [Recording.record_ready "h1" 0; Recording.record_ready "h1" 1]).

End Scenarios.

(** * Properties *)

(** ** Rules for the frames *)


Section FrameRules.

Context (R : Process → Process → Prop) `{!Reflexive R} `{!Transitive R}.

Lemma keeps_ret {A} (a : A) : keeps R (mret a).
Proof. intros p. simpl. reflexivity. Qed.

Lemma keeps_gets {A} (f : Process → A) : keeps R (gets f).
Proof. intros p. simpl. reflexivity. Qed.

Lemma keeps_raise {A} (e : Exn) : keeps R (raise e : M A).
Proof. intros p. simpl. reflexivity. Qed.

Lemma keeps_blocked {A} : keeps R (blocked : M A).
Proof. intros p. simpl. reflexivity. Qed.

Lemma keeps_modify (f : Process → Process) : (∀ p, R p (f p)) → keeps R (modify f).
Proof. intros Hf p. apply Hf. Qed.

Lemma keeps_bind {A B} (m : M A) (k : A → M B) :
  keeps R m → (∀ a, keeps R (k a)) → keeps R (m ≫= k).
Proof.
  intros Hm Hk p. unfold mbind, M_bind, bind.
  specialize (Hm p). destruct (m p) as [[a| e |] p']; simpl in *; try done.
  etransitivity; [exact Hm | apply Hk].
Qed.

Lemma keeps_try_except {A} (m : M A) (h : Exn → M A) :
  keeps R m → (∀ e, keeps R (h e)) → keeps R (try_except m h).
Proof.
  intros Hm Hh p. unfold try_except.
  specialize (Hm p). destruct (m p) as [[a| e |] p']; simpl in *; try done.
  etransitivity; [exact Hm | apply Hh].
Qed.

Lemma keeps_foldr {A B} (g : A → M B → M B) (m0 : M B) (l : list A) :
  keeps R m0 → (∀ a rest, keeps R rest → keeps R (g a rest)) →
  keeps R (foldr g m0 l).
Proof.
  intros H0 Hg. induction l as [|a l IH]; simpl; [exact H0 | by apply Hg].
Qed.

End FrameRules.

Lemma never_raises_ret {A} (a : A) : never_raises (mret a).
Proof. intros p e. done. Qed.

Lemma never_raises_gets {A} (f : Process → A) : never_raises (gets f).
Proof. intros p e. done. Qed.

Lemma never_raises_modify (f : Process → Process) : never_raises (modify f).
Proof. intros p e. done. Qed.

Lemma never_raises_bind {A B} (m : M A) (k : A → M B) :
  never_raises m → (∀ a, never_raises (k a)) → never_raises (m ≫= k).
Proof.
  intros Hm Hk p e. unfold mbind, M_bind, bind.
  specialize (Hm p). destruct (m p) as [[a| e' |] p']; simpl in *.
  - apply Hk.
  - by specialize (Hm e').
  - done.
Qed.

Lemma never_raises_try_except {A} (m : M A) (h : Exn → M A) :
  (∀ e, never_raises (h e)) → never_raises (try_except m h).
Proof.
  intros Hh p e. unfold try_except.
  destruct (m p) as [[a| e' |] p']; simpl; try done. apply Hh.
Qed.

Lemma never_raises_log (r : LogRecord) : never_raises (log r).
Proof. apply never_raises_modify. Qed.

#[local] Instance same_generation_refl : Reflexive same_generation.
Proof. intros p. reflexivity. Qed.

#[local] Instance same_generation_trans : Transitive same_generation.
Proof. intros p q r. unfold same_generation. lia. Qed.

#[local] Instance logs_on_refl : Reflexive logs_on.
Proof. intros p. unfold logs_on. reflexivity. Qed.

#[local] Instance logs_on_trans : Transitive logs_on.
Proof. intros p q r. unfold logs_on. apply transitivity. Qed.

#[local] Instance allocates_refl : Reflexive allocates.
Proof. intros p. unfold allocates. reflexivity. Qed.

#[local] Instance allocates_trans : Transitive allocates.
Proof. intros p q r. unfold allocates. apply transitivity. Qed.

Lemma resets_log r p :
  Ops.resets (log r p).2 = Ops.resets p + (if Ops.is_reset_workers r then 1 else 0).
Proof.
  unfold Ops.resets, log, modify. simpl.
  rewrite filter_app, length_app, Nat2Z.inj_add.
  f_equal. by destruct r.
Qed.

Lemma same_generation_log r :
  Ops.is_reset_workers r = false → keeps same_generation (log r).
Proof.
  intros Hr p. unfold same_generation. rewrite resets_log, Hr.
  unfold log, modify, registry. simpl. lia.
Qed.

Lemma same_generation_reset n : keeps same_generation (Registry.reset n).
Proof.
  intros p. unfold same_generation.
  pose proof (resets_log (info_reset_workers n) p) as Hl.
  unfold Registry.reset, log, modify, mbind, M_bind, bind, Ops.resets, registry in *.
  simpl in *. lia.
Qed.

Lemma logs_on_log r : keeps logs_on (log r).
Proof. intros p. unfold logs_on, log, modify. simpl. by apply prefix_app_r. Qed.

Lemma allocates_log r : keeps allocates (log r).
Proof. intros p. unfold allocates. reflexivity. Qed.

Lemma allocates_reset n : keeps allocates (Registry.reset n).
Proof.
  intros p. unfold allocates, Registry.reset, log, modify, mbind, M_bind, bind.
  simpl. by apply prefix_app_r.
Qed.

Create HintDb keeps discriminated.

#[local] Hint Resolve same_generation_reset logs_on_log allocates_log allocates_reset : keeps.
#[local] Hint Extern 1 (keeps same_generation (log _)) =>
  (apply same_generation_log; reflexivity) : keeps.

(** One rule of the frame calculus, or a known method. *)
Ltac keeps_step :=
  first
    [ solve [auto 2 with keeps nocore]
    | assumption
    | apply keeps_ret | apply keeps_gets | apply keeps_raise | apply keeps_blocked
    | apply keeps_bind; [apply _ | | intros ?]
    | apply keeps_try_except; [apply _ | | intros ?]
    | apply keeps_foldr; [| intros ? ? ?]
    | apply keeps_modify; intros ?;
      first [ reflexivity | unfold logs_on, allocates; simpl; reflexivity ]
    | progress cbv zeta
    | case_match ].

Ltac keeps_method := repeat keeps_step.

Section DriverFrames.

Context `{Assigner}.

Lemma same_generation_wait_loop tmout min_np max_np ws :
  keeps same_generation (Driver.wait_loop tmout min_np max_np ws).
Proof.
  induction ws as [|w ws IH]; simpl; keeps_method.
  - unfold Driver.discovered. keeps_method.
  - unfold Driver.check_time_out_for. keeps_method.
Qed.

Lemma logs_on_wait_loop tmout min_np max_np ws :
  keeps logs_on (Driver.wait_loop tmout min_np max_np ws).
Proof.
  induction ws as [|w ws IH]; simpl; keeps_method.
  - unfold Driver.discovered. keeps_method.
  - unfold Driver.check_time_out_for. keeps_method.
Qed.

Lemma allocates_wait_loop tmout min_np max_np ws :
  keeps allocates (Driver.wait_loop tmout min_np max_np ws).
Proof.
  induction ws as [|w ws IH]; simpl; keeps_method.
  - unfold Driver.discovered. keeps_method.
  - unfold Driver.check_time_out_for. keeps_method.
Qed.

#[local] Hint Resolve same_generation_wait_loop logs_on_wait_loop allocates_wait_loop : keeps.

Lemma same_generation_activate env min_np :
  keeps same_generation (Driver._activate_hosts env min_np).
Proof. unfold Driver._activate_hosts. keeps_method. Qed.

Lemma logs_on_activate env min_np :
  keeps logs_on (Driver._activate_hosts env min_np).
Proof. unfold Driver._activate_hosts. keeps_method. Qed.

Lemma allocates_activate env min_np :
  keeps allocates (Driver._activate_hosts env min_np).
Proof. unfold Driver._activate_hosts. keeps_method. Qed.

#[local] Hint Resolve same_generation_activate logs_on_activate allocates_activate : keeps.

Lemma same_generation_on_workers_recorded env :
  keeps same_generation (Driver.on_workers_recorded env).
Proof. unfold Driver.on_workers_recorded. keeps_method. Qed.

Lemma logs_on_on_workers_recorded env :
  keeps logs_on (Driver.on_workers_recorded env).
Proof. unfold Driver.on_workers_recorded. keeps_method. Qed.

Lemma allocates_on_workers_recorded env :
  keeps allocates (Driver.on_workers_recorded env).
Proof. unfold Driver.on_workers_recorded. keeps_method. Qed.

Lemma on_workers_recorded_never_raises env :
  never_raises (Driver.on_workers_recorded env).
Proof.
  unfold Driver.on_workers_recorded.
  repeat first
    [ apply never_raises_ret | apply never_raises_gets | apply never_raises_modify
    | apply never_raises_log
    | apply never_raises_try_except; intros ?
    | apply never_raises_bind; [| intros ?]
    | case_match ].
Qed.

End DriverFrames.

#[local] Hint Resolve same_generation_wait_loop logs_on_wait_loop allocates_wait_loop
  same_generation_activate logs_on_activate allocates_activate
  same_generation_on_workers_recorded logs_on_on_workers_recorded
  allocates_on_workers_recorded : keeps.

Section RegistryFrames.

Context `{Assigner}.

Lemma same_generation_block env t :
  keeps same_generation (Recording.block env t).
Proof.
  unfold Recording.block. destruct (Recording.t_pc t);
    unfold Recording._record_state_finished, Recording._record_state_locked,
      Recording.except_BrokenBarrierError,
      Recording._wait_enter, Recording._wait_leave, Recording._wait_except,
      Recording._wait_locked, Recording._action, Recording.reset_barrier,
      Recording.the_barrier, Recording.store_barrier;
    keeps_method.
Qed.

Lemma logs_on_block env t :
  keeps logs_on (Recording.block env t).
Proof.
  unfold Recording.block. destruct (Recording.t_pc t);
    unfold Recording._record_state_finished, Recording._record_state_locked,
      Recording.except_BrokenBarrierError,
      Recording._wait_enter, Recording._wait_leave, Recording._wait_except,
      Recording._wait_locked, Recording._action, Recording.reset_barrier,
      Recording.the_barrier, Recording.store_barrier;
    keeps_method.
Qed.

Lemma step_process (R : Process → Process → Prop) env i s s' :
  (∀ t, keeps R (Recording.block env t)) →
  Recording.step env i s = Some s' →
  R (Recording.process s) (Recording.process s').
Proof.
  intros HR. unfold Recording.step.
  destruct (Recording.threads s !! i) as [t|]; [|done].
  specialize (HR t (Recording.process s)).
  destruct (Recording.block env t (Recording.process s)) as [[pc|e|] p'];
    intros [= <-]; exact HR.
Qed.

Lemma run_op_process (R : Process → Process → Prop) `{!Reflexive R} op s :
  (∀ env t, keeps R (Recording.block env t)) →
  (∀ n, keeps R (Registry.reset n)) →
  R (Recording.process s) (Recording.process (Ops.run_op op s)).
Proof.
  intros Hblock Hreset. destruct op as [st|st| | |n|env i]; simpl; try reflexivity.
  - apply Hreset.
  - destruct (Recording.step env i s) as [s'|] eqn:Hs; simpl; [|reflexivity].
    eapply step_process; [apply Hblock | exact Hs].
Qed.

Lemma resets_logs_on p p' : logs_on p p' → Ops.resets p ≤ Ops.resets p'.
Proof.
  intros [l Hl]. unfold Ops.resets. rewrite Hl, filter_app, length_app. lia.
Qed.

Lemma logs_on_reset n : keeps logs_on (Registry.reset n).
Proof. unfold Registry.reset. keeps_method. Qed.

Lemma run_op_nondecreasing op s :
  _rendezvous_id (registry (Recording.process s)) ≤
  _rendezvous_id (registry (Recording.process (Ops.run_op op s))).
Proof.
  pose proof (run_op_process same_generation op s same_generation_block
                same_generation_reset) as Hgen.
  pose proof (run_op_process logs_on op s logs_on_block logs_on_reset) as Hlog.
  apply resets_logs_on in Hlog. unfold same_generation in Hgen. lia.
Qed.

End RegistryFrames.

(** ** C7: [reset] and the rendezvous id *)

(** C7.  After [reset(n)], [size()] is [n], the state map and the index of
    workers by state are empty, and the rendezvous id has grown.  Every
    operation on the registry (a reading method, [reset], a step of a
    thread inside [record_ready], [record_success] or [record_failure])
    moves the rendezvous id by exactly the number of calls of [reset] made
    during it, so no other operation changes it, and the id never
    decreases along a sequence of operations. *)
Theorem reset_alone_advances_rendezvous `{Assigner} :
  (∀ n p,
     (Registry.reset n p).1 = Return () ∧
     Registry.size (Registry.reset n p).2 = (Return n, (Registry.reset n p).2) ∧
     _states (registry (Registry.reset n p).2) = ∅ ∧
     _workers (registry (Registry.reset n p).2) = ∅ ∧
     _rendezvous_id (registry p) < _rendezvous_id (registry (Registry.reset n p).2)) ∧
  (∀ st p, (Registry.get st p).2 = p ∧ (Registry.count st p).2 = p ∧
           (Registry.size p).2 = p ∧ (Registry.last_rendezvous p).2 = p) ∧
  (∀ op s,
     _rendezvous_id (registry (Recording.process (Ops.run_op op s))) =
     _rendezvous_id (registry (Recording.process s)) +
     (Ops.resets (Recording.process (Ops.run_op op s)) - Ops.resets (Recording.process s))) ∧
  (∀ ops s,
     _rendezvous_id (registry (Recording.process s)) ≤
     _rendezvous_id (registry (Recording.process (Ops.run_ops ops s)))).
Proof.
  split; [|split; [|split]].
  - intros n p. unfold Registry.reset, Registry.size, registry. simpl.
    repeat split; lia.
  - done.
  - intros op s.
    pose proof (run_op_process same_generation op s same_generation_block
                  same_generation_reset) as Hgen.
    unfold same_generation in Hgen. lia.
  - intros ops. unfold Ops.run_ops.
    induction ops as [|op ops IH]; intros s; simpl; [lia|].
    etransitivity; [apply (run_op_nondecreasing op s) | apply IH].
Qed.

(** ** C10: the start timeout of the constructor *)

(** C10.  A start timeout of 0, like no start timeout at all, is ignored by
    the constructor: the timeout in effect is then [int] of the environment
    variable when that is set, and 600 otherwise.  The constructor's
    argument cannot make the timeout 0. *)
Theorem zero_start_timeout_is_ignored `{Builtins} :
  ∀ min_np max_np getenv,
    Driver.effective_start_timeout (Some 0) getenv =
      Driver.effective_start_timeout None getenv ∧
    Driver.effective_start_timeout None getenv =
      match getenv with
      | Some text => int_of_str text
      | None => inr 600
      end ∧
    Driver.init min_np max_np (Some 0) getenv = Driver.init min_np max_np None getenv ∧
    sum_map id _start_timeout (Driver.init min_np max_np (Some 0) getenv) =
      match getenv with
      | Some text => int_of_str text
      | None => inr 600
      end.
Proof.
  intros min_np max_np getenv. unfold Driver.init, Driver.effective_start_timeout.
  simpl. repeat split.
  destruct getenv as [text|]; [|done]. by destruct (int_of_str text).
Qed.

(** ** C3 and C1: the decisions of [on_workers_recorded] *)

#[local] Instance same_blacklist_refl : Reflexive same_blacklist.
Proof. intros p. reflexivity. Qed.

#[local] Instance same_blacklist_trans : Transitive same_blacklist.
Proof. intros p q r. unfold same_blacklist. congruence. Qed.

Lemma same_blacklist_log r : keeps same_blacklist (log r).
Proof. intros p. reflexivity. Qed.

Lemma same_blacklist_reset n : keeps same_blacklist (Registry.reset n).
Proof. intros p. reflexivity. Qed.

#[local] Hint Resolve same_blacklist_log same_blacklist_reset : keeps.

Lemma same_blacklist_wait_loop tmout min_np max_np ws :
  keeps same_blacklist (Driver.wait_loop tmout min_np max_np ws).
Proof.
  induction ws as [|w ws IH]; simpl; keeps_method.
  - unfold Driver.discovered. keeps_method.
  - unfold Driver.check_time_out_for. keeps_method.
Qed.

#[local] Hint Resolve same_blacklist_wait_loop : keeps.






(** Unfolding a method on a given process. *)
Ltac run_method :=
  unfold Driver.on_workers_recorded, Driver.blacklist_failures, Driver.stop,
    Driver.world_size, Driver.finished, Driver.has_rank_assignment,
    Registry.size, Registry.count, Registry.get, Registry.last_rendezvous,
    Res.add_result, log, modify, gets, mbind, M_bind, bind, mret, M_ret, ret,
    raise, blocked, with_registry, with_barriers, with_driver, registry in *;
  cbn [driver barriers logging fst snd] in *.

(** C3.  When some worker has recorded SUCCESS since the last reset,
    [on_workers_recorded] logs, sets the shutdown event and returns: the
    discovered hosts and their blacklist, the registry and the barriers
    are as before, and [_activate_hosts] is not called. *)
Theorem success_wins `{Assigner} env p key :
  key ∈ default ∅ (_workers (registry p) !! SUCCESS) →
  ∃ successes,
    0 < successes ∧
    Driver.on_workers_recorded env p =
      (Return (),
       mkProcess (set_shutdown true (driver p)) (barriers p)
         (logging p ++ [info_all_recorded (_size (registry p));
                        info_success_stop successes])) ∧
    shut_down_directly p (Driver.on_workers_recorded env p).2 ∧
    _discovered_hosts (driver (Driver.on_workers_recorded env p).2) =
      _discovered_hosts (driver p) ∧
    registry (Driver.on_workers_recorded env p).2 = registry p.
Proof.
  intros Hkey.
  exists (Z.of_nat (size (default ∅ (_workers (registry p) !! SUCCESS)))).
  assert (0 < Z.of_nat (size (default ∅ (_workers (registry p) !! SUCCESS)))) as Hpos.
  { destruct (decide (size (default ∅ (_workers (registry p) !! SUCCESS)) = 0%nat)) as [E|E].
    - apply size_empty_iff in E. set_solver.
    - lia. }
  assert (Driver.on_workers_recorded env p =
      (Return (),
       mkProcess (set_shutdown true (driver p)) (barriers p)
         (logging p ++ [info_all_recorded (_size (registry p));
                        info_success_stop
                          (Z.of_nat (size (default ∅ (_workers (registry p) !! SUCCESS))))])))
    as Heq.
  { run_method. unfold registry in *. simpl.
    destruct (0 <? _) eqn:E; [|lia].
    simpl. by rewrite <- app_assoc. }
  split; [done|]. split; [done|]. rewrite Heq. simpl.
  split; [|done].
  split; [done|]. unfold activations. simpl.
  rewrite filter_app. simpl. by rewrite app_nil_r.
Qed.

(** C3 applies to the run in which one worker of h1 has reported success
    and the other has failed. *)
Lemma success_wins_witness :
  ∃ successes,
    0 < successes ∧
    Examples.on_workers_recorded Examples.mixed =
      (Return (),
       mkProcess (set_shutdown true (driver Examples.mixed)) (barriers Examples.mixed)
         (logging Examples.mixed ++ [info_all_recorded (_size (registry Examples.mixed));
                                     info_success_stop successes])) ∧
    shut_down_directly Examples.mixed (Examples.on_workers_recorded Examples.mixed).2 ∧
    _discovered_hosts (driver (Examples.on_workers_recorded Examples.mixed).2) =
      _discovered_hosts (driver Examples.mixed) ∧
    registry (Examples.on_workers_recorded Examples.mixed).2 = registry Examples.mixed.
Proof.
  apply (@success_wins dense_assignments Examples.quiet Examples.mixed ("h1"%string, 0)).
  vm_compute. reflexivity.
Defined.




(** ** C2: the wait of the initial activation *)

Lemma bind_return_inv {A B} (m : M A) (k : A → M B) p b p' :
  (m ≫= k) p = (Return b, p') →
  ∃ a p1, m p = (Return a, p1) ∧ k a p1 = (Return b, p').
Proof.
  unfold mbind, M_bind, bind. destruct (m p) as [[a|e|] p1]; [eauto|done..].
Qed.

Lemma bind_outcome {A B} (m : M A) (k : A → M B) p :
  (m ≫= k) p =
  match m p with
  | (Return a, p1) => k a p1
  | (Raise e, p1) => (Raise e, p1)
  | (Blocked, p1) => (Blocked, p1)
  end.
Proof. reflexivity. Qed.

#[local] Instance same_hosts_refl : Reflexive same_hosts.
Proof. intros p. reflexivity. Qed.

#[local] Instance same_hosts_trans : Transitive same_hosts.
Proof. intros p q r. unfold same_hosts. congruence. Qed.

Lemma same_hosts_log r : keeps same_hosts (log r).
Proof. intros p. reflexivity. Qed.

Lemma same_hosts_reset n : keeps same_hosts (Registry.reset n).
Proof. intros p. reflexivity. Qed.

#[local] Hint Resolve same_hosts_log same_hosts_reset : keeps.

(** How the loop of the wait can end. *)
Lemma wait_loop_ends tmout min_np max_np ws p :
  match Driver.wait_loop tmout min_np max_np ws p with
  | (Return _, p') =>
      Driver._has_available_slots
        (count_available_slots (_discovered_hosts (driver p'))) min_np max_np = true
  | (Raise e, _) => e = StartTimeout waiting_for_hosts
  | (Blocked, p') =>
      Driver._has_available_slots
        (count_available_slots (_discovered_hosts (driver p'))) min_np max_np = false
  end.
Proof.
  revert p. induction ws as [|w ws IH]; intros p; simpl.
  - unfold mbind, M_bind, bind, gets, blocked. simpl.
    destruct (Driver._has_available_slots _ _ _) eqn:E; simpl; exact E.
  - unfold mbind, M_bind, bind, gets. cbn beta iota.
    destruct (Driver._has_available_slots _ _ _) eqn:E; [exact E|].
    destruct (Driver.discovered w p) as [[[]|e|] p1] eqn:Ed;
      [|unfold Driver.discovered in Ed; destruct (found w); done..].
    unfold Driver.check_time_out_for.
    destruct (timed_out (now w) tmout); simpl; [done|]. apply IH.
Qed.


Lemma never_blocks_bind {A B} (m : M A) (k : A → M B) :
  never_blocks m → (∀ a, never_blocks (k a)) → never_blocks (m ≫= k).
Proof.
  intros Hm Hk p. unfold mbind, M_bind, bind.
  specialize (Hm p). destruct (m p) as [[a|e|] p']; simpl in *; [apply Hk|done..].
Qed.

Lemma never_blocks_foldr {A B} (g : A → M B → M B) (m0 : M B) (l : list A) :
  never_blocks m0 → (∀ a rest, never_blocks rest → never_blocks (g a rest)) →
  never_blocks (foldr g m0 l).
Proof.
  intros H0 Hg. induction l as [|a l IH]; simpl; [exact H0 | by apply Hg].
Qed.

Ltac never_blocks_step :=
  first
    [ assumption
    | apply never_blocks_bind; [| intros ?]
    | apply never_blocks_foldr; [| intros ? ? ?]
    | progress cbv zeta
    | case_match
    | by intros ? ].

(** What [_activate_hosts] does once its wait is over. *)
Lemma activate_after_wait `{Assigner} env min_np :
  ∃ rest : M unit,
    Driver._activate_hosts env min_np =
      (log (info_wait_for_hosts min_np) ≫= λ _,
       Driver.wait_for_available_hosts env min_np None ≫= λ _, rest) ∧
    never_blocks rest ∧ keeps same_hosts rest.
Proof.
  eexists. split; [reflexivity|]. split.
  - unfold Driver._update_assigned_hosts, Driver._update_host_assignments,
      Driver.world_size, Registry.reset, Driver._start_worker_processes,
      Driver._start_worker_process, Res.expect.
    repeat never_blocks_step.
  - keeps_method.
Qed.




(** ** C4: a record after the driver has finished *)

(** C4.  When the shutdown event is set, a thread that enters
    [record_ready], [record_success] or [record_failure] takes one step,
    which ends the call: it returns the current rendezvous id.  The step
    writes one log record and nothing else; the state map, the index of
    workers and every barrier are as before. *)
Theorem record_after_finish_returns `{Assigner} env host slot t i s :
  _shutdown (driver (Recording.process s)) = true →
  t ∈ [Recording.record_ready host slot; Recording.record_success host slot;
       Recording.record_failure host slot] →
  Recording.threads s !! i = Some t →
  Recording.step env i s =
    Some (Recording.mkSystem
            (mkProcess (driver (Recording.process s)) (barriers (Recording.process s))
               (logging (Recording.process s) ++
                [info_driver_finished host slot (Recording.t_state t)]))
            (<[i := Recording.set_pc
                      (Recording.returned
                         (_rendezvous_id (registry (Recording.process s)))) t]>
               (Recording.threads s))).
Proof.
  intros Hfin Ht Hi. unfold Recording.step. rewrite Hi.
  assert (Recording.t_pc t = Recording.at_finished_check ∧
          Recording.t_host t = host ∧ Recording.t_slot t = slot) as (Hpc & Hh & Hs).
  { rewrite !elem_of_cons in Ht. destruct Ht as [->|[->|[->|Ht]]]; try done.
    by apply elem_of_nil in Ht. }
  unfold Recording.block. rewrite Hpc, Hh, Hs.
  unfold Recording._record_state_finished. run_method. rewrite Hfin. reflexivity.
Qed.

(** C4 applies to the second report for h1[0] that comes after [stop]. *)
Lemma record_after_finish_returns_witness :
  @Recording.step dense_assignments Examples.quiet 1 Examples.stopped_while_waiting =
    Some (Recording.mkSystem
            (mkProcess (driver (Recording.process Examples.stopped_while_waiting))
               (barriers (Recording.process Examples.stopped_while_waiting))
               (logging (Recording.process Examples.stopped_while_waiting) ++
                [info_driver_finished "h1" 0 FAILURE]))
            (<[1%nat := Recording.set_pc (Recording.returned 1)
                          (Recording.record_failure "h1" 0)]>
               (Recording.threads Examples.stopped_while_waiting))).
Proof.
  apply (@record_after_finish_returns dense_assignments Examples.quiet "h1" 0
           (Recording.record_failure "h1" 0) 1%nat Examples.stopped_while_waiting).
  - vm_compute. reflexivity.
  - rewrite !elem_of_cons. right. right. left. reflexivity.
  - vm_compute. reflexivity.
Defined.

(** ** C5: a second record for the same key *)

(** The test of line 86: with the shutdown event clear the thread goes on
    to the lock, and the process is as before. *)
Lemma finished_check_passes `{Assigner} env t p :
  Recording.t_pc t = Recording.at_finished_check →
  _shutdown (driver p) = false →
  Recording.block env t p = (Return Recording.at_lock, p).
Proof.
  intros Hpc Hfin. unfold Recording.block. rewrite Hpc.
  unfold Recording._record_state_finished. run_method. by rewrite Hfin.
Qed.




(** ** C6: a waiter that gets [BrokenBarrierError] *)

(** C6.  A thread of [record_ready], [record_success] or [record_failure]
    that has caught [BrokenBarrierError] raises it again when the
    registry's barrier is broken, which ends the call with that error;
    otherwise it goes on to the lock.  Under the lock it takes the current
    rendezvous id and goes back to wait on the barrier, unless the state
    map holds another state for its key than its own: then, and only
    then, the call ends with the error that the state was overridden. *)
Theorem broken_barrier_is_rechecked `{Assigner} env t i s :
  Recording.threads s !! i = Some t →
  (Recording.t_pc t = Recording.at_except →
   ∀ b bar,
     _barrier (registry (Recording.process s)) = Some b →
     barriers (Recording.process s) !! b = Some bar →
     Recording.step env i s =
       moves_to (if Barrier_broken bar then Recording.raised BrokenBarrierError
                 else Recording.at_relock) i s) ∧
  (Recording.t_pc t = Recording.at_relock →
   ((∃ saved_state,
       Recording.step env i s =
         moves_to (Recording.raised (StateOverridden (Recording.t_state t) saved_state)) i s)
    ↔ overridden (Recording.process s) t) ∧
   (¬ overridden (Recording.process s) t →
    Recording.step env i s =
      moves_to (Recording.at_barrier_wait
                  (_rendezvous_id (registry (Recording.process s)))) i s)).
Proof.
  intros Hi. unfold moves_to. rewrite Hi. simpl. split.
  - intros Hpc b bar Hb Hbar. unfold Recording.step. rewrite Hi.
    unfold Recording.block. rewrite Hpc.
    unfold Recording._wait_except, Recording.the_barrier. run_method.
    rewrite Hb. cbn beta iota. cbn [barriers]. rewrite Hbar. cbn beta iota.
    destruct s as [p ts]. by destruct (Barrier_broken bar).
  - intros Hpc.
    assert (Recording.step env i s =
            match _states (registry (Recording.process s)) !! Recording.key t with
            | Some saved_state =>
                if decide (saved_state = Recording.t_state t)
                then Some (Recording.mkSystem (Recording.process s)
                             (<[i := Recording.set_pc
                                       (Recording.at_barrier_wait
                                          (_rendezvous_id (registry (Recording.process s)))) t]>
                                (Recording.threads s)))
                else Some (Recording.mkSystem (Recording.process s)
                             (<[i := Recording.set_pc
                                       (Recording.raised
                                          (StateOverridden (Recording.t_state t) saved_state)) t]>
                                (Recording.threads s)))
            | None =>
                Some (Recording.mkSystem (Recording.process s)
                        (<[i := Recording.set_pc
                                  (Recording.at_barrier_wait
                                     (_rendezvous_id (registry (Recording.process s)))) t]>
                           (Recording.threads s)))
            end) as Hstep.
    { unfold Recording.step. rewrite Hi. unfold Recording.block. rewrite Hpc.
      unfold Recording._wait_locked, Recording.key. run_method.
      destruct (_states _ !! _) as [saved|]; simpl.
      - destruct (decide (saved = Recording.t_state t)) as [->|Hne].
        + by rewrite bool_decide_eq_false_2 by (intros ?; done).
        + by rewrite bool_decide_eq_true_2.
      - by rewrite bool_decide_eq_false_2 by (intros ?; done). }
    assert (∀ pc pc', Recording.set_pc pc t = Recording.set_pc pc' t → pc = pc') as Hinj.
    { intros pc pc' Heq. by injection Heq. }
    assert (i < length (Recording.threads s))%nat as Hlen by (by eapply lookup_lt_Some).
    split; [split|].
    + intros [saved Hraised]. rewrite Hstep in Hraised. unfold overridden.
      destruct (_states _ !! _) as [saved'|]; [destruct (decide _) as [->|Hne]|].
      * injection Hraised as Hraised.
        apply (f_equal (λ l, l !! i)) in Hraised.
        rewrite !list_lookup_insert_eq in Hraised by done.
        injection Hraised as Hraised. done.
      * by exists saved'.
      * injection Hraised as Hraised.
        apply (f_equal (λ l, l !! i)) in Hraised.
        rewrite !list_lookup_insert_eq in Hraised by done.
        injection Hraised as Hraised. done.
    + intros (saved & Hsaved & Hne). exists saved. rewrite Hstep, Hsaved.
      by destruct (decide _).
    + intros Hnot. rewrite Hstep. unfold overridden in Hnot.
      destruct (_states _ !! _) as [saved'|]; [destruct (decide _) as [->|Hne]|]; try done.
      destruct Hnot. by exists saved'.
Qed.

(** C6 at work: the worker whose key was reported again finds the barrier
    not broken and goes to the lock, where it finds its READY overridden by
    FAILURE; had the barrier been broken, it would have raised at once; and
    a worker whose key was reported again with the same state goes back to
    wait. *)
Lemma broken_barrier_is_rechecked_witness :
  @Recording.step dense_assignments Examples.quiet 0 Examples.signalled =
    moves_to Recording.at_relock 0 Examples.signalled ∧
  @Recording.step dense_assignments Examples.quiet 0 Examples.broken_for_good =
    moves_to (Recording.raised BrokenBarrierError) 0 Examples.broken_for_good ∧
  (∃ saved_state,
     @Recording.step dense_assignments Examples.quiet 0 Examples.relocking =
       moves_to (Recording.raised (StateOverridden READY saved_state)) 0 Examples.relocking) ∧
  @Recording.step dense_assignments Examples.quiet 0 Examples.same_report_twice =
    moves_to (Recording.at_barrier_wait 1) 0 Examples.same_report_twice.
Proof.
  split; [|split; [|split]].
  - destruct (@broken_barrier_is_rechecked dense_assignments Examples.quiet
                (Recording.set_pc Recording.at_except (Recording.record_ready "h1" 0))
                0%nat Examples.signalled) as [Hexcept _]; [vm_compute; reflexivity|].
    apply (Hexcept eq_refl 0%nat (mkBarrier 2 Filling 0)); vm_compute; reflexivity.
  - destruct (@broken_barrier_is_rechecked dense_assignments Examples.quiet
                (Recording.set_pc Recording.at_except (Recording.record_ready "h1" 0))
                0%nat Examples.broken_for_good) as [Hexcept _]; [vm_compute; reflexivity|].
    apply (Hexcept eq_refl 0%nat (mkBarrier 2 Broken 0)); vm_compute; reflexivity.
  - destruct (@broken_barrier_is_rechecked dense_assignments Examples.quiet
                (Recording.set_pc Recording.at_relock (Recording.record_ready "h1" 0))
                0%nat Examples.relocking) as [_ Hrelock]; [vm_compute; reflexivity|].
    destruct (Hrelock eq_refl) as [[_ Hraise] _].
    apply Hraise. exists FAILURE. split; [vm_compute; reflexivity|discriminate].
  - destruct (@broken_barrier_is_rechecked dense_assignments Examples.quiet
                (Recording.set_pc Recording.at_relock (Recording.record_ready "h1" 0))
                0%nat Examples.same_report_twice) as [_ Hrelock]; [vm_compute; reflexivity|].
    destruct (Hrelock eq_refl) as [_ Hback].
    apply Hback. intros (saved & Hsaved & Hne).
    vm_compute in Hsaved. injection Hsaved as <-. by apply Hne.
Defined.

(** ** C8: the exit of a worker *)




(** ** C9: one cycle of the barrier *)

#[local] Instance same_actions_refl : Reflexive same_actions.
Proof. intros p. reflexivity. Qed.

#[local] Instance same_actions_trans : Transitive same_actions.
Proof. intros p q r. unfold same_actions. congruence. Qed.

Lemma same_actions_log r :
  Recording.is_all_recorded r = false → keeps same_actions (log r).
Proof.
  intros Hr p. unfold same_actions, Recording.actions_run, log, modify. simpl.
  rewrite filter_app, length_app. simpl.
  rewrite filter_cons_False by (rewrite Hr; done). simpl. lia.
Qed.

Lemma same_actions_reset n : keeps same_actions (Registry.reset n).
Proof.
  intros p. unfold same_actions, Recording.actions_run, Registry.reset. run_method.
  rewrite filter_app, length_app. simpl. lia.
Qed.

#[local] Hint Resolve same_actions_reset : keeps.
#[local] Hint Extern 1 (keeps same_actions (log _)) =>
  (apply same_actions_log; reflexivity) : keeps.

Lemma same_actions_wait_loop tmout min_np max_np ws :
  keeps same_actions (Driver.wait_loop tmout min_np max_np ws).
Proof.
  induction ws as [|w ws IH]; simpl; keeps_method.
  - unfold Driver.discovered. keeps_method.
  - unfold Driver.check_time_out_for. keeps_method.
Qed.

#[local] Hint Resolve same_actions_wait_loop : keeps.

Lemma same_actions_activate `{Assigner} env min_np :
  keeps same_actions (Driver._activate_hosts env min_np).
Proof. unfold Driver._activate_hosts. keeps_method. Qed.

#[local] Hint Resolve same_actions_activate : keeps.

(** Each run of the action is counted once. *)
Lemma on_workers_recorded_counts `{Assigner} env p :
  Recording.actions_run (Driver.on_workers_recorded env p).2 =
  S (Recording.actions_run p).
Proof.
  assert (∃ rest : M unit,
            Driver.on_workers_recorded env =
              (Registry.size ≫= λ n, log (info_all_recorded n) ≫= λ _, rest) ∧
            keeps same_actions rest) as (rest & -> & Hrest).
  { eexists. split; [reflexivity|]. unfold Driver.stop. keeps_method. }
  run_method.
  specialize (Hrest (mkProcess (driver p) (barriers p)
                       (logging p ++
                        [info_all_recorded (_size (_worker_registry (driver p)))]))).
  unfold same_actions in Hrest.
  destruct (rest _) as [[[]|e|] p']; simpl in *; rewrite Hrest;
    unfold Recording.actions_run; simpl; rewrite filter_app, length_app; simpl; lia.
Qed.

Section CycleLists.

Import Recording Cycle.

Lemma waiting_insert ts i t pc :
  ts !! i = Some t →
  (waiting (<[i := set_pc pc t]> ts) + (if is_in_barrier (t_pc t) then 1 else 0) =
   waiting ts + (if is_in_barrier pc then 1 else 0))%nat.
Proof.
  unfold waiting. revert i. induction ts as [|t0 ts IH]; intros i Hi; [done|].
  destruct i as [|i]; simpl in *.
  - injection Hi as ->. rewrite !filter_cons. simpl.
    destruct (is_in_barrier (t_pc t)), (is_in_barrier pc);
      repeat case_decide; simpl; try done; lia.
  - specialize (IH i Hi). rewrite !filter_cons.
    destruct (decide (is_in_barrier (t_pc t0) = true)); simpl; lia.
Qed.

Lemma work_left_insert ts i t pc :
  ts !! i = Some t →
  (work_left (<[i := set_pc pc t]> ts) + blocks_left t =
   work_left ts + blocks_left (set_pc pc t))%nat.
Proof.
  revert i. induction ts as [|t0 ts IH]; intros i Hi; [done|].
  destruct i as [|i]; simpl in *.
  - injection Hi as ->. lia.
  - specialize (IH i Hi). lia.
Qed.

Lemma keys_insert (ts : list Thread) (i : nat) t pc :
  ts !! i = Some t → key <$> <[i := set_pc pc t]> ts = key <$> ts.
Proof.
  intros Hi. rewrite list_fmap_insert. apply list_insert_id.
  by rewrite list_lookup_fmap, Hi.
Qed.

Lemma waiting_none ts :
  Forall (λ t, t_pc t = at_finished_check) ts → waiting ts = 0%nat.
Proof.
  unfold waiting. induction 1 as [|t ts Ht _ IH]; [done|].
  rewrite filter_cons_False; [exact IH|]. rewrite Ht. done.
Qed.

Lemma waiting_le ts : (waiting ts ≤ length ts)%nat.
Proof. apply length_filter. Qed.

(** A thread outside the barrier leaves room in it. *)
Lemma waiting_lt ts i t :
  ts !! i = Some t → is_in_barrier (t_pc t) = false → (waiting ts < length ts)%nat.
Proof.
  intros Hi Hout. apply (length_filter_lt _ _ t).
  - by eapply list_elem_of_lookup_2.
  - rewrite Hout. done.
Qed.

(** With nobody inside the barrier, threads that are inside or have
    returned have all returned. *)
Lemma waiting_zero_returned ts rid b :
  waiting ts = 0%nat →
  (∀ t, t ∈ ts → t_pc t = in_barrier rid b ∨ t_pc t = returned rid) →
  Forall (λ t, t_pc t = returned rid) ts.
Proof.
  unfold waiting. intros Hzero Hpcs. apply Forall_forall. intros t Ht.
  destruct (Hpcs t Ht) as [Hin|Hret]; [|done].
  exfalso. assert (t ∈ filter (λ t, is_in_barrier (t_pc t) = true) ts) as Hf.
  { apply list_elem_of_filter. split; [by rewrite Hin|done]. }
  apply length_zero_iff_nil in Hzero. rewrite Hzero in Hf. by apply elem_of_nil in Hf.
Qed.

End CycleLists.

Ltac run_monad :=
  unfold log, modify, gets, mbind, M_bind, bind, mret, M_ret, ret, raise, blocked,
    with_registry, with_barriers, with_driver, registry in *;
  cbn [driver barriers logging fst snd] in *.

Section CycleSteps.

Import Recording Cycle.

Context `{Assigner}.

Variables (p0 : Process) (ts : list Thread).

Lemma fresh_filling :
  fresh_generation p0 ts → ts ≠ [] →
  Forall (λ t, t_pc t = at_finished_check) ts →
  filling p0 ts (mkSystem p0 ts).
Proof.
  intros [Hrun Hstates Hb Hcount] Hne Hstart.
  constructor; cbn [process threads]; try done.
  - by rewrite (waiting_none _ Hstart).
  - rewrite (waiting_none _ Hstart). destruct ts; [done|simpl; lia].
  - intros t Ht. left. by eapply Forall_forall in Hstart.
  - intros j t _ _. rewrite Hstates. apply lookup_empty.
Qed.

(** [reset(n)] starts a generation when the driver has not finished. *)
Lemma reset_starts_generation p ts' :
  _shutdown (driver p) = false → fresh_generation (generation p ts') ts'.
Proof.
  intros Hrun. unfold generation, Registry.reset. run_method.
  constructor; unfold barrier_of, registry;
    cbn [driver barriers logging _worker_registry set_registry _shutdown _barrier
         _states default]; try done.
  by rewrite list_lookup_middle.
Qed.

Lemma waiting_full (l : list Thread) :
  waiting l = length l → Forall (λ t, is_in_barrier (t_pc t) = true) l.
Proof.
  unfold waiting. induction l as [|t l IH]; intros Hl; [constructor|].
  rewrite filter_cons in Hl. destruct (decide (is_in_barrier (t_pc t) = true)) as [Ht|Ht].
  - simpl in Hl. constructor; [done|]. apply IH. lia.
  - pose proof (length_filter (λ t, is_in_barrier (t_pc t) = true) l). simpl in Hl. lia.
Qed.

Lemma waiting_all_but_one (l : list Thread) i t :
  S (waiting l) = length l → l !! i = Some t → is_in_barrier (t_pc t) = false →
  ∀ j tj, j ≠ i → l !! j = Some tj → is_in_barrier (t_pc tj) = true.
Proof.
  revert i. induction l as [|t0 l IH]; intros i Hl Hi Hout j tj Hji Hj; [done|].
  unfold waiting in *. rewrite filter_cons in Hl.
  destruct (decide (is_in_barrier (t_pc t0) = true)) as [Ht0|Ht0]; simpl in Hl.
  - destruct i as [|i]; simpl in Hi.
    + injection Hi as ->. congruence.
    + destruct j as [|j]; simpl in Hj; [by injection Hj as <-|].
      eapply (IH i); [lia|done|done| |done]. lia.
  - destruct i as [|i]; simpl in Hi.
    + destruct j as [|j]; [done|]. simpl in Hj.
      assert (Forall (λ t, is_in_barrier (t_pc t) = true) l) as Hall
        by (apply waiting_full; unfold waiting; lia).
      eapply Forall_forall in Hall; [exact Hall|]. by eapply list_elem_of_lookup_2.
    + pose proof (waiting_lt l i t Hi Hout) as Hlt. unfold waiting in Hlt. lia.
Qed.

Lemma waiting_pos (l : list Thread) i t :
  l !! i = Some t → is_in_barrier (t_pc t) = true → (0 < waiting l)%nat.
Proof.
  intros Hi Hin. unfold waiting.
  assert (t ∈ filter (λ t, is_in_barrier (t_pc t) = true) l) as Hf.
  { apply list_elem_of_filter. split; [done|]. by eapply list_elem_of_lookup_2. }
  destruct (filter _ l); [by apply elem_of_nil in Hf|simpl; lia].
Qed.

(** The threads after thread [i] has moved to [pc]. *)
Lemma moved_pcs (P : Pc → Prop) (l : list Thread) i t pc :
  (∀ t', t' ∈ l → P (t_pc t')) → l !! i = Some t → P pc →
  ∀ t', t' ∈ <[i := set_pc pc t]> l → P (t_pc t').
Proof.
  intros Hall Hi Hpc t' Ht'. apply list_elem_of_lookup in Ht' as [j Hj].
  apply list_lookup_insert_Some in Hj as [(-> & <- & _)|(_ & Hj)]; [done|].
  apply Hall. by eapply list_elem_of_lookup_2.
Qed.

Lemma length_threads s :
  key <$> threads s = key <$> ts → length (threads s) = length ts.
Proof. intros Hk. apply (f_equal length) in Hk. by rewrite !length_fmap in Hk. Qed.

Hypothesis Hnodup : NoDup (key <$> ts).

Lemma distinct_keys s i j ti tj :
  key <$> threads s = key <$> ts →
  threads s !! i = Some ti → threads s !! j = Some tj → i ≠ j → key ti ≠ key tj.
Proof.
  intros Hk Hi Hj Hij Heq. apply Hij.
  rewrite <- Hk in Hnodup.
  eapply (NoDup_lookup _ i j (key ti) Hnodup).
  - by rewrite list_lookup_fmap, Hi.
  - by rewrite list_lookup_fmap, Hj, Heq.
Qed.


(** The thread that fills the barrier runs the action and leaves. *)
Lemma wait_enter_releases env rendezvous_id p b bar :
  _barrier (registry p) = Some b → barriers p !! b = Some bar →
  _state bar = Filling → _count bar + 1 = _parties bar →
  match Driver.on_workers_recorded env
          (with_barriers (λ bs, <[b := set_count (_count bar + 1) bar]> bs) p) with
  | (Return _, p2) =>
      _wait_enter env rendezvous_id p =
        (Return (returned rendezvous_id),
         with_barriers
           (λ bs, <[b := Barrier_leave (set_state Draining (set_count (_count bar + 1) bar))]> bs)
           p2)
  | (Raise _, _) => False
  | (Blocked, _) => (_wait_enter env rendezvous_id p).1 = Blocked
  end.
Proof.
  intros Hb Hbar Hfill Hlast.
  pose proof (on_workers_recorded_never_raises env
                (with_barriers (λ bs, <[b := set_count (_count bar + 1) bar]> bs) p))
    as Hnever.
  unfold _wait_enter, the_barrier, store_barrier, _action, try_except. run_monad.
  rewrite Hb. cbn beta iota. rewrite Hbar. cbn beta iota. rewrite Hfill.
  destruct (Z.eqb_spec (_count bar + 1) (_parties bar)) as [_|?]; [|done].
  destruct (Driver.on_workers_recorded env _) as [[[]|e|] p2]; cbn beta iota.
  - reflexivity.
  - by destruct (Hnever e).
  - reflexivity.
Qed.

Lemma step_filling env i s s' :
  filling p0 ts s → step env i s = Some s' →
  (work_left (threads s') < work_left (threads s))%nat ∧
  (filling p0 ts s' ∨ (draining p0 ts s' ∧ (i < length ts)%nat)).
Proof.
  intros [Hrun Hb Hid Hcount Hroom Hpcs Hfresh Hkeys Hact] Hstep.
  unfold step in Hstep. destruct (threads s !! i) as [t|] eqn:Hi; [|done].
  assert (t ∈ threads s) as Ht by (by eapply list_elem_of_lookup_2).
  destruct s as [p l]. cbn [process threads] in *.
  destruct (Hpcs t Ht) as [Hpc|[Hpc|[Hpc|Hpc]]].
  - (* the test of finished *)
    rewrite (finished_check_passes env t p Hpc Hrun) in Hstep. injection Hstep as <-.
    cbn [process threads].
    pose proof (work_left_insert l i t at_lock Hi) as Hwork.
    pose proof (waiting_insert l i t at_lock Hi) as Hwait.
    unfold blocks_left in Hwork. rewrite Hpc in Hwork, Hwait. simpl in Hwork, Hwait.
    split; [lia|]. left. constructor; cbn [process threads]; try done.
    + by replace (waiting (<[i:=set_pc at_lock t]> l)) with (waiting l) by lia.
    + by replace (waiting (<[i:=set_pc at_lock t]> l)) with (waiting l) by lia.
    + apply (moved_pcs (filling_pc p0) l i t at_lock Hpcs Hi). unfold filling_pc. tauto.
    + intros j tj Hj Hpcj.
      apply list_lookup_insert_Some in Hj as [(<- & <- & _)|(Hji & Hj)].
      * apply (Hfresh i t Hi). by left.
      * by apply (Hfresh j tj Hj).
    + by rewrite keys_insert.
  - (* the lock *)
    assert (_states (registry p) !! key t = None) as Hnew
      by (apply (Hfresh i t Hi); by right).
    unfold block in Hstep. rewrite Hpc in Hstep.
    unfold _record_state_locked in Hstep. run_method.
    unfold key in Hnew. rewrite Hnew in Hstep.
    rewrite bool_decide_eq_false_2 in Hstep by (by intros [? ?]).
    cbn beta iota in Hstep. cbn [driver barriers logging] in Hstep.
    injection Hstep as <-. cbn [process threads].
    pose proof (work_left_insert l i t (at_barrier_wait (id_of p0)) Hi) as Hwork.
    pose proof (waiting_insert l i t (at_barrier_wait (id_of p0)) Hi) as Hwait.
    unfold blocks_left in Hwork. rewrite Hpc in Hwork, Hwait. simpl in Hwork, Hwait.
    rewrite Hid.
    split; [lia|]. left.
    constructor; cbn [process threads driver barriers logging _worker_registry
      set_registry _shutdown _barrier _rendezvous_id _states registry]; try done.
    + by replace (waiting (<[i:=set_pc (at_barrier_wait (id_of p0)) t]> l))
        with (waiting l) by lia.
    + by replace (waiting (<[i:=set_pc (at_barrier_wait (id_of p0)) t]> l))
        with (waiting l) by lia.
    + apply (moved_pcs (filling_pc p0) l i t _ Hpcs Hi). unfold filling_pc. tauto.
    + intros j tj Hj Hpcj.
      apply list_lookup_insert_Some in Hj as [(<- & <- & _)|(Hji & Hj)].
      * simpl in Hpcj. by destruct Hpcj.
      * rewrite lookup_insert_ne; [by apply (Hfresh j tj Hj)|].
        apply (distinct_keys (mkSystem p l) i j t tj); done.
    + by rewrite keys_insert.
    + unfold actions_run in *. cbn [logging]. rewrite filter_app, length_app. simpl.
      lia.
  - (* entering the barrier *)
    unfold block in Hstep. rewrite Hpc in Hstep.
    destruct (decide (Z.of_nat (waiting l) + 1 = Z.of_nat (length ts))) as [Hlast|Hmore].
    + pose proof (wait_enter_releases env (id_of p0) p _ _ Hb Hcount eq_refl Hlast) as Hrel.
      pose proof (allocates_on_workers_recorded env
        (with_barriers (λ bs, <[barrier_of p0 := set_count
           (_count (mkBarrier (Z.of_nat (length ts)) Filling (Z.of_nat (waiting l))) + 1)
           (mkBarrier (Z.of_nat (length ts)) Filling (Z.of_nat (waiting l)))]> bs) p)) as Halloc.
      pose proof (on_workers_recorded_counts env
        (with_barriers (λ bs, <[barrier_of p0 := set_count
           (_count (mkBarrier (Z.of_nat (length ts)) Filling (Z.of_nat (waiting l))) + 1)
           (mkBarrier (Z.of_nat (length ts)) Filling (Z.of_nat (waiting l)))]> bs) p)) as Hcnt.
      destruct (Driver.on_workers_recorded env _) as [[[]|e|] p2]; [|done|].
      2:{ unfold except_BrokenBarrierError, try_except in Hstep.
          destruct (_wait_enter env (id_of p0) p) as [[pc|e|] p']; done. }
      unfold except_BrokenBarrierError, try_except in Hstep. rewrite Hrel in Hstep. injection Hstep as <-. cbn [process threads].
      pose proof (work_left_insert l i t (returned (id_of p0)) Hi) as Hwork.
      pose proof (waiting_insert l i t (returned (id_of p0)) Hi) as Hwait.
      unfold blocks_left in Hwork. rewrite Hpc in Hwork, Hwait. simpl in Hwork, Hwait.
      assert (length l = length ts) as Hlen by (by apply (length_threads (mkSystem p l))).
      assert (barrier_of p0 < length (barriers p2))%nat as Hb2.
      { apply lookup_lt_Some in Hcount. destruct Halloc as [k Hk].
        cbn [snd with_barriers barriers] in Hk. rewrite Hk, length_app, length_insert. lia. }
      split; [lia|]. right. split; [|apply lookup_lt_Some in Hi; lia].
      assert (waiting (<[i:=set_pc (returned (id_of p0)) t]> l) = waiting l) as Hw by lia.
      constructor; cbn [process threads with_barriers barriers logging]; rewrite ?Hw.
      * rewrite list_lookup_insert_eq by done. f_equal.
        unfold Barrier_leave, Barrier_exit, set_state, set_count. cbn [_count _state _parties].
        replace (Z.of_nat (waiting l) + 1 - 1) with (Z.of_nat (waiting l)) by lia.
        destruct (decide (waiting l = 0%nat)) as [Hz|Hnz].
        -- rewrite Hz. reflexivity.
        -- destruct (Z.eqb_spec (Z.of_nat (waiting l)) 0) as [?|_]; [lia|done].
      * intros t' Ht'. apply list_elem_of_lookup in Ht' as [j Hj].
        apply list_lookup_insert_Some in Hj as [(<- & <- & _)|(Hji & Hj)]; [by right|].
        left.
        assert (is_in_barrier (t_pc t') = true) as Hin.
        { apply (waiting_all_but_one l i t ltac:(lia) Hi ltac:(by rewrite Hpc) j t');
            done. }
        destruct (Hpcs t' ltac:(by eapply list_elem_of_lookup_2)) as [E|[E|[E|E]]];
          rewrite E in Hin; done.
      * by rewrite keys_insert.
      * unfold actions_run, with_barriers in *. cbn [snd logging] in *. lia.
    + unfold except_BrokenBarrierError, try_except, _wait_enter, the_barrier,
        store_barrier, _action in Hstep. run_monad.
      rewrite Hb in Hstep. cbn beta iota in Hstep. rewrite Hcount in Hstep.
      cbn beta iota in Hstep. cbn [_state _count _parties driver barriers logging] in Hstep.
      destruct (Z.eqb_spec (Z.of_nat (waiting l) + 1) (Z.of_nat (length ts))) as [?|_];
        [done|].
      injection Hstep as <-. cbn [process threads].
      pose proof (work_left_insert l i t (in_barrier (id_of p0) (barrier_of p0)) Hi) as Hwork.
      pose proof (waiting_insert l i t (in_barrier (id_of p0) (barrier_of p0)) Hi) as Hwait.
      unfold blocks_left in Hwork. rewrite Hpc in Hwork, Hwait. simpl in Hwork, Hwait.
      split; [lia|]. left.
      constructor; cbn [process threads driver barriers logging]; try done.
      * rewrite list_lookup_insert_eq by (by eapply lookup_lt_Some). f_equal.
        unfold set_count. cbn [_parties _state]. f_equal. lia.
      * lia.
      * apply (moved_pcs (filling_pc p0) l i t _ Hpcs Hi). unfold filling_pc. tauto.
      * intros j tj Hj Hpcj.
        apply list_lookup_insert_Some in Hj as [(<- & <- & _)|(Hji & Hj)].
        -- simpl in Hpcj. by destruct Hpcj.
        -- by apply (Hfresh j tj Hj).
      * by rewrite keys_insert.
  - (* inside the barrier, which fills *)
    unfold block in Hstep. rewrite Hpc in Hstep.
    unfold except_BrokenBarrierError, try_except, _wait_leave in Hstep. run_monad.
    by rewrite Hcount in Hstep.
Qed.

Lemma step_draining env i s s' :
  draining p0 ts s → step env i s = Some s' →
  (work_left (threads s') < work_left (threads s))%nat ∧ draining p0 ts s'.
Proof.
  intros [Hcount Hpcs Hkeys Hact] Hstep.
  unfold step in Hstep. destruct (threads s !! i) as [t|] eqn:Hi; [|done].
  assert (t ∈ threads s) as Ht by (by eapply list_elem_of_lookup_2).
  destruct s as [p l]. cbn [process threads] in *.
  unfold block in Hstep.
  destruct (Hpcs t Ht) as [Hpc|Hpc]; rewrite Hpc in Hstep; [|done].
  pose proof (waiting_pos l i t Hi ltac:(by rewrite Hpc)) as Hpos.
  destruct (decide (waiting l = 0%nat)) as [?|_]; [lia|].
  unfold except_BrokenBarrierError, try_except, _wait_leave, store_barrier in Hstep.
  run_monad. rewrite Hcount in Hstep.
  cbn beta iota in Hstep. cbn [_state driver barriers logging] in Hstep.
  injection Hstep as <-. cbn [process threads].
  pose proof (work_left_insert l i t (returned (id_of p0)) Hi) as Hwork.
  pose proof (waiting_insert l i t (returned (id_of p0)) Hi) as Hwait.
  unfold blocks_left in Hwork. rewrite Hpc in Hwork, Hwait. simpl in Hwork, Hwait.
  split; [lia|].
  constructor; cbn [process threads driver barriers logging]; try done.
  - rewrite list_lookup_insert_eq by (by eapply lookup_lt_Some). f_equal.
    unfold Barrier_leave, Barrier_exit, set_state, set_count. cbn [_count _state _parties].
    replace (Z.of_nat (waiting l) - 1)
      with (Z.of_nat (waiting (<[i:=set_pc (returned (id_of p0)) t]> l))) by lia.
    destruct (decide (waiting (<[i:=set_pc (returned (id_of p0)) t]> l) = 0%nat)) as [Hz|Hnz].
    + rewrite Hz. reflexivity.
    + destruct (Z.eqb_spec (Z.of_nat (waiting (<[i:=set_pc (returned (id_of p0)) t]> l))) 0)
        as [?|_]; [lia|done].
  - apply (moved_pcs (draining_pc p0) l i t _ Hpcs Hi). by right.
  - by rewrite keys_insert.
Qed.

Lemma exec_draining sched s1 s :
  draining p0 ts s1 → exec s1 sched s →
  draining p0 ts s ∧ runners sched s1 = [].
Proof.
  intros Hd Hexec. induction Hexec as [s|s i env s1 sched s2 Hstep Hexec IH]; [done|].
  destruct (step_draining env i s s1 Hd Hstep) as [_ Hd1].
  destruct (IH Hd1) as [Hd2 Hr]. split; [done|].
  simpl. rewrite Hstep, Hr.
  rewrite bool_decide_eq_true_2; [done|].
  by rewrite (draining_actions _ _ _ Hd), (draining_actions _ _ _ Hd1).
Qed.

Lemma exec_filling sched s1 s :
  filling p0 ts s1 → exec s1 sched s →
  (filling p0 ts s ∧ runners sched s1 = []) ∨
  (draining p0 ts s ∧ ∃ j, (j < length ts)%nat ∧ runners sched s1 = [j]).
Proof.
  intros Hf Hexec. induction Hexec as [s|s i env s1 sched s2 Hstep Hexec IH]; [by left|].
  destruct (step_filling env i s s1 Hf Hstep) as [_ [Hf1|[Hd1 Hi]]].
  - destruct (IH Hf1) as [[Hf2 Hr]|(Hd2 & j & Hj & Hr)].
    + left. split; [done|]. simpl. rewrite Hstep, Hr.
      rewrite bool_decide_eq_true_2; [done|].
      by rewrite (filling_actions _ _ _ Hf), (filling_actions _ _ _ Hf1).
    + right. split; [done|]. exists j. split; [done|]. simpl. rewrite Hstep, Hr.
      rewrite bool_decide_eq_true_2; [done|].
      by rewrite (filling_actions _ _ _ Hf), (filling_actions _ _ _ Hf1).
  - destruct (exec_draining sched s1 s2 Hd1 Hexec) as [Hd2 Hr].
    right. split; [done|]. exists i. split; [done|]. simpl. rewrite Hstep, Hr.
    rewrite bool_decide_eq_false_2; [done|].
    rewrite (filling_actions _ _ _ Hf), (draining_actions _ _ _ Hd1). lia.
Qed.

Lemma exec_app s1 sched1 s2 sched2 s3 :
  exec s1 sched1 s2 → exec s2 sched2 s3 → exec s1 (sched1 ++ sched2) s3.
Proof.
  induction 1 as [s|s i env s1 sched s2 Hstep Hexec IH]; intros Hrest; [done|].
  simpl. econstructor; [exact Hstep|]. by apply IH.
Qed.

Lemma runners_app s1 sched1 s2 sched2 :
  exec s1 sched1 s2 →
  runners (sched1 ++ sched2) s1 = runners sched1 s1 ++ runners sched2 s2.
Proof.
  induction 1 as [s|s i env s1 sched s2 Hstep Hexec IH]; [done|].
  simpl. rewrite Hstep, IH. by rewrite app_assoc.
Qed.

(** The action either ends at once or goes on to activate hosts. *)
Lemma on_workers_recorded_cases env p :
  (Driver.on_workers_recorded env p).1 = Return () ∨
  ∃ pb,
    _start_timeout (driver pb) = _start_timeout (driver p) ∧
    Driver.on_workers_recorded env p =
      try_except (Driver._activate_hosts env (_min_np (driver p)))
        (λ _, log exception_activate_failed ≫= λ _, Driver.stop) pb.
Proof.
  run_method.
  destruct (0 <? _); [by left|]. cbn beta iota. cbn [driver barriers logging].
  destruct (_ =? _); [by left|]. cbn beta iota. cbn [driver barriers logging].
  destruct (_ =? _); [by left|]. cbn beta iota. cbn [driver barriers logging].
  right. eexists. split; [|reflexivity]. reflexivity.
Qed.

(** A wake-up after the deadline ends the wait. *)
Lemma wait_late_never_blocks env min_np q w :
  wakeups env = [w] → found w = None → deadline env q < now w →
  (Driver.wait_for_available_hosts env min_np None q).1 ≠ Blocked.
Proof.
  intros Hws Hfound Hlate. unfold Driver.wait_for_available_hosts. rewrite Hws.
  unfold deadline in Hlate. simpl. unfold Driver.discovered, Driver.check_time_out_for.
  rewrite Hfound. run_monad.
  destruct (Driver._has_available_slots _ _ _); [done|]. cbn beta iota.
  unfold timed_out, new_Timeout. cbn [_timeout_at].
  destruct (Z.ltb_spec (clock env + _start_timeout (driver q)) (now w)); [done|lia].
Qed.

Lemma on_workers_recorded_can_return q :
  ∃ env q', Driver.on_workers_recorded env q = (Return (), q').
Proof.
  exists (mkEnv 0 [mkWakeup (_start_timeout (driver q) + 1) None]).
  set (env := mkEnv 0 [mkWakeup (_start_timeout (driver q) + 1) None]).
  pose proof (on_workers_recorded_never_raises env q) as Hnever.
  destruct (on_workers_recorded_cases env q) as [Hret|(pb & Hpb & Hrun)].
  - destruct (Driver.on_workers_recorded env q) as [[[]|e|] q']; [by eexists|done..].
  - assert ((Driver.on_workers_recorded env q).1 ≠ Blocked) as Hnb.
    { rewrite Hrun. unfold try_except.
      destruct (activate_after_wait env (_min_np (driver q))) as (rest & -> & Hrest & _).
      rewrite bind_outcome. unfold log at 1, modify at 1. cbn beta iota.
      rewrite bind_outcome.
      pose proof (wait_late_never_blocks env (_min_np (driver q))
                    (mkProcess (driver pb) (barriers pb)
                       (logging pb ++ [info_wait_for_hosts (_min_np (driver q))]))
                    (mkWakeup (_start_timeout (driver q) + 1) None) eq_refl eq_refl) as Hw.
      destruct (Driver.wait_for_available_hosts env _ None _) as [[[]|e|] q1].
      - specialize (Hrest q1). destruct (rest q1) as [[[]|e|] q2]; done.
      - done.
      - exfalso. apply Hw; [|done]. unfold deadline. simpl. lia. }
    destruct (Driver.on_workers_recorded env q) as [[[]|e|] q']; [by eexists| |done].
    by destruct (Hnever e).
Qed.

(** A thread outside the barrier, while there is room in it. *)
Lemma waiting_room (l : list Thread) :
  (waiting l < length l)%nat →
  ∃ i t, l !! i = Some t ∧ is_in_barrier (t_pc t) = false.
Proof.
  unfold waiting. induction l as [|t l IH]; simpl; [lia|].
  rewrite filter_cons. destruct (decide (is_in_barrier (t_pc t) = true)) as [Hin|Hout].
  - simpl. intros Hlt. destruct IH as (i & t' & Hi & Ht'); [lia|].
    by exists (S i), t'.
  - intros _. exists 0%nat, t. split; [done|]. by destruct (is_in_barrier (t_pc t)).
Qed.

(** While the barrier fills, some thread can move. *)
Lemma filling_progress s :
  filling p0 ts s → ∃ env i s', step env i s = Some s'.
Proof.
  intros Hf. pose proof Hf as [Hrun Hb Hid Hcount Hroom Hpcs Hfresh Hkeys Hact].
  destruct s as [p l]. cbn [process threads] in *.
  rewrite <- (length_threads (mkSystem p l) Hkeys) in Hroom. cbn [threads] in Hroom.
  destruct (waiting_room l Hroom) as (i & t & Hi & Hout).
  assert (t ∈ l) as Ht by (by eapply list_elem_of_lookup_2).
  assert (∀ env, (block env t p).1 ≠ Blocked → ∃ s', step env i (mkSystem p l) = Some s')
    as Hmoves.
  { intros env Hnb. unfold step. cbn [process threads]. rewrite Hi.
    destruct (block env t p) as [[pc|e|] p']; [by eexists..|done]. }
  destruct (Hpcs t Ht) as [Hpc|[Hpc|[Hpc|Hpc]]].
  - exists (mkEnv 0 []), i. apply Hmoves.
    by rewrite (finished_check_passes _ t p Hpc Hrun).
  - exists (mkEnv 0 []), i. apply Hmoves.
    assert (_states (registry p) !! key t = None) as Hnew
      by (apply (Hfresh i t Hi); by right).
    unfold block. rewrite Hpc. unfold _record_state_locked. run_monad.
    unfold key in Hnew. rewrite Hnew.
    by rewrite bool_decide_eq_false_2 by (by intros [? ?]).
  - destruct (decide (Z.of_nat (waiting l) + 1 = Z.of_nat (length ts))) as [Hlast|Hmore].
    + destruct (on_workers_recorded_can_return
                  (with_barriers (λ bs, <[barrier_of p0 := set_count
                     (_count (mkBarrier (Z.of_nat (length ts)) Filling (Z.of_nat (waiting l))) + 1)
                     (mkBarrier (Z.of_nat (length ts)) Filling (Z.of_nat (waiting l)))]> bs) p))
        as (env & p2 & Hret).
      exists env, i. apply Hmoves. unfold block. rewrite Hpc.
      pose proof (wait_enter_releases env (id_of p0) p _ _ Hb Hcount eq_refl Hlast) as Hrel.
      rewrite Hret in Hrel.
      unfold except_BrokenBarrierError, try_except. by rewrite Hrel.
    + exists (mkEnv 0 []), i. apply Hmoves. unfold block. rewrite Hpc.
      unfold except_BrokenBarrierError, try_except, _wait_enter, the_barrier,
        store_barrier, _action. run_monad.
      rewrite Hb. cbn beta iota. rewrite Hcount. cbn beta iota.
      cbn [_state _count _parties driver barriers logging].
      by destruct (Z.eqb_spec (Z.of_nat (waiting l) + 1) (Z.of_nat (length ts))).
  - by rewrite Hpc in Hout.
Qed.

(** Once the action has run, either all threads have returned or one of
    them can leave the barrier. *)
Lemma draining_progress s :
  draining p0 ts s →
  all_returned (id_of p0) s ∨ ∃ env i s', step env i s = Some s'.
Proof.
  intros [Hcount Hpcs Hkeys Hact]. destruct s as [p l]. cbn [process threads] in *.
  destruct (decide (waiting l = 0%nat)) as [Hz|Hnz].
  - left. by apply (waiting_zero_returned l (id_of p0) (barrier_of p0)).
  - right.
    assert (∃ i t, l !! i = Some t ∧ is_in_barrier (t_pc t) = true) as (i & t & Hi & Hin).
    { unfold waiting in Hnz. destruct (filter _ l) as [|t f] eqn:Hf; [done|].
      assert (t ∈ filter (λ t, is_in_barrier (t_pc t) = true) l) as Ht
        by (rewrite Hf; left).
      apply list_elem_of_filter in Ht as [Hin Ht].
      apply list_elem_of_lookup in Ht as [i Hi]. by exists i, t. }
    assert (t ∈ l) as Ht by (by eapply list_elem_of_lookup_2).
    exists (mkEnv 0 []), i. unfold step. cbn [process threads]. rewrite Hi.
    unfold block. destruct (Hpcs t Ht) as [Hpc|Hpc]; rewrite Hpc in *; [|done].
    unfold except_BrokenBarrierError, try_except, _wait_leave, store_barrier.
    run_monad. rewrite Hcount. by eexists.
Qed.

(** From any state of the cycle the threads can all be brought to return
    the id of the generation. *)
Lemma cycle_can_finish s :
  filling p0 ts s ∨ draining p0 ts s →
  ∃ sched s', exec s sched s' ∧ all_returned (id_of p0) s'.
Proof.
  remember (work_left (threads s)) as n eqn:Hn. revert s Hn.
  induction (lt_wf n) as [n _ IH]. intros s -> [Hf|Hd].
  - destruct (filling_progress s Hf) as (env & i & s1 & Hstep).
    destruct (step_filling env i s s1 Hf Hstep) as [Hless Hinv].
    destruct (IH _ Hless s1 eq_refl) as (sched & s' & Hexec & Hall).
    { destruct Hinv as [?|[? _]]; [by left|by right]. }
    exists ((i, env) :: sched), s'. split; [|done]. by econstructor.
  - destruct (draining_progress s Hd) as [Hall|(env & i & s1 & Hstep)].
    + exists [], s. split; [constructor|done].
    + destruct (step_draining env i s s1 Hd Hstep) as [Hless Hd1].
      destruct (IH _ Hless s1 eq_refl) as (sched & s' & Hexec & Hall); [by right|].
      exists ((i, env) :: sched), s'. split; [|done]. by econstructor.
Qed.
End CycleSteps.

Import Recording Cycle.

(** C9.  A generation of [n] threads, [n] at least 1, starts in a process
    that [reset(n)] has just left, with the driver not finished; the
    threads call [record_ready], [record_success] or [record_failure] on
    [n] distinct keys.  Along every schedule of their steps: the completion
    action runs at most once, in a step of one of the [n] threads; no
    thread raises; and once any thread has returned, the action has run
    exactly once and the thread has returned the rendezvous id of the
    generation.  So the action runs before any caller returns, and all
    callers return the same id.  Every such execution can be continued
    until all [n] threads have returned, and the action has then run
    exactly once. *)
Theorem barrier_cycle_runs_action_once `{Assigner} p ts sched s :
  fresh_generation p ts →
  ts ≠ [] →
  Forall (λ t, t_pc t = at_finished_check) ts →
  NoDup (key <$> ts) →
  exec (mkSystem p ts) sched s →
  (length (runners sched (mkSystem p ts)) ≤ 1)%nat ∧
  Forall (λ j, (j < length ts)%nat) (runners sched (mkSystem p ts)) ∧
  actions_run (process s) =
    (actions_run p + length (runners sched (mkSystem p ts)))%nat ∧
  (∀ t, t ∈ threads s → ∀ e, t_pc t ≠ raised e) ∧
  (∀ t rendezvous_id,
     t ∈ threads s → t_pc t = returned rendezvous_id →
     rendezvous_id = _rendezvous_id (registry p) ∧
     length (runners sched (mkSystem p ts)) = 1%nat) ∧
  (∃ sched' s',
     exec s sched' s' ∧
     all_returned (_rendezvous_id (registry p)) s' ∧
     length (runners (sched ++ sched') (mkSystem p ts)) = 1%nat).
Proof.
  intros Hfresh Hne Hstart Hnodup Hexec.
  change (_rendezvous_id (registry p)) with (id_of p).
  pose proof (fresh_filling p ts Hfresh Hne Hstart) as Hf0.
  destruct (exec_filling p ts Hnodup sched _ s Hf0 Hexec)
    as [[Hf Hran]|(Hd & j & Hj & Hran)]; rewrite Hran.
  - split; [simpl; lia|]. split; [constructor|].
    split; [rewrite (filling_actions _ _ _ Hf); simpl; lia|].
    split.
    { intros t Ht e Hpc. destruct (filling_pcs _ _ _ Hf t Ht) as [E|[E|[E|E]]];
        rewrite E in Hpc; done. }
    split.
    { intros t rid Ht Hpc. destruct (filling_pcs _ _ _ Hf t Ht) as [E|[E|[E|E]]];
        rewrite E in Hpc; done. }
    destruct (cycle_can_finish p ts Hnodup s (or_introl Hf)) as (sched' & s' & Hexec' & Hall).
    exists sched', s'. split; [done|]. split; [done|].
    rewrite (runners_app _ _ _ _ Hexec), Hran. simpl.
    destruct (exec_filling p ts Hnodup sched' s s' Hf Hexec')
      as [[Hf' _]|(_ & j & _ & ->)]; [|done].
    exfalso. pose proof (length_threads ts s' (filling_keys _ _ _ Hf')) as Hlen.
    destruct (threads s') as [|t l] eqn:Hts; [by destruct ts|].
    unfold all_returned in Hall. rewrite Hts in Hall.
    apply Forall_cons in Hall as [Hret _].
    destruct (filling_pcs _ _ _ Hf' t) as [E|[E|[E|E]]];
      [rewrite Hts; left|rewrite E in Hret; done..].
  - split; [simpl; lia|]. split; [by repeat constructor|].
    split; [rewrite (draining_actions _ _ _ Hd); simpl; lia|].
    split.
    { intros t Ht e Hpc. destruct (draining_pcs _ _ _ Hd t Ht) as [E|E];
        rewrite E in Hpc; done. }
    split.
    { intros t rid Ht Hpc. split; [|done].
      destruct (draining_pcs _ _ _ Hd t Ht) as [E|E]; rewrite E in Hpc; [done|].
      by injection Hpc. }
    destruct (cycle_can_finish p ts Hnodup s (or_intror Hd)) as (sched' & s' & Hexec' & Hall).
    exists sched', s'. split; [done|]. split; [done|].
    rewrite (runners_app _ _ _ _ Hexec), Hran.
    destruct (exec_draining p ts sched' s s' Hd Hexec') as [_ ->]. done.
Qed.

(** C9 at work: [start] leaves a generation of two; the two workers of
    h1 report in turn, the second to arrive runs the action, and both
    return. *)
Lemma barrier_cycle_runs_action_once_witness :
  ∃ s,
    (length (@runners dense_assignments Examples.in_turn
               (mkSystem Examples.started Examples.two_workers)) ≤ 1)%nat ∧
    Forall (λ j, (j < length Examples.two_workers)%nat)
      (@runners dense_assignments Examples.in_turn
         (mkSystem Examples.started Examples.two_workers)) ∧
    actions_run (process s) =
      (actions_run Examples.started +
       length (@runners dense_assignments Examples.in_turn
                 (mkSystem Examples.started Examples.two_workers)))%nat ∧
    (∀ t, t ∈ threads s → ∀ e, t_pc t ≠ raised e) ∧
    (∀ t rendezvous_id,
       t ∈ threads s → t_pc t = returned rendezvous_id →
       rendezvous_id = _rendezvous_id (registry Examples.started) ∧
       length (@runners dense_assignments Examples.in_turn
                 (mkSystem Examples.started Examples.two_workers)) = 1%nat) ∧
    (∃ sched' s',
       @exec dense_assignments s sched' s' ∧
       all_returned (_rendezvous_id (registry Examples.started)) s' ∧
       length (@runners dense_assignments (Examples.in_turn ++ sched')
                 (mkSystem Examples.started Examples.two_workers)) = 1%nat).
Proof.
  eexists.
  apply (@barrier_cycle_runs_action_once dense_assignments Examples.started
           Examples.two_workers Examples.in_turn).
  - constructor; vm_compute; reflexivity.
  - discriminate.
  - repeat constructor.
  - apply (bool_decide_unpack _). vm_compute. exact I.
  - unfold Examples.in_turn.
    repeat (eapply exec_cons; [vm_compute; reflexivity|]).
    apply exec_nil.
Defined.

(** * Further properties *)

(** ** Results *)

Lemma add_result_lookup key value p key' :
  _results_map (_results (driver (Res.add_result key value p).2)) !! key' =
  match _results_map (_results (driver p)) !! key' with
  | Some v => Some v
  | None => if decide (key = key') then Some value else None
  end.
Proof.
  unfold Res.add_result, modify, with_driver. cbn [snd driver].
  destruct (_results_map (_results (driver p)) !! key) as [v|] eqn:Hk.
  - destruct (_results_map (_results (driver p)) !! key') as [v'|] eqn:Hk'; [done|].
    destruct (decide (key = key')) as [->|]; [congruence|done].
  - cbn [_results set_results _results_map].
    destruct (decide (key = key')) as [->|Hne].
    + by rewrite lookup_insert_eq, Hk.
    + rewrite lookup_insert_ne by done. by destruct (_ !! key').
Qed.

(** X1.  Over any sequence of calls of [add_result], the first value written
    under a key stays: a key that had a result keeps it, and a key without
    one ends with the value of the first call that named it, or with none
    when no call did.  The calls return, and they touch nothing else than
    the dictionary of results. *)
Theorem first_result_wins calls p key :
  (add_results calls p).1 = Return () ∧
  _results_map (_results (driver (add_results calls p).2)) !! key =
    match _results_map (_results (driver p)) !! key with
    | Some value => Some value
    | None => first_added key calls
    end ∧
  _worker_threads (_results (driver (add_results calls p).2)) =
    _worker_threads (_results (driver p)) ∧
  registry (add_results calls p).2 = registry p ∧
  barriers (add_results calls p).2 = barriers p ∧
  logging (add_results calls p).2 = logging p.
Proof.
  revert p. induction calls as [|[k v] calls IH]; intros p.
  - unfold first_added. simpl. repeat split. by destruct (_ !! key).
  - unfold add_results. cbn [foldr fst snd].
    change (foldr _ _ calls) with (add_results calls).
    rewrite bind_outcome.
    destruct (Res.add_result k v p) as [[[]|e|] p1] eqn:Hadd;
      [|unfold Res.add_result, modify in Hadd; done..].
    assert (p1 = (Res.add_result k v p).2) as Hp1 by by rewrite Hadd.
    destruct (IH p1) as (Hret & Hlook & Hthreads & Hreg & Hbar & Hlog).
    split; [done|]. split; [|rewrite Hthreads, Hreg, Hbar, Hlog, Hp1;
      unfold Res.add_result, modify, with_driver, registry; cbn [snd driver barriers logging];
      by destruct (_results_map (_results (driver p)) !! k)].
    rewrite Hlook, Hp1, add_result_lookup.
    unfold first_added. cbn [list_find fst].
    destruct (_results_map (_results (driver p)) !! key) as [v'|]; [done|].
    destruct (decide (k = key)) as [->|Hne]; [done|].
    destruct (list_find _ calls) as [[i kv]|]; done.
Qed.

(** ** The decisions of [on_workers_recorded] *)

(** X2.  When no worker has recorded SUCCESS and the number of workers that
    recorded FAILURE is the world size, [on_workers_recorded] logs the
    error, sets the shutdown event and returns.  No host is blacklisted on
    this path, the registry and the barriers are as before, and
    [_activate_hosts] is not called. *)
Theorem all_failures_stop_the_driver `{Assigner} env p :
  default ∅ (_workers (registry p) !! SUCCESS) = ∅ →
  Z.of_nat (size (default ∅ (_workers (registry p) !! FAILURE))) = _world_size (driver p) →
  Driver.on_workers_recorded env p =
    (Return (),
     mkProcess (set_shutdown true (driver p)) (barriers p)
       (logging p ++ [info_all_recorded (_size (registry p));
                      error_failure_stop (_world_size (driver p))])) ∧
  shut_down_directly p (Driver.on_workers_recorded env p).2 ∧
  _discovered_hosts (driver (Driver.on_workers_recorded env p).2) =
    _discovered_hosts (driver p) ∧
  registry (Driver.on_workers_recorded env p).2 = registry p.
Proof.
  intros Hsucc Hfail.
  assert (Driver.on_workers_recorded env p =
    (Return (),
     mkProcess (set_shutdown true (driver p)) (barriers p)
       (logging p ++ [info_all_recorded (_size (registry p));
                      error_failure_stop (_world_size (driver p))]))) as Hrun.
  { run_method. unfold registry in *.
    rewrite Hsucc, size_empty. change (0 <? Z.of_nat 0) with false.
    cbn beta iota. cbn [driver barriers logging].
    rewrite Hfail, Z.eqb_refl. cbn beta iota. cbn [driver barriers logging].
    by rewrite <- app_assoc. }
  rewrite Hrun. cbn [snd driver]. repeat split.
  unfold activations. cbn [logging]. rewrite filter_app. simpl. by rewrite app_nil_r.
Qed.

(** The theorem applies to the run in which both workers of h1 fail. *)
Lemma all_failures_stop_the_driver_witness :
  Examples.on_workers_recorded Scenarios.all_failed =
    (Return (),
     mkProcess (set_shutdown true (driver Scenarios.all_failed))
       (barriers Scenarios.all_failed)
       (logging Scenarios.all_failed ++
        [info_all_recorded (_size (registry Scenarios.all_failed));
         error_failure_stop (_world_size (driver Scenarios.all_failed))])) ∧
  shut_down_directly Scenarios.all_failed
    (Examples.on_workers_recorded Scenarios.all_failed).2 ∧
  _discovered_hosts (driver (Examples.on_workers_recorded Scenarios.all_failed).2) =
    _discovered_hosts (driver Scenarios.all_failed) ∧
  registry (Examples.on_workers_recorded Scenarios.all_failed).2 =
    registry Scenarios.all_failed.
Proof.
  apply (@all_failures_stop_the_driver dense_assignments Examples.quiet
           Scenarios.all_failed); vm_compute; reflexivity.
Defined.

(** The action reaches the activation of line 235. *)
Lemma on_workers_recorded_activates `{Assigner} env p :
  default ∅ (_workers (registry p) !! SUCCESS) = ∅ →
  Z.of_nat (size (default ∅ (_workers (registry p) !! FAILURE))) ≠ _world_size (driver p) →
  count_blacklisted_slots (hosts_with_failures_blacklisted p) ≠ _world_size (driver p) →
  Driver.on_workers_recorded env p =
    try_except (Driver._activate_hosts env (_min_np (driver p)))
      (λ _, log exception_activate_failed ≫= λ _, Driver.stop) (after_blacklisting p).
Proof.
  intros Hsucc Hfail Hne. unfold after_blacklisting.
  unfold hosts_with_failures_blacklisted in *. run_method.
  rewrite Hsucc, size_empty. change (0 <? Z.of_nat 0) with false.
  cbn beta iota. cbn [driver barriers logging].
  destruct (Z.eqb_spec
              (Z.of_nat (size (default ∅ (_workers (_worker_registry (driver p)) !! FAILURE))))
              (_world_size (driver p))) as [?|_]; [done|].
  cbn beta iota. cbn [driver barriers logging].
  match goal with |- context [ ?a =? ?b ] =>
    destruct (Z.eqb_spec a b) as [?|_]; [done|] end.
  cbn beta iota. cbn [driver barriers logging]. reflexivity.
Qed.

(** X3.  [on_workers_recorded] never raises.  When it goes on to activate
    hosts and [_activate_hosts] raises, whatever the exception (the timeout
    of the wait, an error of the assigner), the exception is logged, the
    shutdown event is set, and the call returns. *)
Theorem activation_failure_is_caught `{Assigner} env p e pa :
  default ∅ (_workers (registry p) !! SUCCESS) = ∅ →
  Z.of_nat (size (default ∅ (_workers (registry p) !! FAILURE))) ≠ _world_size (driver p) →
  count_blacklisted_slots (hosts_with_failures_blacklisted p) ≠ _world_size (driver p) →
  Driver._activate_hosts env (_min_np (driver p)) (after_blacklisting p) = (Raise e, pa) →
  Driver.on_workers_recorded env p =
    (Return (),
     mkProcess (set_shutdown true (driver pa)) (barriers pa)
       (logging pa ++ [exception_activate_failed])) ∧
  (∀ env' p' e', (Driver.on_workers_recorded env' p').1 ≠ Raise e').
Proof.
  intros Hsucc Hfail Hne Hraise. split.
  - rewrite (on_workers_recorded_activates env p Hsucc Hfail Hne).
    unfold try_except. rewrite Hraise. reflexivity.
  - intros env' p' e'. apply on_workers_recorded_never_raises.
Qed.

(** The theorem applies to the run in which the last host fails and the
    wait for new hosts times out. *)
Lemma activation_failure_is_caught_witness :
  ∃ pa,
    @Driver.on_workers_recorded dense_assignments Examples.late Examples.last_host_fails =
      (Return (),
       mkProcess (set_shutdown true (driver pa)) (barriers pa)
         (logging pa ++ [exception_activate_failed])) ∧
    (∀ env' p' e', (@Driver.on_workers_recorded dense_assignments env' p').1 ≠ Raise e').
Proof.
  eexists.
  apply (@activation_failure_is_caught dense_assignments Examples.late
           Examples.last_host_fails (StartTimeout waiting_for_hosts)).
  - vm_compute. reflexivity.
  - vm_compute. discriminate.
  - vm_compute. discriminate.
  - vm_compute. reflexivity.
Defined.

(** ** The wait for hosts *)

(** X4.  [wait_for_available_hosts(min_np, max_np)] returns only when the
    available slots are at least [min_np] and, with [max_np] given, at most
    [max_np].  With such a number of slots on entry it returns at once and
    changes nothing, whatever the clock reads and however short the start
    timeout is.  It raises nothing but the timeout error.  With [max_np]
    below [min_np] it never returns: it stays blocked or times out. *)
Theorem wait_for_available_hosts_bounds env min_np max_np p :
  (∀ p', Driver.wait_for_available_hosts env min_np max_np p = (Return (), p') →
         min_np ≤ count_available_slots (_discovered_hosts (driver p')) ∧
         ∀ m, max_np = Some m → count_available_slots (_discovered_hosts (driver p')) ≤ m) ∧
  (min_np ≤ count_available_slots (_discovered_hosts (driver p)) →
   (∀ m, max_np = Some m → count_available_slots (_discovered_hosts (driver p)) ≤ m) →
   Driver.wait_for_available_hosts env min_np max_np p = (Return (), p)) ∧
  (∀ e, (Driver.wait_for_available_hosts env min_np max_np p).1 = Raise e →
        e = StartTimeout waiting_for_hosts) ∧
  (∀ m, max_np = Some m → m < min_np →
        (Driver.wait_for_available_hosts env min_np max_np p).1 ≠ Return ()).
Proof.
  set (tmout := new_Timeout (clock env) (_start_timeout (driver p))).
  change (Driver.wait_for_available_hosts env min_np max_np p)
    with (Driver.wait_loop tmout min_np max_np (wakeups env) p).
  pose proof (wait_loop_ends tmout min_np max_np (wakeups env) p) as Hend.
  assert (∀ slots, Driver._has_available_slots slots min_np max_np = true ↔
                   min_np ≤ slots ∧ ∀ m, max_np = Some m → slots ≤ m) as Hhas.
  { intros slots. unfold Driver._has_available_slots. rewrite andb_true_iff, Z.leb_le.
    destruct max_np as [m|].
    - rewrite Z.leb_le. split; [intros [? ?]; split; [done|by intros ? [= <-]]|].
      intros [? Hm]. split; [done|by apply Hm].
    - split; [intros [? _]; by split|by intros [? _]]. }
  split; [|split; [|split]].
  - intros p' Hret. rewrite Hret in Hend. by apply Hhas.
  - intros Hmin Hmax.
    assert (Driver._has_available_slots
              (count_available_slots (_discovered_hosts (driver p))) min_np max_np = true)
      as Hyes by by apply Hhas.
    destruct (wakeups env); simpl; unfold mbind, M_bind, bind, gets; cbn beta iota;
      by rewrite Hyes.
  - intros e He.
    destruct (Driver.wait_loop tmout min_np max_np (wakeups env) p) as [[[]|e'|] p1];
      cbn [fst] in He; [done| |done]. congruence.
  - intros m -> Hlt Hret.
    destruct (Driver.wait_loop tmout min_np (Some m) (wakeups env) p) as [[[]|e'|] p1];
      cbn [fst] in Hret; [|done..].
    apply Hhas in Hend as [Hmin Hmax]. specialize (Hmax m eq_refl). lia.
Qed.

(** The theorem at work: with four slots on offer, a wait for two to three
    slots does not return, and a wait for two to four returns at once,
    also when the clock is past the deadline. *)
Lemma wait_for_available_hosts_bounds_witness :
  (Driver.wait_for_available_hosts Examples.late 3 (Some 2) Scenarios.four_slots).1
    ≠ Return () ∧
  Driver.wait_for_available_hosts (mkEnv 1000 []) 2 (Some 4) Scenarios.four_slots =
    (Return (), Scenarios.four_slots).
Proof.
  split.
  - destruct (wait_for_available_hosts_bounds Examples.late 3 (Some 2) Scenarios.four_slots)
      as (_ & _ & _ & Hnever).
    apply (Hnever 2); [reflexivity|lia].
  - destruct (wait_for_available_hosts_bounds (mkEnv 1000 []) 2 (Some 4)
                Scenarios.four_slots) as (_ & Hnow & _).
    apply Hnow.
    + vm_compute. discriminate.
    + intros m [= <-]. vm_compute. discriminate.
Defined.

(** ** The table of host assignments *)

Lemma group_by_hostname_acc (l : list SlotInfo) (m : gmap string (list SlotInfo)) host :
  let m' := foldl (λ m slot_info,
                     <[hostname slot_info :=
                         default [] (m !! hostname slot_info) ++ [slot_info]]> m) m l in
  default [] (m' !! host) =
    default [] (m !! host) ++ filter (λ slot_info, hostname slot_info = host) l ∧
  (is_Some (m' !! host) ↔
   is_Some (m !! host) ∨ filter (λ slot_info, hostname slot_info = host) l ≠ []) ∧
  slots_in_table m' = slots_in_table m + Z.of_nat (length l).
Proof.
  revert m. induction l as [|s l IH]; intros m; cbn zeta.
  - simpl. rewrite app_nil_r. split; [done|]. split; [|lia].
    split; [by left|]. by intros [?|?].
  - cbn [foldl].
    destruct (IH (<[hostname s := default [] (m !! hostname s) ++ [s]]> m))
      as (IH1 & IH2 & IH3).
    cbn zeta in IH1, IH2, IH3. rewrite IH1, IH2, IH3. clear IH IH1 IH2 IH3.
    assert (slots_in_table (<[hostname s := default [] (m !! hostname s) ++ [s]]> m) =
            slots_in_table m + 1) as Hsum.
    { unfold slots_in_table.
      destruct (m !! hostname s) as [v|] eqn:Hm; cbn [from_option id].
      - rewrite <- (insert_delete_eq m).
        rewrite map_fold_insert_L; [| intros; lia | by rewrite lookup_delete_eq].
        rewrite (map_fold_delete_L _ _ (hostname s) v m); [| intros; lia | done].
        rewrite length_app. simpl. lia.
      - rewrite map_fold_insert_L; [| intros; lia | done]. simpl. lia. }
    rewrite Hsum. rewrite filter_cons.
    destruct (decide (hostname s = host)) as [<-|Hne].
    + rewrite lookup_insert_eq. cbn [from_option id]. rewrite <- app_assoc. cbn [app length].
      split; [done|]. split; [|lia]. split; [intros _; by right|intros _; left; by eexists].
    + rewrite lookup_insert_ne by done. split; [done|]. split; [done|].
      cbn [length]. lia.
Qed.

Lemma group_by_hostname_lookup (l : list SlotInfo) host :
  default [] (Driver.group_by_hostname l !! host) =
    filter (λ slot_info, hostname slot_info = host) l ∧
  (is_Some (Driver.group_by_hostname l !! host) ↔
   ∃ slot_info, slot_info ∈ l ∧ hostname slot_info = host) ∧
  slots_in_table (Driver.group_by_hostname l) = Z.of_nat (length l).
Proof.
  destruct (group_by_hostname_acc l ∅ host) as (H1 & H2 & H3). cbn zeta in *.
  unfold Driver.group_by_hostname. rewrite H1, H2, H3, lookup_empty. cbn [from_option id app].
  split; [done|]. split; [|unfold slots_in_table; rewrite map_fold_empty; lia].
  split.
  - intros [[? [=]]|Hne].
    destruct (filter _ l) as [|s l'] eqn:Hf; [done|].
    assert (s ∈ filter (λ slot_info, hostname slot_info = host) l) as Hs
      by (rewrite Hf; by left).
    apply list_elem_of_filter in Hs as [? ?]. by exists s.
  - intros (s & Hs & Hh). right. intros Hnil.
    assert (s ∈ filter (λ slot_info, hostname slot_info = host) l) as Hin
      by by apply list_elem_of_filter.
    rewrite Hnil in Hin. by apply elem_of_nil in Hin.
Qed.

(** X5.  When [_update_host_assignments] returns, the slots the assigner
    gave are published to the rendezvous server, the world size is their
    number, and the table holds for every host the slots that name it, in
    the assigner's order; a host is in the table exactly when some slot
    names it, and the local sizes of the table add up to the world size.
    The method leaves everything else alone.  When the assigner raises,
    the exception goes on to the caller and nothing has changed.  The
    method never blocks. *)
Theorem host_table_groups_published_slots `{Assigner} p :
  match Driver._update_host_assignments p with
  | (Return _, p') =>
      ∃ slots,
        get_host_assignments (host_list (driver p)) (_min_np (driver p)) (_max_np (driver p))
          = inr slots ∧
        p' = with_driver (set_assignments slots (_host_assignments (driver p'))
                            (_world_size (driver p'))) p ∧
        _rendezvous (driver p') = slots ∧
        _world_size (driver p') = Z.of_nat (length slots) ∧
        (∀ host, default [] (_host_assignments (driver p') !! host) =
                 filter (λ slot_info, hostname slot_info = host) slots) ∧
        (∀ host, is_Some (_host_assignments (driver p') !! host) ↔
                 ∃ slot_info, slot_info ∈ slots ∧ hostname slot_info = host) ∧
        slots_in_table (_host_assignments (driver p')) = _world_size (driver p')
  | (Raise e, p') =>
      p' = p ∧
      get_host_assignments (host_list (driver p)) (_min_np (driver p)) (_max_np (driver p))
        = inl e
  | (Blocked, _) => False
  end.
Proof.
  unfold Driver._update_host_assignments, host_list. run_monad.
  destruct (get_host_assignments _ _ _) as [e|slots]; cbn; [done|].
  exists slots. split; [done|]. split; [done|]. split; [done|]. split; [done|].
  split; [intros host; apply group_by_hostname_lookup|].
  split; [intros host; apply (group_by_hostname_lookup slots host)|].
  apply (group_by_hostname_lookup slots "").
Qed.

(** ** The slot of a worker *)

(** A case analysis on the comparisons of the goal. *)
Ltac z_case :=
  match goal with
  | |- context [ if ?a <? ?b then _ else _ ] =>
      destruct (Z.ltb_spec a b); try lia; cbn [orb andb]
  | |- context [ ?a <? ?b ] => destruct (Z.ltb_spec a b); try lia; cbn [orb andb]
  | |- context [ ?a <=? ?b ] => destruct (Z.leb_spec a b); try lia; cbn [orb andb]
  end.

Lemma has_rank_assignment_run host slot p :
  Driver.has_rank_assignment host slot p =
    (Return (if is_blacklisted (_discovered_hosts (driver p)) host then false
             else match _host_assignments (driver p) !! host with
                  | Some slots => slot <? Z.of_nat (length slots)
                  | None => false
                  end), p).
Proof. reflexivity. Qed.

(** [get_slot_info] for a slot from 0 on. *)
Lemma get_slot_info_from_zero `{InvalidSlot} host slot p :
  0 ≤ slot →
  Slots.get_slot_info host slot p =
    Found (if is_blacklisted (_discovered_hosts (driver p)) host then INVALID_SLOT_INFO
           else default INVALID_SLOT_INFO
                  (default [] (_host_assignments (driver p) !! host) !! Z.to_nat slot)).
Proof.
  intros Hslot. unfold Slots.get_slot_info. rewrite has_rank_assignment_run. cbn [fst].
  destruct (is_blacklisted _ _); [done|].
  destruct (_host_assignments (driver p) !! host) as [slots|]; [|done].
  cbn [from_option id]. unfold list_getitem. cbv zeta.
  destruct (Z.ltb_spec slot (Z.of_nat (length slots))) as [Hlt|Hge].
  - repeat z_case.
    destruct (slots !! Z.to_nat slot) as [slot_info|] eqn:Hs; [done|].
    apply lookup_ge_None in Hs. lia.
  - rewrite lookup_ge_None_2; [done|lia].
Qed.

(** X6.  [get_slot_info(host, slot)] gives [INVALID_SLOT_INFO] for a
    blacklisted host, for a host that is not in the table, and for a slot at
    or above the host's local size.  [has_rank_assignment] has no lower
    bound on the slot: on a host of the table that is not blacklisted every
    negative slot has a rank assignment, and [get_slot_info] then counts
    from the end of the host's slots, raising [IndexError] below minus the
    local size. *)
Theorem get_slot_info_bounds `{InvalidSlot} host slot p :
  (is_blacklisted (_discovered_hosts (driver p)) host = true →
   Slots.get_slot_info host slot p = Found INVALID_SLOT_INFO) ∧
  (_host_assignments (driver p) !! host = None →
   Slots.get_slot_info host slot p = Found INVALID_SLOT_INFO) ∧
  (∀ slots,
     is_blacklisted (_discovered_hosts (driver p)) host = false →
     _host_assignments (driver p) !! host = Some slots →
     (Driver.has_rank_assignment host slot p).1 =
       Return (bool_decide (slot < Z.of_nat (length slots))) ∧
     (Z.of_nat (length slots) ≤ slot →
      Slots.get_slot_info host slot p = Found INVALID_SLOT_INFO) ∧
     (0 ≤ slot < Z.of_nat (length slots) →
      ∃ slot_info, slots !! Z.to_nat slot = Some slot_info ∧
                   Slots.get_slot_info host slot p = Found slot_info) ∧
     (- Z.of_nat (length slots) ≤ slot < 0 →
      ∃ slot_info, slots !! Z.to_nat (Z.of_nat (length slots) + slot) = Some slot_info ∧
                   Slots.get_slot_info host slot p = Found slot_info) ∧
     (slot < - Z.of_nat (length slots) →
      Slots.get_slot_info host slot p = LookupError)).
Proof.
  unfold Slots.get_slot_info. rewrite has_rank_assignment_run. cbn [fst].
  split; [by intros ->|]. split.
  { intros ->. by destruct (is_blacklisted _ _). }
  intros slots -> ->. set (n := Z.of_nat (length slots)).
  split.
  { f_equal. destruct (Z.ltb_spec slot n).
    - by rewrite bool_decide_eq_true_2.
    - rewrite bool_decide_eq_false_2; [done|lia]. }
  split.
  { intros Hge. destruct (Z.ltb_spec slot n); [lia|done]. }
  unfold list_getitem. cbv zeta. fold n.
  split; [|split].
  - intros [Hlo Hhi]. repeat z_case.
    destruct (slots !! Z.to_nat slot) as [slot_info|] eqn:Hs; [by exists slot_info|].
    apply lookup_ge_None in Hs. lia.
  - intros [Hlo Hhi]. repeat z_case.
    replace (n + slot) with (slot + n) by lia.
    destruct (slots !! Z.to_nat (slot + n)) as [slot_info|] eqn:Hs; [by exists slot_info|].
    apply lookup_ge_None in Hs. lia.
  - intros Hlt. by repeat z_case.
Qed.

(** The theorem at work on the started h1, which has two slots: slot 2 is
    invalid, slot -1 is the last slot of h1, and slot -3 raises. *)
Lemma get_slot_info_bounds_witness :
  @Slots.get_slot_info Scenarios.invalid "h1" 2 Examples.started = Found Scenarios.invalid ∧
  (∃ slot_info,
     default [] (_host_assignments (driver Examples.started) !! "h1"%string) !! 1%nat
       = Some slot_info ∧
     @Slots.get_slot_info Scenarios.invalid "h1" (-1) Examples.started = Found slot_info) ∧
  @Slots.get_slot_info Scenarios.invalid "h1" (-3) Examples.started = LookupError.
Proof.
  pose proof (λ slot, @get_slot_info_bounds Scenarios.invalid
                       "h1" slot Examples.started) as Hb.
  assert (∃ slots, _host_assignments (driver Examples.started) !! "h1"%string = Some slots ∧
                   length slots = 2%nat) as (slots & Hslots & Hlen)
    by (eexists; split; vm_compute; reflexivity).
  assert (is_blacklisted (_discovered_hosts (driver Examples.started)) "h1" = false) as Hnot
    by (vm_compute; reflexivity).
  rewrite Hslots. cbn [from_option id].
  split; [|split].
  - destruct (Hb 2) as (_ & _ & Hin). destruct (Hin slots Hnot Hslots) as (_ & Hge & _).
    apply Hge. lia.
  - destruct (Hb (-1)) as (_ & _ & Hin).
    destruct (Hin slots Hnot Hslots) as (_ & _ & _ & Hneg & _).
    rewrite Hlen in Hneg. apply Hneg. lia.
  - destruct (Hb (-3)) as (_ & _ & Hin).
    destruct (Hin slots Hnot Hslots) as (_ & _ & _ & _ & Hlow).
    apply Hlow. lia.
Defined.

(** ** The job as a whole *)

(** [_handle_worker_exit] is its three parts, one after the other. *)
Lemma handle_worker_exit_parts record_success record_failure slot_info exit_code timestamp p :
  Supervisor._handle_worker_exit record_success record_failure slot_info exit_code timestamp p =
  (Ignored._handle_worker_exit slot_info ≫= λ assigned : bool,
   if assigned then
     (if exit_code =? 0
      then record_success (hostname slot_info) (local_rank slot_info)
      else record_failure (hostname slot_info) (local_rank slot_info)) ≫=
     Released._handle_worker_exit slot_info exit_code timestamp
   else mret ()) p.
Proof.
  unfold Supervisor._handle_worker_exit, Ignored._handle_worker_exit,
    Released._handle_worker_exit.
  rewrite !bind_outcome, has_rank_assignment_run.
  by destruct (if is_blacklisted _ _ then _ else _).
Qed.

Section JobFrames.

Context `{Assigner}.

Context (R : Process → Process → Prop) `{!Reflexive R} `{!Transitive R}.

Hypothesis R_start : ∀ env np create_worker_fn,
  keeps R (Driver.start env np create_worker_fn).
Hypothesis R_stop : keeps R Driver.stop.
Hypothesis R_discovered : ∀ w, keeps R (Driver.discovered w).
Hypothesis R_exits : ∀ slot_info, keeps R (Ignored._handle_worker_exit slot_info).
Hypothesis R_block : ∀ env t, keeps R (block env t).
Hypothesis R_released : ∀ slot_info exit_code timestamp rendezvous_id,
  keeps R (Released._handle_worker_exit slot_info exit_code timestamp rendezvous_id).

Lemma run_keeps ev s : R (process s) (process (Job.run ev s)).
Proof.
  destruct ev as [env np fn| |w|slot_info|env i|slot_info exit_code timestamp rendezvous_id];
    cbn [Job.run process].
  - apply R_start.
  - apply R_stop.
  - apply R_discovered.
  - apply R_exits.
  - destruct (step env i s) as [s'|] eqn:Hs; cbn [from_option id]; [|reflexivity].
    eapply step_process; [apply R_block | exact Hs].
  - apply R_released.
Qed.

Lemma runs_keeps evs s : R (process s) (process (Job.runs evs s)).
Proof.
  unfold Job.runs. revert s. induction evs as [|ev evs IH]; intros s; cbn [foldl].
  - reflexivity.
  - etransitivity; [apply (run_keeps ev s) | apply IH].
Qed.

End JobFrames.

(** The threads keep their arguments. *)
Lemma run_keys `{Assigner} ev s :
  key <$> threads (Job.run ev s) = key <$> threads s ∧
  t_state <$> threads (Job.run ev s) = t_state <$> threads s.
Proof.
  destruct ev; cbn [Job.run threads]; try done.
  unfold step. destruct (threads s !! i) as [t|] eqn:Hi; [|done].
  destruct (block env t (process s)) as [[pc|e|] p']; cbn [from_option id threads]; [| |done].
  all: rewrite !list_fmap_insert; cbn; split;
    apply list_insert_id; by rewrite list_lookup_fmap, Hi.
Qed.

#[local] Instance preserves_refl I : Reflexive (preserves I).
Proof. intros p. by unfold preserves. Qed.

#[local] Instance preserves_trans I : Transitive (preserves I).
Proof. intros p q r. unfold preserves. tauto. Qed.

#[local] Instance publishes_refl : Reflexive publishes.
Proof. intros p. unfold publishes. by repeat split. Qed.

#[local] Instance publishes_trans : Transitive publishes.
Proof.
  intros p q r (Hpq & Hp & Hq) (Hqr & Hq' & Hr). split; [by etransitivity|].
  split; [tauto|]. intros Hne.
  destruct (decide (_results_map (_results (driver r)) = _results_map (_results (driver q))))
    as [Heq|Hneq]; [|tauto].
  apply Hq'. apply Hq. congruence.
Qed.

(** A step that touches neither the results nor the shutdown event. *)
Ltac publishes_leaf :=
  intros ?; unfold publishes; cbn; split; [reflexivity|]; split; [done|];
  intros Hne; by destruct Hne.

Lemma publishes_log r : keeps publishes (log r).
Proof. publishes_leaf. Qed.

Lemma publishes_reset n : keeps publishes (Registry.reset n).
Proof. publishes_leaf. Qed.

Lemma publishes_stop : keeps publishes Driver.stop.
Proof. intros p. unfold publishes. cbn. by repeat split. Qed.

Lemma publishes_discovered w : keeps publishes (Driver.discovered w).
Proof. unfold Driver.discovered. destruct (found w); publishes_leaf. Qed.

Lemma publishes_expect slot_info : keeps publishes (Res.expect slot_info).
Proof. publishes_leaf. Qed.

Lemma publishes_blacklist_failures failures :
  keeps publishes (Driver.blacklist_failures failures).
Proof. publishes_leaf. Qed.

#[local] Hint Resolve publishes_log publishes_reset publishes_stop publishes_discovered
  publishes_expect publishes_blacklist_failures : keeps.
#[local] Hint Extern 2 (keeps publishes (modify _)) => publishes_leaf : keeps.

Lemma publishes_wait_loop tmout min_np max_np ws :
  keeps publishes (Driver.wait_loop tmout min_np max_np ws).
Proof.
  induction ws as [|w ws IH]; simpl; keeps_method.
  unfold Driver.check_time_out_for. keeps_method.
Qed.

#[local] Hint Resolve publishes_wait_loop : keeps.

Lemma publishes_activate `{Assigner} env min_np :
  keeps publishes (Driver._activate_hosts env min_np).
Proof.
  unfold Driver._activate_hosts, Driver.wait_for_available_hosts,
    Driver._update_assigned_hosts, Driver._update_host_assignments, Driver.world_size,
    Driver._start_worker_processes, Driver._start_worker_process.
  keeps_method.
Qed.

#[local] Hint Resolve publishes_activate : keeps.

Lemma publishes_on_workers_recorded `{Assigner} env :
  keeps publishes (Driver.on_workers_recorded env).
Proof.
  unfold Driver.on_workers_recorded, Registry.size, Registry.count, Registry.get,
    Driver.world_size.
  keeps_method.
Qed.

#[local] Hint Resolve publishes_on_workers_recorded : keeps.

Lemma publishes_block `{Assigner} env t : keeps publishes (block env t).
Proof.
  unfold block. destruct (t_pc t);
    unfold _record_state_finished, _record_state_locked, except_BrokenBarrierError,
      _wait_enter, _wait_leave, _wait_except, _wait_locked, _action, reset_barrier,
      the_barrier, store_barrier, Driver.finished;
    keeps_method.
Qed.

Lemma publishes_released slot_info exit_code timestamp rendezvous_id :
  keeps publishes (Released._handle_worker_exit slot_info exit_code timestamp rendezvous_id).
Proof.
  intros p. unfold Released._handle_worker_exit. run_method.
  destruct (_shutdown (driver p)) eqn:Hstop; cbn [andb]; [|reflexivity].
  destruct (_ =? _); [|reflexivity].
  unfold publishes. cbn.
  destruct (_results_map (_results (driver p)) !! _) eqn:Hlook; cbn.
  - by rewrite Hstop.
  - split; [by apply insert_subseteq|]. by rewrite Hstop.
Qed.

Lemma publishes_runs `{Assigner} evs s :
  publishes (process s) (process (Job.runs evs s)).
Proof.
  apply (runs_keeps publishes).
  - intros env np fn. unfold Driver.start. keeps_method.
  - apply publishes_stop.
  - apply publishes_discovered.
  - intros slot_info. unfold Ignored._handle_worker_exit, Driver.has_rank_assignment.
    keeps_method.
  - apply publishes_block.
  - apply publishes_released.
Qed.

(** X7.  The shutdown event is never cleared: once [finished()] is true it
    stays true, whatever the launcher, the discovery thread, the threads
    inside [record_ready], [record_success] and [record_failure] and the
    supervisors do afterwards.  From then on every call of [record_ready],
    [record_success] or [record_failure] returns at its first step. *)
Theorem shutdown_is_final `{Assigner} evs s :
  _shutdown (driver (process s)) = true →
  _shutdown (driver (process (Job.runs evs s))) = true ∧
  (∀ env i t,
     threads (Job.runs evs s) !! i = Some t → t_pc t = at_finished_check →
     ∃ s', step env i (Job.runs evs s) = Some s' ∧
           (set_pc (returned (_rendezvous_id (registry (process (Job.runs evs s))))) t)
             ∈ threads s').
Proof.
  intros Hstop. destruct (publishes_runs evs s) as (_ & Hkeep & _).
  specialize (Hkeep Hstop). split; [exact Hkeep|].
  intros env i t Hi Hpc. unfold step. rewrite Hi. unfold block. rewrite Hpc.
  unfold _record_state_finished. run_method. rewrite Hkeep.
  eexists. split; [reflexivity|]. cbn [threads].
  eapply list_elem_of_lookup_2. apply list_lookup_insert_eq.
  by eapply lookup_lt_Some.
Qed.

(** After the shutdown on success, discovery and a second [start] leave
    the driver finished, and the late report of h1[1] returns at once. *)
Lemma shutdown_is_final_witness :
  _shutdown (driver (process (@Job.runs dense_assignments Scenarios.restart
                                Scenarios.after_the_end))) = true ∧
  (∀ env i t,
     threads (@Job.runs dense_assignments Scenarios.restart Scenarios.after_the_end) !! i
       = Some t →
     t_pc t = at_finished_check →
     ∃ s', @step dense_assignments env i
             (@Job.runs dense_assignments Scenarios.restart Scenarios.after_the_end)
             = Some s' ∧
           (set_pc (returned (_rendezvous_id
                                (registry (process
                                   (@Job.runs dense_assignments Scenarios.restart
                                      Scenarios.after_the_end))))) t) ∈ threads s').
Proof.
  apply (@shutdown_is_final dense_assignments Scenarios.restart Scenarios.after_the_end).
  vm_compute. reflexivity.
Defined.

(** X8.  The results only grow: a result that is in the dictionary stays
    there with its value, whatever the launcher, the discovery thread, the
    threads inside the registry and the supervisors do.  A result is added
    only by a supervisor that finds the shutdown event set, so that the
    dictionary of a driver that has not finished is as [__init__] left it,
    empty. *)
Theorem results_are_final `{Assigner} evs s :
  (∀ key value,
     _results_map (_results (driver (process s))) !! key = Some value →
     _results_map (_results (driver (process (Job.runs evs s)))) !! key = Some value) ∧
  (_results_map (_results (driver (process (Job.runs evs s)))) ≠
   _results_map (_results (driver (process s))) →
   _shutdown (driver (process (Job.runs evs s))) = true) ∧
  (∀ d calls,
     s = Job.boot d calls → _results d = new_Results →
     _shutdown (driver (process (Job.runs evs s))) = false →
     _results_map (_results (driver (process (Job.runs evs s)))) = ∅).
Proof.
  destruct (publishes_runs evs s) as (Hsub & _ & Hnew).
  split; [|split].
  - intros key value Hkey. eapply lookup_weaken; [exact Hkey | exact Hsub].
  - exact Hnew.
  - intros d calls -> Hinit Hrun.
    destruct (decide (_results_map (_results (driver (process (Job.runs evs (Job.boot d calls)))))
                      = ∅)) as [?|Hne]; [done|].
    rewrite Hnew in Hrun; [done|].
    cbn [Job.boot process driver]. by rewrite Hinit.
Qed.

(** ** The registry's two maps *)

Lemma indexed_reset n : keeps (preserves indexed) (Registry.reset n).
Proof.
  intros p _. unfold indexed, Registry.reset. run_method. cbn.
  split; intros key state; [by rewrite lookup_empty|].
  rewrite lookup_empty. cbn. set_solver.
Qed.

Lemma indexed_record host slot state :
  keeps (preserves indexed) (_record_state_locked host slot state).
Proof.
  assert (∀ p, indexed p →
            indexed (with_registry (λ r,
              mkRegistry (<[(host, slot) := state]> (_states r))
                (<[state := {[ (host, slot) ]} ∪ default ∅ (_workers r !! state)]> (_workers r))
                (_barrier r) (_rendezvous_id r) (_size r)) p)) as Hrec.
  { intros p [Hin Hout]. unfold indexed, with_registry, with_driver, registry in *.
    cbn [driver _worker_registry set_registry _states _workers] in *.
    split; intros key st.
    - destruct (decide (key = (host, slot))) as [->|Hne].
      + rewrite lookup_insert_eq. intros [= <-]. rewrite lookup_insert_eq. cbn. set_solver.
      + rewrite lookup_insert_ne by done. intros Hst. specialize (Hin _ _ Hst).
        destruct (decide (st = state)) as [->|Hs].
        * rewrite lookup_insert_eq. cbn. set_solver.
        * by rewrite lookup_insert_ne.
    - destruct (decide (st = state)) as [->|Hs].
      + rewrite lookup_insert_eq. cbn. rewrite elem_of_union, elem_of_singleton.
        intros [->|Hkey]; [by rewrite lookup_insert_eq|].
        destruct (decide (key = (host, slot))) as [->|Hne]; [by rewrite lookup_insert_eq|].
        rewrite lookup_insert_ne by done. by eapply Hout.
      + rewrite lookup_insert_ne by done. intros Hkey.
        destruct (decide (key = (host, slot))) as [->|Hne]; [by rewrite lookup_insert_eq|].
        rewrite lookup_insert_ne by done. by eapply Hout. }
  unfold _record_state_locked, reset_barrier, the_barrier, store_barrier.
  keeps_method; intros ? Hinv; exact Hinv.
Qed.

(** A step that leaves alone what the invariant reads. *)
Ltac untouched := intros ? Hinv; exact Hinv.

#[local] Hint Extern 3 (keeps (preserves _) (modify _)) => untouched : keeps.
#[local] Hint Extern 3 (keeps (preserves _) (log _)) => untouched : keeps.
#[local] Hint Extern 3 (keeps (preserves _) Driver.stop) => untouched : keeps.
#[local] Hint Extern 3 (keeps (preserves _) (Res.expect _)) => untouched : keeps.
#[local] Hint Extern 3 (keeps (preserves _) (Res.add_result _ _)) =>
  (intros ? Hinv; unfold Res.add_result, modify, with_driver; cbn [snd driver];
   destruct (_results_map _ !! _); exact Hinv) : keeps.
#[local] Hint Extern 3 (keeps (preserves _) (Driver.blacklist_failures _)) => untouched : keeps.
#[local] Hint Resolve indexed_reset indexed_record : keeps.

(** Unfolding the methods of the driver down to the steps that write. *)
Ltac unfold_driver :=
  unfold Driver.start, Driver.on_workers_recorded, Driver._activate_hosts,
    Driver.wait_for_available_hosts,
    Driver._update_assigned_hosts, Driver._update_host_assignments, Driver.world_size,
    Driver._start_worker_processes, Driver._start_worker_process,
    Driver.has_rank_assignment, Driver.finished,
    Registry.size, Registry.count, Registry.get, Registry.last_rendezvous,
    Ignored._handle_worker_exit, Released._handle_worker_exit.

Ltac unfold_block :=
  unfold block, _record_state_finished, except_BrokenBarrierError,
    _wait_enter, _wait_leave, _wait_except, _wait_locked, _action.

Lemma indexed_wait_loop tmout min_np max_np ws :
  keeps (preserves indexed) (Driver.wait_loop tmout min_np max_np ws).
Proof.
  induction ws as [|w ws IH]; simpl; keeps_method.
  - unfold Driver.discovered. keeps_method.
  - unfold Driver.check_time_out_for. keeps_method.
Qed.

#[local] Hint Resolve indexed_wait_loop : keeps.

Lemma indexed_runs `{Assigner} evs s :
  preserves indexed (process s) (process (Job.runs evs s)).
Proof.
  assert (∀ env, keeps (preserves indexed) (Driver.on_workers_recorded env)) as Haction
    by (intros env; unfold_driver; keeps_method).
  apply (runs_keeps (preserves indexed)).
  - intros env np fn. unfold_driver. keeps_method.
  - untouched.
  - intros w. unfold Driver.discovered. keeps_method.
  - intros slot_info. unfold_driver. keeps_method.
  - intros env t. unfold_block. destruct (t_pc t); unfold_driver;
      unfold reset_barrier, the_barrier, store_barrier; keeps_method.
  - intros slot_info exit_code timestamp rendezvous_id. unfold_driver. keeps_method.
Qed.

(** X9.  The state map and the index of workers by state stay in step,
    whatever the job does: the key of every recorded state is filed under
    that state, and every key filed under a state has a recorded state.
    So [count(state)] never exceeds the number of recorded keys. *)
Theorem states_and_workers_agree `{Assigner} evs s :
  indexed (process s) →
  indexed (process (Job.runs evs s)) ∧
  ∀ state,
    ∃ n, Registry.count state (process (Job.runs evs s)) =
           (Return n, process (Job.runs evs s)) ∧
         n ≤ Z.of_nat (size (_states (registry (process (Job.runs evs s))))).
Proof.
  intros Hs. pose proof (indexed_runs evs s Hs) as Hinv. split; [exact Hinv|].
  intros state. eexists. split; [reflexivity|].
  destruct Hinv as [_ Hout]. rewrite <- size_dom.
  apply inj_le, subseteq_size. intros key Hkey. apply elem_of_dom. by eapply Hout.
Qed.

(** The two maps of the registry agree all along the job of two
    workers. *)
Lemma states_and_workers_agree_witness :
  indexed (process (@Job.runs dense_assignments Scenarios.two_report Scenarios.booted)) ∧
  ∀ state,
    ∃ n, Registry.count state
           (process (@Job.runs dense_assignments Scenarios.two_report Scenarios.booted)) =
           (Return n,
            process (@Job.runs dense_assignments Scenarios.two_report Scenarios.booted)) ∧
         n ≤ Z.of_nat
               (size (_states (registry (process (@Job.runs dense_assignments
                                                    Scenarios.two_report Scenarios.booted))))).
Proof.
  apply (@states_and_workers_agree dense_assignments Scenarios.two_report Scenarios.booted).
  split; intros key state; cbn; rewrite lookup_empty; cbn; [done|set_solver].
Defined.

(** ** A state recorded over another *)


(** X10.  [_record_state] files the key under its new state and never
    takes it out of the set of another state.  A worker that records a
    second, different state in the same generation is then counted under
    both: [get] and [count] of the old state still include it, although
    the state map holds only the new state. *)
Theorem overridden_state_stays_counted host slot old new p b bar :
  _barrier (registry p) = Some b → barriers p !! b = Some bar →
  _states (registry p) !! (host, slot) = Some old →
  (host, slot) ∈ default ∅ (_workers (registry p) !! old) →
  old ≠ new →
  let p' := (_record_state_locked host slot new p).2 in
  (_record_state_locked host slot new p).1 =
    Return (at_barrier_wait (_rendezvous_id (registry p))) ∧
  _states (registry p') !! (host, slot) = Some new ∧
  (host, slot) ∈ default ∅ (_workers (registry p') !! new) ∧
  (host, slot) ∈ default ∅ (_workers (registry p') !! old) ∧
  (Registry.count old p').1 = (Registry.count old p).1 ∧
  (∀ state, default ∅ (_workers (registry p) !! state) ⊆
            default ∅ (_workers (registry p') !! state)).
Proof.
  intros Hb Hbar Hold Hin Hne.
  unfold _record_state_locked, reset_barrier, the_barrier, store_barrier. run_method.
  rewrite bool_decide_eq_true_2 by (by eexists). cbn beta iota.
  rewrite Hb. cbn beta iota. cbn [driver barriers logging]. rewrite Hbar.
  cbn beta iota. cbn [driver barriers logging fst snd _worker_registry set_registry
                      _states _workers _rendezvous_id].
  rewrite !lookup_insert_eq, !(lookup_insert_ne _ new old) by done.
  split; [done|]. split; [done|]. split; [cbn; set_solver|]. split; [done|].
  split; [done|].
  intros state. destruct (decide (new = state)) as [<-|Hs].
  - rewrite lookup_insert_eq. cbn. set_solver.
  - by rewrite lookup_insert_ne.
Qed.

(** h1[0] has reported ready and waits; its second report, a failure,
    leaves it counted as ready. *)
Lemma overridden_state_stays_counted_witness :
  let p := process Examples.one_waits in
  let p' := (_record_state_locked "h1" 0 FAILURE p).2 in
  (_record_state_locked "h1" 0 FAILURE p).1 =
    Return (at_barrier_wait (_rendezvous_id (registry p))) ∧
  _states (registry p') !! ("h1"%string, 0) = Some FAILURE ∧
  ("h1"%string, 0) ∈ default ∅ (_workers (registry p') !! FAILURE) ∧
  ("h1"%string, 0) ∈ default ∅ (_workers (registry p') !! READY) ∧
  (Registry.count READY p').1 = (Registry.count READY p).1 ∧
  (∀ state, default ∅ (_workers (registry p) !! state) ⊆
            default ∅ (_workers (registry p') !! state)).
Proof.
  apply (overridden_state_stays_counted "h1" 0 READY FAILURE (process Examples.one_waits)
           0%nat (mkBarrier 2 Filling 1)).
  - vm_compute. reflexivity.
  - vm_compute. reflexivity.
  - vm_compute. reflexivity.
  - apply (bool_decide_unpack _). vm_compute. exact I.
  - discriminate.
Defined.

(** ** The barriers are never broken *)

Lemma Barrier_reset_unbroken bar : Barrier_broken (Barrier_reset bar) = false.
Proof.
  destruct bar as [parties [] count]; unfold Barrier_reset, Barrier_broken; cbn;
    by destruct (0 <? count).
Qed.

Lemma Barrier_leave_unbroken bar :
  Barrier_broken bar = false → Barrier_broken (Barrier_leave bar) = false.
Proof.
  destruct bar as [parties [] count]; unfold Barrier_leave, Barrier_exit, Barrier_broken;
    cbn; by destruct (_ =? 0).
Qed.

Lemma unbroken_store b bar p :
  unbroken p → Barrier_broken bar = false →
  unbroken (with_barriers (λ bs, <[b := bar]> bs) p).
Proof. intros Hp Hbar. unfold unbroken. cbn. by apply Forall_insert. Qed.

Lemma unbroken_reset n : keeps (preserves unbroken) (Registry.reset n).
Proof.
  intros p Hp. unfold unbroken, Registry.reset in *. run_method. cbn.
  apply Forall_app. split; [exact Hp|]. by repeat constructor.
Qed.

#[local] Hint Resolve unbroken_reset : keeps.

(** A barrier is stored that is not broken. *)
Ltac unbroken_leaf :=
  intros ? Hinv; apply unbroken_store; [exact Hinv|];
  first
    [ apply Barrier_reset_unbroken
    | apply Barrier_leave_unbroken; reflexivity
    | unfold Barrier_broken, set_count; cbn [_state];
      match goal with E : _state _ = _ |- _ => by rewrite E end ].

#[local] Hint Extern 2 (keeps (preserves unbroken) (modify (with_barriers _))) =>
  unbroken_leaf : keeps.


Lemma unbroken_wait_loop tmout min_np max_np ws :
  keeps (preserves unbroken) (Driver.wait_loop tmout min_np max_np ws).
Proof.
  induction ws as [|w ws IH]; simpl; keeps_method.
  - unfold Driver.discovered. keeps_method.
  - unfold Driver.check_time_out_for. keeps_method.
Qed.

#[local] Hint Resolve unbroken_wait_loop : keeps.





Section Outcomes.

Context {A : Type}.













End Outcomes.












(** ** The table and the published slots *)

Lemma grouped_assignments slots :
  keeps (preserves grouped)
    (modify (with_driver (set_assignments slots (Driver.group_by_hostname slots)
                            (Z.of_nat (length slots))))).
Proof.
  intros p _. unfold grouped. cbn. split; [|done].
  intros host. apply group_by_hostname_lookup.
Qed.

#[local] Hint Resolve grouped_assignments : keeps.

Lemma grouped_reset n : keeps (preserves grouped) (Registry.reset n).
Proof. untouched. Qed.

#[local] Hint Resolve grouped_reset : keeps.

Lemma grouped_wait_loop tmout min_np max_np ws :
  keeps (preserves grouped) (Driver.wait_loop tmout min_np max_np ws).
Proof.
  induction ws as [|w ws IH]; simpl; keeps_method.
  - unfold Driver.discovered. keeps_method.
  - unfold Driver.check_time_out_for. keeps_method.
Qed.

#[local] Hint Resolve grouped_wait_loop : keeps.

Lemma grouped_runs `{Assigner} evs s :
  preserves grouped (process s) (process (Job.runs evs s)).
Proof.
  assert (∀ env, keeps (preserves grouped) (Driver.on_workers_recorded env)) as Haction
    by (intros env; unfold_driver; keeps_method).
  apply (runs_keeps (preserves grouped)).
  - intros env np fn. unfold_driver. keeps_method.
  - untouched.
  - intros w. unfold Driver.discovered. keeps_method.
  - intros slot_info. unfold_driver. keeps_method.
  - intros env t. unfold_block. destruct (t_pc t); unfold_driver;
      unfold _record_state_locked, reset_barrier, the_barrier, store_barrier; keeps_method.
  - intros slot_info exit_code timestamp rendezvous_id. unfold_driver. keeps_method.
Qed.

(** X12.  Along every run of the job the table of host assignments is the
    grouping by host of the slots last published to the rendezvous server,
    and the world size is their number.  So the slot that [get_slot_info]
    gives for a host and a slot from 0 on is the slot at that place among
    the published slots that name the host, and [INVALID_SLOT_INFO] when
    the host is blacklisted or has no such slot. *)
Theorem slot_info_names_its_host `{Assigner} `{InvalidSlot} evs s host slot :
  grouped (process s) → 0 ≤ slot →
  let p := process (Job.runs evs s) in
  grouped p ∧
  Slots.get_slot_info host slot p =
    Found (if is_blacklisted (_discovered_hosts (driver p)) host then INVALID_SLOT_INFO
           else default INVALID_SLOT_INFO
                  (filter (λ slot_info, hostname slot_info = host) (_rendezvous (driver p))
                   !! Z.to_nat slot)) ∧
  (∀ slot_info,
     Slots.get_slot_info host slot p = Found slot_info →
     slot_info = INVALID_SLOT_INFO ∨
     hostname slot_info = host ∧ slot_info ∈ _rendezvous (driver p)).
Proof.
  intros Hs Hslot p. pose proof (grouped_runs evs s Hs) as Hg. fold p in Hg.
  split; [exact Hg|].
  assert (Slots.get_slot_info host slot p =
    Found (if is_blacklisted (_discovered_hosts (driver p)) host then INVALID_SLOT_INFO
           else default INVALID_SLOT_INFO
                  (filter (λ slot_info, hostname slot_info = host) (_rendezvous (driver p))
                   !! Z.to_nat slot))) as Hget.
  { destruct Hg as [Htable _]. by rewrite (get_slot_info_from_zero host slot p), Htable. }
  split; [exact Hget|].
  intros slot_info. rewrite Hget. intros [= <-].
  destruct (is_blacklisted _ _); [by left|].
  destruct (filter _ _ !! Z.to_nat slot) as [slot_info|] eqn:Hl; [|by left].
  right. apply list_elem_of_lookup_2, list_elem_of_filter in Hl. tauto.
Qed.

(** In the job of two workers, slot 1 of h1 is a slot published for h1. *)
Lemma slot_info_names_its_host_witness :
  let p := process (@Job.runs dense_assignments Scenarios.two_report Scenarios.booted) in
  grouped p ∧
  @Slots.get_slot_info Scenarios.invalid "h1" 1 p =
    Found (if is_blacklisted (_discovered_hosts (driver p)) "h1" then Scenarios.invalid
           else default Scenarios.invalid
                  (filter (λ slot_info, hostname slot_info = "h1"%string)
                     (_rendezvous (driver p)) !! Z.to_nat 1)) ∧
  (∀ slot_info,
     @Slots.get_slot_info Scenarios.invalid "h1" 1 p = Found slot_info →
     slot_info = Scenarios.invalid ∨
     hostname slot_info = "h1"%string ∧ slot_info ∈ _rendezvous (driver p)).
Proof.
  apply (@slot_info_names_its_host dense_assignments Scenarios.invalid
           Scenarios.two_report Scenarios.booted "h1" 1).
  - split; [intros host|]; reflexivity.
  - lia.
Defined.

(** ** An activation *)

Lemma update_host_assignments_run `{Assigner} p :
  Driver._update_host_assignments p =
    match get_host_assignments (host_list (driver p)) (_min_np (driver p))
            (_max_np (driver p)) with
    | inl e => (Raise e, p)
    | inr slots =>
        (Return (),
         with_driver (set_assignments slots (Driver.group_by_hostname slots)
                        (Z.of_nat (length slots))) p)
    end.
Proof.
  unfold Driver._update_host_assignments, host_list. run_monad.
  by destruct (get_host_assignments _ _ _).
Qed.

Lemma update_assigned_hosts_run `{Assigner} p :
  let q := with_driver (set_assigned_hosts (kept_hosts (driver p) ++ new_hosts (driver p))) p in
  Driver._update_assigned_hosts p =
    match get_host_assignments (host_list (driver q)) (_min_np (driver p))
            (_max_np (driver p)) with
    | inl e => (Raise e, q)
    | inr slots =>
        (Return (new_hosts (driver p)),
         with_driver (set_assignments slots (Driver.group_by_hostname slots)
                        (Z.of_nat (length slots))) q)
    end.
Proof.
  cbn zeta. unfold Driver._update_assigned_hosts.
  rewrite bind_outcome. unfold gets at 1. cbn beta iota zeta.
  rewrite bind_outcome. unfold modify at 1. cbn beta iota.
  rewrite bind_outcome, update_host_assignments_run.
  fold (kept_hosts (driver p)). fold (new_hosts (driver p)).
  cbn [with_driver driver set_assigned_hosts _min_np _max_np].
  by destruct (get_host_assignments _ _ _).
Qed.

#[local] Instance same_registry_refl : Reflexive same_registry.
Proof. by intros p. Qed.

#[local] Instance same_registry_trans : Transitive same_registry.
Proof. intros p q r (? & ? & ?) (? & ? & ?). unfold same_registry. split_and!; congruence. Qed.

#[local] Hint Extern 2 (keeps same_registry (modify _)) => (by intros ?) : keeps.
#[local] Hint Extern 2 (keeps same_registry (log _)) => (by intros ?) : keeps.

Lemma same_registry_wait_loop tmout min_np max_np ws :
  keeps same_registry (Driver.wait_loop tmout min_np max_np ws).
Proof.
  induction ws as [|w ws IH]; simpl; keeps_method.
  - unfold Driver.discovered. keeps_method.
  - unfold Driver.check_time_out_for. keeps_method.
Qed.

Lemma expect_all_nil p : expect_all [] p = p.
Proof.
  destruct p as [[? ? ? ? ? ? ? ? ? ? [] ?] ? ?].
  unfold expect_all, with_driver, set_results. cbn. by rewrite app_nil_r.
Qed.

Lemma expect_all_app slots slots' p :
  expect_all slots' (expect_all slots p) = expect_all (slots ++ slots') p.
Proof. unfold expect_all, with_driver, set_results. cbn. by rewrite app_assoc. Qed.

(** The loop of [_start_worker_processes]. *)
Lemma start_worker_processes_run host p :
  Driver._start_worker_processes host p =
    (Return (), expect_all (default [] (_host_assignments (driver p) !! host)) p).
Proof.
  unfold Driver._start_worker_processes. rewrite bind_outcome. unfold gets at 1.
  cbn beta iota. generalize (default [] (_host_assignments (driver p) !! host)).
  intros slots. revert p. induction slots as [|slot_info slots IH]; intros p.
  - by rewrite expect_all_nil.
  - cbn [foldr]. rewrite bind_outcome.
    unfold Driver._start_worker_process at 1, Res.expect, modify at 1. cbn beta iota.
    rewrite IH. f_equal.
    change (with_driver _ p) with (expect_all [slot_info] p).
    by rewrite expect_all_app.
Qed.

(** The loop of [_activate_hosts] that starts the workers of the new
    hosts. *)
Lemma start_workers_run hosts p :
  foldr (λ host rest,
           log (info_start_workers host);; Driver._start_worker_processes host;; rest)
        (mret ()) hosts p =
    (Return (),
     mkProcess (driver (expect_all (slots_of (_host_assignments (driver p)) hosts) p))
       (barriers p) (logging p ++ (info_start_workers <$> hosts))).
Proof.
  revert p. induction hosts as [|host hosts IH]; intros p.
  - cbn [foldr fmap list_fmap]. unfold slots_of. cbn [mbind list_bind].
    rewrite expect_all_nil, app_nil_r. by destruct p.
  - cbn [foldr]. rewrite bind_outcome. unfold log at 1, modify at 1. cbn beta iota.
    rewrite bind_outcome, start_worker_processes_run. cbn beta iota. rewrite IH.
    f_equal. unfold slots_of. cbn [mbind list_bind fmap list_fmap].
    unfold expect_all, with_driver, set_results. cbn. rewrite <- !app_assoc. reflexivity.
Qed.

(** What a call of [_activate_hosts] that returns has done. *)
Lemma activate_hosts_returns `{Assigner} env min_np p p' :
  Driver._activate_hosts env min_np p = (Return (), p') →
  ∃ p1 slots,
    Driver.wait_for_available_hosts env min_np None (log (info_wait_for_hosts min_np) p).2
      = (Return (), p1) ∧
    let q := with_driver
               (set_assigned_hosts (kept_hosts (driver p1) ++ new_hosts (driver p1))) p1 in
    get_host_assignments (host_list (driver q)) (_min_np (driver p1)) (_max_np (driver p1))
      = inr slots ∧
    let p2 := with_driver (set_assignments slots (Driver.group_by_hostname slots)
                             (Z.of_nat (length slots))) q in
    let p3 := (Registry.reset (Z.of_nat (length slots)) p2).2 in
    p' = mkProcess
           (driver (expect_all (slots_of (Driver.group_by_hostname slots)
                                  (new_hosts (driver p1))) p3))
           (barriers p3) (logging p3 ++ (info_start_workers <$> new_hosts (driver p1))).
Proof.
  unfold Driver._activate_hosts. rewrite bind_outcome. unfold log at 1, modify at 1.
  cbn beta iota. rewrite bind_outcome.
  destruct (Driver.wait_for_available_hosts env min_np None _) as [[[]|e|] p1] eqn:Hwait;
    [|done..].
  rewrite bind_outcome, update_assigned_hosts_run. cbn zeta.
  destruct (get_host_assignments _ _ _) as [e|slots] eqn:Hassign; [done|].
  rewrite bind_outcome. unfold Driver.world_size, gets at 1. cbn beta iota.
  rewrite bind_outcome.
  cbn [with_driver driver set_assignments _world_size].
  match goal with |- context [Registry.reset ?n ?q] =>
    change (Registry.reset n q) with (Return (), (Registry.reset n q).2) end.
  cbn beta iota. rewrite start_workers_run. intros [= <-].
  by exists p1, slots.
Qed.

(** X13.  When [_activate_hosts] returns, a generation has started: the
    registry's size, the parties of its barrier and the driver's world size
    are one number, the number of slots published to the rendezvous
    server; the rendezvous id has grown by one; no state is recorded; the
    barrier is a new one, with no thread inside; and at least [min_np]
    slots are available.  In a driver that has not finished, the process
    is then where a barrier cycle of world-size threads starts. *)
Theorem activation_starts_a_generation `{Assigner} env min_np p p' :
  Driver._activate_hosts env min_np p = (Return (), p') →
  min_np ≤ count_available_slots (_discovered_hosts (driver p')) ∧
  _world_size (driver p') = Z.of_nat (length (_rendezvous (driver p'))) ∧
  _size (registry p') = _world_size (driver p') ∧
  _rendezvous_id (registry p') = _rendezvous_id (registry p) + 1 ∧
  _states (registry p') = ∅ ∧
  _workers (registry p') = ∅ ∧
  _barrier (registry p') = Some (length (barriers p)) ∧
  barriers p' = barriers p ++ [new_Barrier (_world_size (driver p'))] ∧
  _shutdown (driver p') = _shutdown (driver p) ∧
  (∀ ts, _shutdown (driver p) = false →
         Z.of_nat (length ts) = _world_size (driver p') →
         fresh_generation p' ts).
Proof.
  intros Hrun.
  destruct (activate_hosts_returns env min_np p p' Hrun) as (p1 & slots & Hwait & _ & ->).
  assert (same_registry p p1) as (Hreg & Hbar & Hstop).
  { assert (keeps same_registry
              (log (info_wait_for_hosts min_np) ≫= λ _,
               Driver.wait_for_available_hosts env min_np None)) as Hkeep
      by (unfold Driver.wait_for_available_hosts; keeps_method;
          apply same_registry_wait_loop).
    specialize (Hkeep p). rewrite bind_outcome in Hkeep.
    unfold log at 1, modify at 1 in Hkeep. cbn beta iota in Hkeep.
    unfold log, modify in Hwait. cbn [snd] in Hwait. by rewrite Hwait in Hkeep. }
  assert (min_np ≤ count_available_slots (_discovered_hosts (driver p1))) as Hslots.
  { pose proof (wait_loop_ends
                  (new_Timeout (clock env)
                     (_start_timeout (driver (log (info_wait_for_hosts min_np) p).2)))
                  min_np None (wakeups env) (log (info_wait_for_hosts min_np) p).2) as Hend.
    change (Driver.wait_loop _ min_np None (wakeups env) _)
      with (Driver.wait_for_available_hosts env min_np None
              (log (info_wait_for_hosts min_np) p).2) in Hend.
    rewrite Hwait in Hend. unfold Driver._has_available_slots in Hend.
    rewrite andb_true_r in Hend. lia. }
  unfold registry in *.
  cbn [driver barriers logging expect_all with_driver set_results set_assignments
       set_assigned_hosts set_registry Registry.reset snd with_registry with_barriers
       _worker_registry _world_size _rendezvous _discovered_hosts _shutdown
       _size _rendezvous_id _states _workers _barrier].
  unfold Registry.reset. run_monad.
  cbn [driver barriers logging expect_all with_driver set_results set_assignments
       set_assigned_hosts set_registry snd with_registry with_barriers
       _worker_registry _world_size _rendezvous _discovered_hosts _shutdown
       _size _rendezvous_id _states _workers _barrier].
  rewrite Hreg, Hbar, Hstop.
  split; [exact Hslots|]. do 8 (split; [done|]).
  intros ts Hnot Hlen.
  constructor; unfold barrier_of, registry, expect_all, Registry.reset; run_monad;
    cbn [driver barriers logging expect_all with_driver set_results set_assignments
         set_assigned_hosts set_registry snd with_registry with_barriers
         _worker_registry _world_size _rendezvous _discovered_hosts _shutdown
         _size _rendezvous_id _states _workers _barrier from_option id];
    rewrite ?Hreg, ?Hbar, ?Hstop; try done.
  rewrite list_lookup_middle by done. by rewrite Hlen.
Qed.

(** The first activation, on h1 with its two slots, starts a generation
    of two. *)
Lemma activation_starts_a_generation_witness :
  2 ≤ count_available_slots (_discovered_hosts (driver Scenarios.activated)) ∧
  _world_size (driver Scenarios.activated) =
    Z.of_nat (length (_rendezvous (driver Scenarios.activated))) ∧
  _size (registry Scenarios.activated) = _world_size (driver Scenarios.activated) ∧
  _rendezvous_id (registry Scenarios.activated) =
    _rendezvous_id (registry Scenarios.discovered_h1) + 1 ∧
  _states (registry Scenarios.activated) = ∅ ∧
  _workers (registry Scenarios.activated) = ∅ ∧
  _barrier (registry Scenarios.activated) = Some (length (barriers Scenarios.discovered_h1)) ∧
  barriers Scenarios.activated =
    barriers Scenarios.discovered_h1 ++ [new_Barrier (_world_size (driver Scenarios.activated))] ∧
  _shutdown (driver Scenarios.activated) = _shutdown (driver Scenarios.discovered_h1) ∧
  (∀ ts, _shutdown (driver Scenarios.discovered_h1) = false →
         Z.of_nat (length ts) = _world_size (driver Scenarios.activated) →
         fresh_generation Scenarios.activated ts).
Proof.
  apply (@activation_starts_a_generation dense_assignments Examples.quiet 2
           Scenarios.discovered_h1 Scenarios.activated).
  vm_compute. reflexivity.
Defined.

#[local] Instance discovers_refl : Reflexive discovers.
Proof. intros p. split; [|done]. by destruct (driver p). Qed.

#[local] Instance discovers_trans : Transitive discovers.
Proof.
  intros p q r (Hq & Hb) (Hr & Hb'). split; [|congruence]. by rewrite Hr, Hq.
Qed.

Lemma discovers_log r : keeps discovers (log r).
Proof. intros p. split; [|done]. cbn. by destruct (driver p). Qed.

#[local] Hint Resolve discovers_log : keeps.

Lemma discovers_discovered w : keeps discovers (Driver.discovered w).
Proof.
  intros p. unfold Driver.discovered. destruct (found w); [|reflexivity]. by split.
Qed.

#[local] Hint Resolve discovers_discovered : keeps.

Lemma discovers_wait env min_np max_np :
  keeps discovers (Driver.wait_for_available_hosts env min_np max_np).
Proof.
  unfold Driver.wait_for_available_hosts. keeps_method.
  induction (wakeups env) as [|w ws IH]; simpl; keeps_method.
  unfold Driver.check_time_out_for. keeps_method.
Qed.

#[local] Hint Resolve discovers_wait : keeps.

Lemma elem_of_slots_of slots hosts slot_info :
  slot_info ∈ slots_of (Driver.group_by_hostname slots) hosts ↔
  slot_info ∈ slots ∧ hostname slot_info ∈ hosts.
Proof.
  unfold slots_of. rewrite list_elem_of_bind. split.
  - intros (host & Hin & Hhost).
    destruct (group_by_hostname_lookup slots host) as (Hl & _). rewrite Hl in Hin.
    apply list_elem_of_filter in Hin as [<- ?]. by split.
  - intros [Hin Hhost]. exists (hostname slot_info). split; [|done].
    destruct (group_by_hostname_lookup slots (hostname slot_info)) as (Hl & _).
    rewrite Hl. by apply list_elem_of_filter.
Qed.

(** X14.  An activation starts workers on the newly assigned hosts and on no
    other.  The hosts that were assigned and are still available keep
    their place at the head of the assigned hosts, and the available hosts
    that were not assigned follow, in discovery order; the worker threads
    handed to [Results.expect] are the published slots of these new hosts,
    host after host.  No worker is started on a host that stays
    assigned, and none on a blacklisted host. *)
Theorem workers_start_on_new_hosts_only `{Assigner} env min_np p p' :
  Driver._activate_hosts env min_np p = (Return (), p') →
  let hosts := _discovered_hosts (driver p') in
  let kept := filter_available_hosts hosts (_assigned_hosts (driver p)) in
  let added := filter (λ host, host ∉ kept) (get_available_hosts hosts) in
  let started := slots_of (_host_assignments (driver p')) added in
  _assigned_hosts (driver p') = kept ++ added ∧
  _worker_threads (_results (driver p')) =
    _worker_threads (_results (driver p)) ++ started ∧
  _results_map (_results (driver p')) = _results_map (_results (driver p)) ∧
  (∀ slot_info, slot_info ∈ started ↔
                slot_info ∈ _rendezvous (driver p') ∧ hostname slot_info ∈ added) ∧
  (∀ slot_info, slot_info ∈ started →
                (hostname slot_info ∉ kept) ∧
                is_blacklisted hosts (hostname slot_info) = false).
Proof.
  intros Hrun.
  destruct (activate_hosts_returns env min_np p p' Hrun) as (p1 & slots & Hwait & _ & ->).
  assert (discovers p p1) as (Hd & _).
  { assert (keeps discovers
              (log (info_wait_for_hosts min_np) ≫= λ _,
               Driver.wait_for_available_hosts env min_np None)) as Hkeep
      by keeps_method.
    specialize (Hkeep p). rewrite bind_outcome in Hkeep.
    unfold log at 1, modify at 1 in Hkeep. cbn beta iota in Hkeep.
    unfold log, modify in Hwait. cbn [snd] in Hwait. by rewrite Hwait in Hkeep. }
  unfold Registry.reset, expect_all. run_monad.
  cbn [driver barriers logging with_driver set_results set_assignments
       set_assigned_hosts set_registry snd with_registry with_barriers
       _worker_registry _world_size _rendezvous _discovered_hosts _shutdown
       _assigned_hosts _host_assignments _results _worker_threads _results_map].
  assert (kept_hosts (driver p1) =
          filter_available_hosts (_discovered_hosts (driver p1)) (_assigned_hosts (driver p)))
    as Hkept by (unfold kept_hosts; by rewrite Hd).
  assert (_results (driver p1) = _results (driver p)) as Hres by by rewrite Hd.
  unfold new_hosts. rewrite Hkept, Hres.
  split; [done|]. split; [done|]. split; [done|]. split.
  - intros slot_info. apply elem_of_slots_of.
  - intros slot_info Hin. apply elem_of_slots_of in Hin as [_ Hin].
    apply list_elem_of_filter in Hin as [? Havail]. split; [done|].
    unfold get_available_hosts in Havail.
    apply list_elem_of_fmap in Havail as ([h n] & -> & Hfound).
    apply list_elem_of_filter in Hfound as [Hnot _].
    unfold is_blacklisted. by apply bool_decide_eq_false_2.
Qed.

(** The first activation starts the two workers of h1, which is new. *)
Lemma workers_start_on_new_hosts_only_witness :
  let hosts := _discovered_hosts (driver Scenarios.activated) in
  let kept := filter_available_hosts hosts (_assigned_hosts (driver Scenarios.discovered_h1)) in
  let added := filter (λ host, host ∉ kept) (get_available_hosts hosts) in
  let started := slots_of (_host_assignments (driver Scenarios.activated)) added in
  _assigned_hosts (driver Scenarios.activated) = kept ++ added ∧
  _worker_threads (_results (driver Scenarios.activated)) =
    _worker_threads (_results (driver Scenarios.discovered_h1)) ++ started ∧
  _results_map (_results (driver Scenarios.activated)) =
    _results_map (_results (driver Scenarios.discovered_h1)) ∧
  (∀ slot_info, slot_info ∈ started ↔
                slot_info ∈ _rendezvous (driver Scenarios.activated) ∧
                hostname slot_info ∈ added) ∧
  (∀ slot_info, slot_info ∈ started →
                (hostname slot_info ∉ kept) ∧
                is_blacklisted hosts (hostname slot_info) = false).
Proof.
  apply (@workers_start_on_new_hosts_only dense_assignments Examples.quiet 2
           Scenarios.discovered_h1 Scenarios.activated).
  vm_compute. reflexivity.
Defined.

(** ** The assigned hosts *)

Lemma filter_all {A} (P : A → Prop) `{∀ x, Decision (P x)} (l : list A) :
  Forall P l → filter P l = l.
Proof.
  induction 1 as [|x l Hx Hl IH]; [done|]. rewrite filter_cons, IH.
  by destruct (decide (P x)).
Qed.

Lemma filter_none {A} (P : A → Prop) `{∀ x, Decision (P x)} (l : list A) :
  Forall (λ x, ¬ P x) l → filter P l = [].
Proof.
  induction 1 as [|x l Hx Hl IH]; [done|]. rewrite filter_cons, IH.
  by destruct (decide (P x)).
Qed.

(** X15.  Whether [_update_assigned_hosts] returns or the assigner makes
    it raise, the assigned hosts are afterwards the hosts it kept followed
    by the hosts it added; each of them is available and none is
    blacklisted.  The new hosts are assigned before the assigner is
    called, so that they count as assigned also when it raises.  A second
    call, made before discovery reports anything else, keeps every
    assigned host and finds no new one. *)
Theorem assigned_hosts_are_available `{Assigner} p :
  let q := (Driver._update_assigned_hosts p).2 in
  _discovered_hosts (driver q) = _discovered_hosts (driver p) ∧
  _assigned_hosts (driver q) = kept_hosts (driver p) ++ new_hosts (driver p) ∧
  (∀ host, host ∈ _assigned_hosts (driver q) →
           host ∈ get_available_hosts (_discovered_hosts (driver q)) ∧
           is_blacklisted (_discovered_hosts (driver q)) host = false) ∧
  kept_hosts (driver q) = _assigned_hosts (driver q) ∧
  new_hosts (driver q) = [] ∧
  (∀ added q', Driver._update_assigned_hosts q = (Return added, q') →
               added = [] ∧ _assigned_hosts (driver q') = _assigned_hosts (driver q)).
Proof.
  cbn zeta. pose proof (update_assigned_hosts_run p) as Hrun. cbn zeta in Hrun.
  set (q0 := with_driver
               (set_assigned_hosts (kept_hosts (driver p) ++ new_hosts (driver p))) p) in *.
  assert (_discovered_hosts (driver (Driver._update_assigned_hosts p).2) =
            _discovered_hosts (driver p) ∧
          _assigned_hosts (driver (Driver._update_assigned_hosts p).2) =
            kept_hosts (driver p) ++ new_hosts (driver p)) as [Hdh Has].
  { rewrite Hrun. by destruct (get_host_assignments _ _ _). }
  set (q := (Driver._update_assigned_hosts p).2) in *. clearbody q. clear Hrun q0.
  assert (∀ host, host ∈ _assigned_hosts (driver q) →
                  host ∈ get_available_hosts (_discovered_hosts (driver q))) as Havail.
  { intros host. rewrite Has, Hdh, elem_of_app. unfold kept_hosts, new_hosts,
      filter_available_hosts. rewrite !list_elem_of_filter. tauto. }
  assert (kept_hosts (driver q) = _assigned_hosts (driver q)) as Hkept.
  { unfold kept_hosts at 1, filter_available_hosts. apply filter_all.
    apply Forall_forall. exact Havail. }
  assert (new_hosts (driver q) = []) as Hnew.
  { unfold new_hosts. rewrite Hkept. apply filter_none, Forall_forall.
    intros host Hhost Hnot. apply Hnot. rewrite Has, Hdh in *. rewrite elem_of_app.
    destruct (decide (host ∈ kept_hosts (driver p))) as [?|Hk]; [by left|right].
    unfold new_hosts. by apply list_elem_of_filter. }
  split; [done|]. split; [done|]. split; [|split; [done|split; [done|]]].
  - intros host Hhost. split; [by apply Havail|].
    specialize (Havail host Hhost). unfold get_available_hosts in Havail.
    apply list_elem_of_fmap in Havail as ([h n] & -> & Hin).
    apply list_elem_of_filter in Hin as [Hnot _].
    unfold is_blacklisted. by apply bool_decide_eq_false_2.
  - intros added q' Hsecond.
    pose proof (update_assigned_hosts_run q) as Hrun. cbn zeta in Hrun.
    rewrite Hsecond, Hkept, Hnew, app_nil_r in Hrun.
    destruct (get_host_assignments _ _ _); [done|]. by injection Hrun as -> ->.
Qed.

(** ** Notifying the workers *)

Section Notifications.

Import Notify.

Context {Addresses SecretKey : Type}.

Lemma dict_get_setitem {V} key key' (value : V) d :
  dict_get key (dict_setitem key' value d) =
  if decide (key' = key) then Some value else dict_get key d.
Proof.
  unfold dict_get.
  assert (∀ o : option (nat * ((string * Z) * V)),
            (λ found, found.2.2) <$> (prod_map S id <$> o) = (λ found, found.2.2) <$> o)
    as Hshift by (by intros [[? ?]|]).
  induction d as [|[k v] d IH]; cbn [dict_setitem list_find fst].
  - cbn. by destruct (decide (key' = key)).
  - destruct (decide (k = key')) as [->|Hk]; cbn [list_find fst].
    + destruct (decide (key' = key)); [done|]. by rewrite !Hshift.
    + destruct (decide (k = key)) as [->|Hkey].
      * destruct (decide (key' = key)); [congruence|done].
      * by rewrite !Hshift.
Qed.

Lemma dict_setitem_keys {V} key (value : V) d :
  NoDup d.*1 → NoDup (dict_setitem key value d).*1.
Proof.
  assert (∀ k, k ∈ (dict_setitem key value d).*1 → k = key ∨ k ∈ d.*1) as Hin.
  { induction d as [|[k' v] d IH]; intros k; cbn [dict_setitem].
    - cbn. rewrite list_elem_of_singleton. by left.
    - destruct (decide (k' = key)) as [->|Hk]; cbn; rewrite !elem_of_cons;
        [tauto|]. intros [->|Hk']; [tauto|]. destruct (IH k Hk'); tauto. }
  clear Hin. induction d as [|[k' v] d IH]; intros Hd; cbn [dict_setitem].
  - cbn. apply NoDup_singleton.
  - apply NoDup_cons in Hd as [Hk' Hd]. destruct (decide (k' = key)) as [->|Hk].
    + cbn. by apply NoDup_cons.
    + cbn. apply NoDup_cons. split; [|by apply IH].
      intros Hin. apply Hk'. clear IH Hd Hk'.
      induction d as [|[k'' v'] d IH]; cbn [dict_setitem] in Hin.
      * cbn in Hin. apply list_elem_of_singleton in Hin. congruence.
      * destruct (decide (k'' = key)) as [->|Hk'']; cbn in *;
          rewrite elem_of_cons in *; [destruct Hin; [congruence|tauto]|].
        destruct Hin as [?|Hin]; [tauto|]. right. by apply IH.
Qed.

Lemma registered_snoc verbosity servers (server : (string * Z) * (Addresses * SecretKey)) :
  registered verbosity (servers ++ [server]) =
  register_worker_server server.1.1 server.1.2 server.2.1 server.2.2
    (registered verbosity servers).
Proof. unfold registered. by rewrite foldl_app. Qed.

Lemma registered_verbose verbosity (servers : list ((string * Z) * (Addresses * SecretKey))) :
  _verbose (registered verbosity servers) = verbosity.
Proof.
  induction servers as [|server servers IH] using rev_ind; [done|].
  by rewrite registered_snoc.
Qed.

(** X16.  After any sequence of calls of [register_worker_server], the
    driver holds one client for each (host, slot) that registered, made
    from the addresses and the key of its last registration.
    [_notify_workers_host_changes] then calls [notify_hosts_updated] once
    on every one of these clients, in the order of the dict and with one
    timestamp, whether or not the calls before it failed; it prints a
    warning for exactly the clients whose call failed when [_verbose] is
    at least 2, and none otherwise. *)
Theorem every_registered_worker_is_notified verbosity
    (servers : list ((string * Z) * (Addresses * SecretKey)))
    (delivered : WorkerNotificationClient Addresses SecretKey → Z → bool) timestamp :
  let n := registered verbosity servers in
  let effects := _notify_workers_host_changes delivered timestamp n in
  NoDup (_worker_clients n).*1 ∧
  (∀ key, dict_get key (_worker_clients n) =
          (λ server : Addresses * SecretKey, mkClient server.1 server.2 verbosity) <$>
          last_registered key servers) ∧
  calls_of effects = (λ entry, (entry.2, timestamp)) <$> _worker_clients n ∧
  warnings_of effects =
    if 2 <=? verbosity
    then (filter (λ entry, delivered entry.2 timestamp = false) (_worker_clients n)).*1
    else [].
Proof.
  cbn zeta. split; [|split; [|split]].
  - induction servers as [|server servers IH] using rev_ind; [apply NoDup_nil_2|].
    rewrite registered_snoc. cbn. by apply dict_setitem_keys.
  - intros key. induction servers as [|server servers IH] using rev_ind; [done|].
    rewrite registered_snoc. cbn [register_worker_server _worker_clients].
    rewrite dict_get_setitem, IH, registered_verbose.
    unfold last_registered. rewrite reverse_snoc. cbn [list_find].
    destruct server as [[host slot] [addrs k]]. cbn [fst snd].
    destruct (decide ((host, slot) = key)) as [->|Hne]; [done|].
    destruct (list_find _ (reverse servers)) as [[i e]|]; done.
  - unfold _notify_workers_host_changes, calls_of.
    induction (_worker_clients (registered verbosity servers)) as [|[[host slot] client] l IH];
      [done|].
    rewrite bind_cons, omap_app, IH, fmap_cons. cbn [snd].
    destruct (delivered client timestamp); [done|]. by destruct (2 <=? _).
  - unfold _notify_workers_host_changes, warnings_of. rewrite registered_verbose.
    induction (_worker_clients (registered verbosity servers)) as [|[[host slot] client] l IH];
      [by destruct (2 <=? verbosity)|].
    rewrite bind_cons, omap_app, IH, filter_cons. cbn [snd].
    destruct (delivered client timestamp) eqn:Hd.
    + rewrite decide_False by done. done.
    + rewrite decide_True by done. by destruct (2 <=? verbosity).
Qed.

End Notifications.

(** ** The names of the results *)

Lemma occurs_app c s1 s2 : occurs c (s1 +:+ s2) ↔ occurs c s1 ∨ occurs c s2.
Proof. induction s1 as [|c' s1 IH]; simpl; [tauto|]. rewrite IH. tauto. Qed.

Lemma pretty_N_go_no_bracket x s :
  ¬ occurs "["%char s → ¬ occurs "["%char (pretty_N_go x s).
Proof.
  revert s. induction (N.lt_wf_0 x) as [x _ IH]; intros s Hs.
  assert (x = 0 ∨ 0 < x)%N as [->|Hx] by lia; [by rewrite pretty_N_go_0|].
  rewrite pretty_N_go_step by done. apply IH; [by apply N.div_lt|].
  cbn [occurs]. intros [Hc|?]; [|done]. unfold pretty_N_char in Hc.
  by repeat case_match.
Qed.

Lemma pretty_Z_no_bracket (z : Z) : ¬ occurs "["%char (pretty z).
Proof.
  assert (∀ n : N, ¬ occurs "["%char (pretty n)) as HN.
  { intros n. unfold pretty, pretty_N. destruct (decide (n = 0%N)).
    - cbn. by intros [?|?].
    - apply pretty_N_go_no_bracket. cbn. tauto. }
  destruct z as [|x|x]; unfold pretty, pretty_Z.
  - cbn. by intros [?|?].
  - apply (HN (Npos x)).
  - rewrite occurs_app. cbn. intros [[?|?]|?]; [done..|]. by apply (HN (Npos x)).
Qed.

Lemma append_bracket_inj (s1 s2 : string) : s1 +:+ "]" = s2 +:+ "]" → s1 = s2.
Proof.
  revert s2. induction s1 as [|a s1 IH]; intros [|b s2]; cbn; try done.
  - intros [= <- Hs]. by destruct s2.
  - intros [= <- Hs]. by destruct s1.
  - intros [= <- Hs]. f_equal. by apply IH.
Qed.

(** X17.  The name under which a result is stored, ['{}[{}]'] of the host and
    the slot, tells the worker: two workers have the same name only when
    they have the same host and the same slot.  So [add_result], which
    keeps the first value of a name, never drops the result of one worker
    for that of another. *)
Theorem result_names_tell_workers_apart host1 slot1 host2 slot2 :
  Supervisor.result_name host1 slot1 = Supervisor.result_name host2 slot2 ↔
  host1 = host2 ∧ slot1 = slot2.
Proof.
  split; [|by intros [-> ->]].
  unfold Supervisor.result_name.
  assert (∀ z : Z, ¬ occurs "["%char (pretty z +:+ "]")) as Htail.
  { intros z. rewrite occurs_app. cbn. intros [?|[?|?]]; [|done..].
    by apply (pretty_Z_no_bracket z). }
  revert host2. induction host1 as [|c1 host1 IH]; intros [|c2 host2]; cbn.
  - intros [= Heq]. split; [done|].
    change (pretty slot1 +:+ "]" = pretty slot2 +:+ "]") in Heq.
    apply append_bracket_inj in Heq. by apply (inj (pretty (A:=Z))).
  - intros [= <- Heq]. exfalso. apply (Htail slot1).
    change (occurs "["%char ("" +:+ pretty slot1 +:+ "]")). rewrite Heq.
    rewrite occurs_app. right. simpl. by left.
  - intros [= -> Heq]. exfalso. apply (Htail slot2).
    change (occurs "["%char ("" +:+ pretty slot2 +:+ "]")). rewrite <- Heq.
    rewrite occurs_app. right. simpl. by left.
  - intros [= <- Heq]. destruct (IH host2 Heq) as [-> ->]. done.
Qed.

(** ** A record before the first reset *)

(** X18.  Before the first [reset] the registry has no barrier.  A call of
    [record_ready], [record_success] or [record_failure] made then, on a
    driver that has not finished, records its state under the lock and
    raises at the wait, since [self._barrier] is still [None]; the state
    stays recorded.  A second call for the same key raises under the
    lock, at [self._barrier.reset()], before it records anything. *)
Theorem record_before_reset_raises `{Assigner} env host slot state p :
  _barrier (registry p) = None →
  _shutdown (driver p) = false →
  let t := mkThread host slot state at_finished_check in
  (_states (registry p) !! (host, slot) = None →
   ∃ s', exec (mkSystem p [t]) [(0%nat, env); (0%nat, env); (0%nat, env)] s' ∧
         threads s' = [set_pc (raised NoBarrier) t] ∧
         _states (registry (process s')) !! (host, slot) = Some state ∧
         (host, slot) ∈ default ∅ (_workers (registry (process s')) !! state)) ∧
  (is_Some (_states (registry p) !! (host, slot)) →
   ∃ s', exec (mkSystem p [t]) [(0%nat, env); (0%nat, env)] s' ∧
         threads s' = [set_pc (raised NoBarrier) t] ∧
         registry (process s') = registry p).
Proof.
  intros Hnone Hrun t.
  assert (step env 0 (mkSystem p [t]) = Some (mkSystem p [set_pc at_lock t])) as Hfirst.
  { unfold step. cbn [threads process lookup list_lookup].
    rewrite (finished_check_passes env t p eq_refl Hrun). reflexivity. }
  split.
  - intros Hfresh. eexists. split; [|split; [|split]].
    + eapply exec_cons; [exact Hfirst|].
      eapply exec_cons.
      { unfold step. cbn [threads process lookup list_lookup]. unfold block.
        cbn [set_pc t_pc t_host t_slot t_state t].
        unfold _record_state_locked. run_method.
        rewrite bool_decide_eq_false_2 by (rewrite Hfresh; by intros [? ?]).
        cbn beta iota. reflexivity. }
      eapply exec_cons; [|apply exec_nil].
      unfold step. cbn [threads process lookup list_lookup list_insert]. unfold block.
      cbn [set_pc t_pc].
      unfold except_BrokenBarrierError, try_except, _wait_enter, the_barrier.
      run_monad. cbn [set_registry _worker_registry _barrier].
      rewrite Hnone. reflexivity.
    + reflexivity.
    + unfold registry. cbn. apply lookup_insert_eq.
    + unfold registry. cbn. rewrite lookup_insert_eq. cbn. set_solver.
  - intros Hold. eexists. split; [|split].
    + eapply exec_cons; [exact Hfirst|].
      eapply exec_cons; [|apply exec_nil].
      unfold step. cbn [threads process lookup list_lookup]. unfold block.
      cbn [set_pc t_pc t_host t_slot t_state t].
      unfold _record_state_locked, reset_barrier, the_barrier. run_method.
      rewrite bool_decide_eq_true_2 by done.
      cbn beta iota. cbn [driver barriers logging]. rewrite Hnone. reflexivity.
    + reflexivity.
    + reflexivity.
Qed.

(** A report of h1[0] to the new driver, before [start]. *)
Lemma record_before_reset_raises_witness :
  let t := mkThread "h1" 0 READY at_finished_check in
  let p := Examples.fresh 2 None in
  (_states (registry p) !! ("h1"%string, 0) = None →
   ∃ s', @exec dense_assignments (mkSystem p [t])
           [(0%nat, Examples.quiet); (0%nat, Examples.quiet); (0%nat, Examples.quiet)] s' ∧
         threads s' = [set_pc (raised NoBarrier) t] ∧
         _states (registry (process s')) !! ("h1"%string, 0) = Some READY ∧
         ("h1"%string, 0) ∈ default ∅ (_workers (registry (process s')) !! READY)) ∧
  (is_Some (_states (registry p) !! ("h1"%string, 0)) →
   ∃ s', @exec dense_assignments (mkSystem p [t])
           [(0%nat, Examples.quiet); (0%nat, Examples.quiet)] s' ∧
         threads s' = [set_pc (raised NoBarrier) t] ∧
         registry (process s') = registry p).
Proof.
  apply (@record_before_reset_raises dense_assignments Examples.quiet "h1" 0 READY
           (Examples.fresh 2 None)); reflexivity.
Defined.

(** ** Threads that wait when the driver finishes *)

(** An event other than a step of a thread creates barriers at most. *)
Lemma allocates_run `{Assigner} ev s :
  (∀ env i, ev ≠ Job.thread_steps env i) →
  allocates (process s) (process (Job.run ev s)) ∧ threads (Job.run ev s) = threads s.
Proof.
  intros Hev. destruct ev as [env np fn| |w|slot_info|env i|slot_info exit_code timestamp rid];
    [| | | |by destruct (Hev env i)|]; cbn [Job.run process threads]; (split; [|done]).
  - assert (keeps allocates (Driver.start env np fn)) as Hk
      by (unfold Driver.start; keeps_method). apply Hk.
  - unfold allocates. reflexivity.
  - unfold allocates, Driver.discovered. destruct (found w); reflexivity.
  - assert (keeps allocates (Ignored._handle_worker_exit slot_info)) as Hk
      by (unfold Ignored._handle_worker_exit, Driver.has_rank_assignment; keeps_method).
    apply Hk.
  - assert (keeps allocates
              (Released._handle_worker_exit slot_info exit_code timestamp rid)) as Hk
      by (unfold Released._handle_worker_exit, Res.add_result, Driver.finished,
            Registry.last_rendezvous; keeps_method).
    apply Hk.
Qed.

(** X19.  [stop()] does not release the threads that wait in the barrier,
    and once the driver has finished nobody else does: a call of
    [record_ready], [record_success] or [record_failure] that begins
    afterwards returns at the test of line 86 and never comes to the
    barrier.  So when the driver has finished while a barrier is still
    filling, and every thread either waits inside that barrier or has not
    begun its call, the barrier stays as it is and the threads inside it
    stay blocked, whatever the launcher, the discovery thread, the other
    threads and the supervisors do. *)
Theorem waiters_are_stranded_by_stop `{Assigner} evs s b bar :
  _shutdown (driver (process s)) = true →
  barriers (process s) !! b = Some bar → _state bar = Filling →
  Forall (λ t, idle b (t_pc t)) (threads s) →
  barriers (process (Job.runs evs s)) !! b = Some bar ∧
  Forall (λ t, idle b (t_pc t)) (threads (Job.runs evs s)) ∧
  (∀ i t rendezvous_id,
     threads s !! i = Some t → t_pc t = in_barrier rendezvous_id b →
     threads (Job.runs evs s) !! i = Some t ∧
     ∀ env, step env i (Job.runs evs s) = None).
Proof.
  intros Hstop Hbar Hfill Hidle.
  assert (barriers (process (Job.runs evs s)) !! b = Some bar ∧
          Forall (λ t, idle b (t_pc t)) (threads (Job.runs evs s)) ∧
          (∀ i t rendezvous_id,
             threads s !! i = Some t → t_pc t = in_barrier rendezvous_id b →
             threads (Job.runs evs s) !! i = Some t)) as (Hbar' & Hidle' & Hstay).
  { unfold Job.runs. revert s Hstop Hbar Hidle.
    induction evs as [|ev evs IH]; intros s Hstop Hbar Hidle; cbn [foldl]; [done|].
    assert (_shutdown (driver (process (Job.run ev s))) = true) as Hstop'.
    { destruct (publishes_runs [ev] s) as (_ & Hkeep & _). by apply Hkeep. }
    assert (barriers (process (Job.run ev s)) !! b = Some bar ∧
            Forall (λ t, idle b (t_pc t)) (threads (Job.run ev s)) ∧
            (∀ i t rendezvous_id,
               threads s !! i = Some t → t_pc t = in_barrier rendezvous_id b →
               threads (Job.run ev s) !! i = Some t)) as (Hb1 & Hi1 & Hs1).
    { assert ((∃ env i, ev = Job.thread_steps env i) ∨
              ∀ env i, ev ≠ Job.thread_steps env i) as [(env & i & ->)|Hno]
        by (destruct ev; try (by right); left; by do 2 eexists).
      - cbn [Job.run]. unfold step.
        destruct (threads s !! i) as [t|] eqn:Hi; [|done].
        assert (idle b (t_pc t)) as Ht
          by (rewrite Forall_forall in Hidle; apply Hidle; by eapply list_elem_of_lookup_2).
        unfold block. destruct (t_pc t) eqn:Hpc; try done.
        + unfold _record_state_finished. run_method. rewrite Hstop.
          cbn [from_option id process threads barriers]. split; [done|]. split.
          * apply Forall_insert; [done|]. by cbn.
          * intros j tj rid Hj Hpcj. rewrite list_lookup_insert_ne; [done|].
            intros <-. congruence.
        + cbn in Ht. subst b0.
          unfold except_BrokenBarrierError, try_except, _wait_leave. run_monad.
          rewrite Hbar. cbn beta iota. rewrite Hfill. done.
      - destruct (allocates_run ev s Hno) as [Halloc Hthreads].
        rewrite Hthreads. split; [|done].
        destruct Halloc as [l ->]. by apply lookup_app_l_Some. }
    destruct (IH (Job.run ev s) Hstop' Hb1 Hi1) as (Hb2 & Hi2 & Hs2).
    split; [done|]. split; [done|].
    intros i t rid Hi Hpc. eapply Hs2; [|exact Hpc]. by eapply Hs1. }
  split; [done|]. split; [done|].
  intros i t rid Hi Hpc. split; [by eapply Hstay|].
  intros env. unfold step. erewrite Hstay by done.
  unfold block. rewrite Hpc.
  unfold except_BrokenBarrierError, try_except, _wait_leave. run_monad.
  rewrite Hbar'. cbn beta iota. by rewrite Hfill.
Qed.

(** h1[0] waits in the barrier when the launcher stops the driver; the
    late report for h1[0] returns, a second [start] makes a new barrier,
    and h1[0] still waits in the old one. *)
Lemma waiters_are_stranded_by_stop_witness :
  barriers (process (@Job.runs dense_assignments Scenarios.goes_on
                       Examples.stopped_while_waiting)) !! 0%nat
    = Some (mkBarrier 2 Filling 1) ∧
  Forall (λ t, idle 0 (t_pc t))
    (threads (@Job.runs dense_assignments Scenarios.goes_on Examples.stopped_while_waiting)) ∧
  (∀ i t rendezvous_id,
     threads Examples.stopped_while_waiting !! i = Some t →
     t_pc t = in_barrier rendezvous_id 0 →
     threads (@Job.runs dense_assignments Scenarios.goes_on Examples.stopped_while_waiting)
       !! i = Some t ∧
     ∀ env, @step dense_assignments env i
              (@Job.runs dense_assignments Scenarios.goes_on Examples.stopped_while_waiting)
            = None).
Proof.
  apply (@waiters_are_stranded_by_stop dense_assignments Scenarios.goes_on
           Examples.stopped_while_waiting 0%nat (mkBarrier 2 Filling 1)).
  - vm_compute. reflexivity.
  - vm_compute. reflexivity.
  - reflexivity.
  - vm_compute. repeat constructor.
Defined.


(** ** An exit that a new generation has overtaken *)

#[local] Instance not_before_refl : Reflexive not_before.
Proof. intros p. unfold not_before. lia. Qed.

#[local] Instance not_before_trans : Transitive not_before.
Proof. intros p q r. unfold not_before. lia. Qed.

Ltac not_before_leaf :=
  intros ?; unfold not_before, registry; cbn; repeat case_match; cbn; lia.

#[local] Hint Extern 2 (keeps not_before (modify _)) => not_before_leaf : keeps.
#[local] Hint Extern 2 (keeps not_before (log _)) => not_before_leaf : keeps.
#[local] Hint Extern 2 (keeps not_before (Registry.reset _)) => not_before_leaf : keeps.
#[local] Hint Extern 2 (keeps not_before Driver.stop) => not_before_leaf : keeps.
#[local] Hint Extern 2 (keeps not_before (Res.expect _)) => not_before_leaf : keeps.
#[local] Hint Extern 2 (keeps not_before (Res.add_result _ _)) => not_before_leaf : keeps.
#[local] Hint Extern 2 (keeps not_before (Driver.blacklist_failures _)) =>
  not_before_leaf : keeps.

Lemma not_before_wait_loop tmout min_np max_np ws :
  keeps not_before (Driver.wait_loop tmout min_np max_np ws).
Proof.
  induction ws as [|w ws IH]; simpl; keeps_method.
  - unfold Driver.discovered. keeps_method.
  - unfold Driver.check_time_out_for. keeps_method.
Qed.

#[local] Hint Resolve not_before_wait_loop : keeps.

Lemma not_before_runs `{Assigner} evs s :
  not_before (process s) (process (Job.runs evs s)).
Proof.
  assert (∀ env, keeps not_before (Driver.on_workers_recorded env)) as Haction
    by (intros env; unfold_driver; keeps_method).
  apply (runs_keeps not_before).
  - intros env np fn. unfold_driver. keeps_method.
  - not_before_leaf.
  - intros w. unfold Driver.discovered. keeps_method.
  - intros slot_info. unfold_driver. keeps_method.
  - intros env t. unfold_block. destruct (t_pc t); unfold_driver;
      unfold _record_state_locked, reset_barrier, the_barrier, store_barrier; keeps_method.
  - intros slot_info exit_code timestamp rendezvous_id. unfold_driver. keeps_method.
Qed.

(** X20.  A supervisor whose call of [record_success] or [record_failure]
    returned a rendezvous id that a later [reset] has overtaken never
    publishes its result: the rendezvous id of the registry does not go
    down, whatever the job does, so the test of line 340 fails then and at
    every later moment, and lines 341-344 leave the process as it is. *)
Theorem stale_exit_is_never_published `{Assigner} evs s slot_info exit_code timestamp
    rendezvous_id :
  rendezvous_id < _rendezvous_id (registry (process s)) →
  rendezvous_id < _rendezvous_id (registry (process (Job.runs evs s))) ∧
  Released._handle_worker_exit slot_info exit_code timestamp rendezvous_id
    (process (Job.runs evs s)) = (Return (), process (Job.runs evs s)).
Proof.
  intros Hstale. pose proof (not_before_runs evs s) as Hlater. unfold not_before in Hlater.
  split; [lia|].
  unfold Released._handle_worker_exit. run_method.
  destruct (Z.eqb_spec (_rendezvous_id (_worker_registry (driver (process (Job.runs evs s)))))
              rendezvous_id) as [Heq|_]; [lia|].
  by rewrite andb_false_r.
Qed.

(** Both workers of h1 were released with the id 1 when the action had
    started generation 2; whatever follows, their exits are not
    published. *)
Lemma stale_exit_is_never_published_witness :
  1 < _rendezvous_id (registry (process (@Job.runs dense_assignments Scenarios.restart
                                           Scenarios.both_ready))) ∧
  Released._handle_worker_exit (mkSlotInfo "h1" 0 2 0 1 0 2) 0 17 1
    (process (@Job.runs dense_assignments Scenarios.restart Scenarios.both_ready)) =
    (Return (), process (@Job.runs dense_assignments Scenarios.restart Scenarios.both_ready)).
Proof.
  apply (@stale_exit_is_never_published dense_assignments Scenarios.restart
           Scenarios.both_ready (mkSlotInfo "h1" 0 2 0 1 0 2) 0 17 1).
  vm_compute. reflexivity.
Defined.

(** ** What the action of the barrier leaves behind *)

(** A call of [_activate_hosts] that returns has reset the registry. *)
Lemma activation_resets `{Assigner} env min_np p p' :
  Driver._activate_hosts env min_np p = (Return (), p') →
  _rendezvous_id (registry p') = _rendezvous_id (registry p) + 1 ∧
  _states (registry p') = ∅ ∧
  _workers (registry p') = ∅ ∧
  _size (registry p') = _world_size (driver p') ∧
  _shutdown (driver p') = _shutdown (driver p).
Proof.
  intros Hrun.
  destruct (activate_hosts_returns env min_np p p' Hrun) as (p1 & slots & Hwait & _ & ->).
  assert (same_registry p p1) as (Hreg & _ & Hstop).
  { assert (keeps same_registry
              (log (info_wait_for_hosts min_np) ≫= λ _,
               Driver.wait_for_available_hosts env min_np None)) as Hkeep
      by (unfold Driver.wait_for_available_hosts; keeps_method;
          apply same_registry_wait_loop).
    specialize (Hkeep p). rewrite bind_outcome in Hkeep.
    unfold log at 1, modify at 1 in Hkeep. cbn beta iota in Hkeep.
    unfold log, modify in Hwait. cbn [snd] in Hwait. by rewrite Hwait in Hkeep. }
  unfold registry in *. unfold Registry.reset, expect_all. run_monad.
  cbn [driver barriers logging with_driver set_results set_assignments
       set_assigned_hosts set_registry snd with_registry with_barriers
       _worker_registry _world_size _shutdown _size _rendezvous_id _states _workers].
  by rewrite Hreg, Hstop.
Qed.

(** X21.  When [on_workers_recorded] returns, either the shutdown event is
    set, or a new generation has begun: the registry has been reset, so
    that the rendezvous id is one more than before, no state is recorded,
    and the size of the registry is the world size.  The action never
    returns with the driver running and the old generation in place. *)
Theorem action_ends_or_renews_the_generation `{Assigner} env p p' :
  Driver.on_workers_recorded env p = (Return (), p') →
  _shutdown (driver p) = false →
  _shutdown (driver p') = true ∨
  (_shutdown (driver p') = false ∧
   _rendezvous_id (registry p') = _rendezvous_id (registry p) + 1 ∧
   _states (registry p') = ∅ ∧
   _workers (registry p') = ∅ ∧
   _size (registry p') = _world_size (driver p')).
Proof.
  intros Hrun Hnot.
  assert (_shutdown (driver p') = true ∨
          Driver.on_workers_recorded env p =
            try_except (Driver._activate_hosts env (_min_np (driver p)))
              (λ _, log exception_activate_failed ≫= λ _, Driver.stop)
              (after_blacklisting p)) as [?|Hact]; [|by left|].
  { revert Hrun. unfold after_blacklisting, hosts_with_failures_blacklisted. run_method.
    destruct (0 <? _); [intros [= <-]; by left|].
    cbn beta iota. cbn [driver barriers logging].
    destruct (_ =? _); [intros [= <-]; by left|].
    cbn beta iota. cbn [driver barriers logging].
    destruct (_ =? _); [intros [= <-]; by left|].
    cbn beta iota. cbn [driver barriers logging]. intros _. by right. }
  rewrite Hact in Hrun. unfold try_except in Hrun.
  destruct (Driver._activate_hosts env (_min_np (driver p)) (after_blacklisting p))
    as [[[]|e|] pa] eqn:Hactivate.
  - injection Hrun as <-. right.
    destruct (activation_resets env _ _ _ Hactivate) as (Hid & Hstates & Hworkers & Hsize & Hstop).
    split; [by rewrite Hstop|]. done.
  - left. revert Hrun. run_method. by intros [= <-].
  - done.
Qed.

(** The theorem applies to the run in which both workers of h1 report
    ready: the action starts the second generation. *)
Lemma action_ends_or_renews_the_generation_witness :
  let p := Scenarios.all_ready in
  _shutdown (driver (Examples.on_workers_recorded p).2) = true ∨
  (_shutdown (driver (Examples.on_workers_recorded p).2) = false ∧
   _rendezvous_id (registry (Examples.on_workers_recorded p).2) =
     _rendezvous_id (registry p) + 1 ∧
   _states (registry (Examples.on_workers_recorded p).2) = ∅ ∧
   _workers (registry (Examples.on_workers_recorded p).2) = ∅ ∧
   _size (registry (Examples.on_workers_recorded p).2) =
     _world_size (driver (Examples.on_workers_recorded p).2)).
Proof.
  apply (@action_ends_or_renews_the_generation dense_assignments Examples.quiet
           Scenarios.all_ready).
  - vm_compute. reflexivity.
  - vm_compute. reflexivity.
Defined.
